(** * EXIF-Viewer core: extraction, GPS decoding, bulk processing, export

    A shallow embedding of [src/core/exif_extractor.py],
    [src/core/file_processor.py] and [src/core/exporter.py], with the
    helpers of [src/utils/helpers.py] and the filter of
    [src/gui/metadata_viewer.py].

    Python dictionaries built by the code are finite maps ([gmap]);
    dictionaries handed over by a metadata library, and the dictionary
    handed to the exporter, whose loops write in the order of insertion,
    are the sequence of their [items()].  Python floats are binary64,
    here Rocq's primitive floats.  Exceptions are an error monad: a
    computation is [Ok v] or [Raise e], and [try ... except Exception] is
    a match on [Raise]. *)

From Stdlib Require Import ZArith String Ascii List Floats OrderedTypeEx.
From stdpp Require Import base option list gmap strings pretty sorting.

Local Open Scope Z_scope.

(** ** Python exceptions and the error monad *)

Inductive exn_class :=
  | FileNotFoundError | TimeoutExpired | ImportError | TypeError | ValueError
  | IndexError | KeyError | AttributeError | OverflowError | OSError.

(** An exception object: its class and [str(e)]. *)
Record exn := Exn { exn_kind : exn_class; exn_str : string }.

Inductive result (A : Type) :=
  | Ok (a : A)
  | Raise (e : exn).
Arguments Ok {A} a.
Arguments Raise {A} e.

#[global] Instance result_ret : MRet result := λ A a, Ok a.
#[global] Instance result_bind : MBind result := λ A B f m,
  match m with Ok a => f a | Raise e => Raise e end.

(** [try: c except Exception as e: h e] *)
Definition try_except {A} (c : result A) (h : exn → result A) : result A :=
  match c with Ok a => Ok a | Raise e => h e end.

Definition returns {A} (c : result A) : Prop := ∃ a, c = Ok a.

(** ** Python values reaching the core from the metadata libraries *)

(** A dictionary key: a tag name, or a numeric tag id that the tag table
    does not name ([TAGS.get(tag_id, tag_id)]). *)
Inductive tag_key :=
  | TagName (s : string)
  | TagId (n : Z).

#[global] Instance tag_key_eq_dec : EqDecision tag_key.
Proof. solve_decision. Defined.

#[global] Instance tag_key_countable : Countable tag_key.
Proof.
  refine (inj_countable'
    (λ k, match k with TagName s => inl s | TagId n => inr n end)
    (λ x, match x with inl s => TagName s | inr n => TagId n end) _).
  by intros [].
Defined.

(** [VRational n d] is Pillow's [IFDRational]; EXIF rationals have 32-bit
    numerator and denominator. *)
#[warning="-register-all"]
Inductive pyval :=
  | VNone
  | VStr (s : string)
  | VInt (z : Z)
  | VFloat (f : float)
  | VRational (num den : Z)
  | VTuple (l : list pyval)
  | VList (l : list pyval)
  | VDict (items : list (tag_key * pyval)).

(** [d.get(k)] on the items of a dictionary. *)
Fixpoint dict_get {V} (k : tag_key) (items : list (tag_key * V)) : option V :=
  match items with
  | [] => None
  | (k', v) :: rest => if decide (k' = k) then Some v else dict_get k rest
  end.

(** [float(n)] for an int: round to nearest even. *)
Definition float_of_Z (z : Z) : float :=
  SF2Prim (binary_normalize prec emax z 0 false).

Definition py_truthy (v : pyval) : bool :=
  match v with
  | VNone => false
  | VStr s => negb (String.eqb s "")
  | VInt z => negb (z =? 0)
  | VFloat f => negb (PrimFloat.eqb f 0%float)
  | VRational n d => negb (n =? 0) || (d =? 0)
  | VTuple l | VList l => negb (Nat.eqb (length l) 0)
  | VDict items => negb (Nat.eqb (length items) 0)
  end.

(** [len(v)]; [TypeError] for a value without a length. *)
Definition py_len (v : pyval) : result nat :=
  match v with
  | VStr s => Ok (String.length s)
  | VTuple l | VList l => Ok (length l)
  | VDict items => Ok (length items)
  | _ => Raise (Exn TypeError "object has no len()")
  end.

(** [v[i]] for a small constant index. *)
Definition py_index (v : pyval) (i : nat) : result pyval :=
  match v with
  | VTuple l | VList l =>
      match l !! i with
      | Some x => Ok x
      | None => Raise (Exn IndexError "index out of range")
      end
  | VStr s =>
      match String.get i s with
      | Some c => Ok (VStr (String c EmptyString))
      | None => Raise (Exn IndexError "string index out of range")
      end
  | VDict items =>
      match dict_get (TagId (Z.of_nat i)) items with
      | Some x => Ok x
      | None => Raise (Exn KeyError (pretty i))
      end
  | _ => Raise (Exn TypeError "object is not subscriptable")
  end.

(** [v == s] for a string literal [s]: only a string equals a string. *)
Definition py_eq_str (v : option pyval) (s : string) : bool :=
  match v with
  | Some (VStr s') => String.eqb s' s
  | _ => false
  end.

(** ** Strings and paths *)

Definition lower_ascii (c : ascii) : ascii :=
  let n := nat_of_ascii c in
  if (Nat.leb 65 n && Nat.leb n 90)%bool then ascii_of_nat (n + 32) else c.

(** [s.lower()] on ASCII text. *)
Fixpoint lower (s : string) : string :=
  match s with
  | EmptyString => EmptyString
  | String c s' => String (lower_ascii c) (lower s')
  end.

(** [s.split(sep)] for a one-character separator. *)
Fixpoint split_on (sep : ascii) (s : string) : list string :=
  match s with
  | EmptyString => [EmptyString]
  | String c s' =>
      if Ascii.eqb c sep then EmptyString :: split_on sep s'
      else match split_on sep s' with
           | [] => [String c EmptyString]
           | hd :: tl => String c hd :: tl
           end
  end.

(** [s.rfind(c)], counting positions from [i]. *)
Fixpoint rfind (c : ascii) (s : string) (i : nat) : option nat :=
  match s with
  | EmptyString => None
  | String a s' =>
      match rfind c s' (S i) with
      | Some j => Some j
      | None => if Ascii.eqb a c then Some i else None
      end
  end.

(** [Path(p).name]: the last component, empty and "." components dropped. *)
Definition path_name (p : string) : string :=
  List.last
    (List.filter (λ c, negb (String.eqb c "") && negb (String.eqb c "."))%bool
                 (split_on "/" p))
    EmptyString.

(** [Path(p).suffix] *)
Definition path_suffix (p : string) : string :=
  let name := path_name p in
  match rfind "." name 0 with
  | Some i =>
      if (Nat.ltb 0 i && Nat.ltb i (String.length name - 1))%bool
      then substring i (String.length name - i) name
      else EmptyString
  | None => EmptyString
  end.

(** [os.path.basename(p)] *)
Definition basename (p : string) : string :=
  List.last (split_on "/" p) EmptyString.

(** [f"{n:,}"]: decimal digits in groups of three. *)
Fixpoint group_thousands (digits : list ascii) : list ascii :=
  match digits with
  | a :: b :: c :: ((_ :: _) as rest) => a :: b :: c :: "," %char :: group_thousands rest
  | _ => digits
  end.

Definition format_thousands (n : Z) : string :=
  let body := string_of_list_ascii
                (rev (group_thousands (rev (list_ascii_of_string (pretty (Z.abs n)))))) in
  if n <? 0 then String "-" body else body.

(** ** The Record returned for one file *)

(** A dictionary with a fixed vocabulary of top-level keys; [None] is an
    absent key. *)
Record metadata := Metadata {
  file_info : option (gmap string string);
  exif_data : option (gmap tag_key string);
  gps_data : option (gmap tag_key pyval);
  camera_info : option (gmap tag_key string);
  image_info : option (gmap tag_key pyval);
  video_info : option pyval;
  streams : option pyval;
  audio_info : option (gmap string string);
  error : option string }.

Definition empty_metadata : metadata :=
  Metadata None None None None None None None None None.

(** [{"error": msg}] *)
Definition error_record (msg : string) : metadata :=
  Metadata None None None None None None None None (Some msg).

Definition set_exif_data (x : gmap tag_key string) (md : metadata) : metadata :=
  Metadata (file_info md) (Some x) (gps_data md) (camera_info md) (image_info md)
           (video_info md) (streams md) (audio_info md) (error md).
Definition set_gps_data (x : gmap tag_key pyval) (md : metadata) : metadata :=
  Metadata (file_info md) (exif_data md) (Some x) (camera_info md) (image_info md)
           (video_info md) (streams md) (audio_info md) (error md).
Definition set_camera_info (x : gmap tag_key string) (md : metadata) : metadata :=
  Metadata (file_info md) (exif_data md) (gps_data md) (Some x) (image_info md)
           (video_info md) (streams md) (audio_info md) (error md).
Definition set_image_info (x : gmap tag_key pyval) (md : metadata) : metadata :=
  Metadata (file_info md) (exif_data md) (gps_data md) (camera_info md) (Some x)
           (video_info md) (streams md) (audio_info md) (error md).
Definition set_video_info (x : pyval) (md : metadata) : metadata :=
  Metadata (file_info md) (exif_data md) (gps_data md) (camera_info md) (image_info md)
           (Some x) (streams md) (audio_info md) (error md).
Definition set_streams (x : pyval) (md : metadata) : metadata :=
  Metadata (file_info md) (exif_data md) (gps_data md) (camera_info md) (image_info md)
           (video_info md) (Some x) (audio_info md) (error md).
Definition set_audio_info (x : gmap string string) (md : metadata) : metadata :=
  Metadata (file_info md) (exif_data md) (gps_data md) (camera_info md) (image_info md)
           (video_info md) (streams md) (Some x) (error md).
Definition set_error (msg : string) (md : metadata) : metadata :=
  Metadata (file_info md) (exif_data md) (gps_data md) (camera_info md) (image_info md)
           (video_info md) (streams md) (audio_info md) (Some msg).

(** [metadata[field]] of a sub-dictionary, empty when the key is absent. *)
Definition sub_dict `{Countable K} {V} (o : option (gmap K V)) : gmap K V :=
  default ∅ o.

(** ** The environment: the operating system and the metadata libraries *)

Record stat_result := { st_size : Z; st_ctime : float; st_mtime : float }.

(** What [Image.open] hands back: [img._getexif()] (may raise; [None] or
    the items of the tag dictionary), [img.format], [img.mode], [img.size]. *)
Record pil_image := {
  img_getexif : result (option (list (Z * pyval)));
  img_format : option string;
  img_mode : string;
  img_size : Z * Z }.

Record completed_process := { returncode : Z; stdout : string }.

Record mp3_file := {
  info_length : float;
  info_bitrate : Z;
  info_sample_rate : Z;
  mp3_tags : option (list (string * pyval)) }.

(** A directory tree, as [os.path.isdir] and [Path.glob] see it. *)
#[warning="-register-all"]
Inductive fs_entry :=
  | FsFile
  | FsDir (children : list (string * fs_entry)).

(** What an export leaves in an output file.  A csv document is its
    header and its rows of cells, as [csv.DictWriter] lays them out. *)
Inductive document :=
  | TextDoc (text : string)
  | CsvDoc (fieldnames : list string) (rows : list (list string)).

Record world := {
  (** path resolution of the operating system *)
  resolve : string → option fs_entry;
  os_stat : string → result stat_result;
  (** [PIL.ExifTags.TAGS] and [PIL.ExifTags.GPSTAGS] *)
  TAGS : Z → option string;
  GPSTAGS : Z → option string;
  (** [str(v)] of a value that is neither a string nor an int *)
  str_repr : pyval → string;
  (** [float(s)] of a string *)
  float_of_str : string → result float;
  (** [f"{x:.2f}"] *)
  format_2f : float → string;
  Image_open : string → result pil_image;
  (** [open(path, 'rb')] followed by [exifread.process_file] *)
  exifread_process_file : string → result (list (string * pyval));
  (** [subprocess.run(['ffprobe', ...], timeout=30)] *)
  ffprobe_run : string → result completed_process;
  json_loads : string → result pyval;
  (** [import mutagen]: [ImportError] when the library is absent *)
  import_mutagen : result unit;
  MP3 : string → result mp3_file;
  (** whether [open(path, 'w')] succeeds *)
  open_for_write : string → result unit;
  (** [json.dump(data, f, indent=2)] on the items of [data]: the text
      written, and the exception that interrupted it, if any *)
  json_dump : list (string * metadata) → string * option exn;
  (** the writes of a document to the opened file: [None] when all of it
      is written, or the exception a write raised (the encoder, the
      device) and what the file holds then *)
  write_interrupted : string → document → option (document * exn);
  (** [datetime.now().strftime('%Y-%m-%d %H:%M:%S')] *)
  now_stamp : string }.

Definition os_path_exists (w : world) (p : string) : bool :=
  match resolve w p with Some _ => true | None => false end.

Definition os_path_isdir (w : world) (p : string) : bool :=
  match resolve w p with Some (FsDir _) => true | _ => false end.

(** [str(v)] *)
Definition py_str (w : world) (v : pyval) : string :=
  match v with
  | VStr s => s
  | VInt z => pretty z
  | _ => str_repr w v
  end.

(** [float(v)]; an [IFDRational] with denominator 0 is [nan]. *)
Definition py_float (w : world) (v : pyval) : result float :=
  match v with
  | VInt z =>
      let f := float_of_Z z in
      if PrimFloat.is_infinity f
      then Raise (Exn OverflowError "int too large to convert to float")
      else Ok f
  | VFloat f => Ok f
  | VRational n d =>
      Ok (if d =? 0 then PrimFloat.nan
          else PrimFloat.div (float_of_Z n) (float_of_Z d))
  | VStr s => float_of_str w s
  | _ => Raise (Exn TypeError "float() argument must be a string or a real number")
  end.

(** [table.get(key, key)] *)
Definition tag_name (table : Z → option string) (tag_id : Z) : tag_key :=
  match table tag_id with
  | Some name => TagName name
  | None => TagId tag_id
  end.

Definition decode_key (table : Z → option string) (key : tag_key) : tag_key :=
  match key with
  | TagId n => tag_name table n
  | TagName s => TagName s
  end.

(** ** [class EXIFExtractor] *)

Module EXIFExtractor.

Definition supported_image_formats : gset string :=
  {[ ".jpg"; ".jpeg"; ".tiff"; ".tif"; ".png"; ".bmp"; ".gif" ]}.
Definition supported_video_formats : gset string :=
  {[ ".mp4"; ".avi"; ".mov"; ".mkv"; ".wmv" ]}.
Definition supported_audio_formats : gset string :=
  {[ ".mp3"; ".wav"; ".flac"; ".m4a" ]}.

Definition is_supported_file (file_path : string) : bool :=
  let ext := lower (path_suffix file_path) in
  bool_decide (ext ∈ supported_image_formats ∪ supported_video_formats
                     ∪ supported_audio_formats).

(** The tags that [_extract_image_exif] files under [camera_info] and
    under [image_info]. *)
Definition camera_tags : list tag_key :=
  TagName <$> ["Make"; "Model"; "LensMake"; "LensModel"]%string.
Definition image_tags : list tag_key :=
  TagName <$> ["ImageWidth"; "ImageLength"; "Orientation"; "ColorSpace"]%string.

Section extractor.
Context (w : world).

(** [_convert_to_degrees]: [d + (m / 60.0) + (s / 3600.0)] *)
Definition _convert_to_degrees (value : pyval) : result float :=
  n ← py_len value;
  if negb (Nat.eqb n 3) then Ok 0%float else
  d ← py_index value 0 ≫= py_float w;
  m ← py_index value 1 ≫= py_float w;
  s ← py_index value 2 ≫= py_float w;
  Ok (d + (m / 60) + (s / 3600))%float.

(** The first loop of [_parse_gps_data]: [gps_data[decoded] = str(value)]. *)
Fixpoint decode_gps_items (items : list (tag_key * pyval))
    (gps_data : gmap tag_key pyval) : gmap tag_key pyval :=
  match items with
  | [] => gps_data
  | (key, value) :: rest =>
      decode_gps_items rest
        (<[decode_key (GPSTAGS w) key := VStr (py_str w value)]> gps_data)
  end.

(** The [try] block of [_parse_gps_data]. *)
Definition decimal_coordinates (items : list (tag_key * pyval))
    (gps_data : gmap tag_key pyval) : result (gmap tag_key pyval) :=
  if bool_decide (TagName "GPSLatitude" ∈ dom gps_data)
     && bool_decide (TagName "GPSLongitude" ∈ dom gps_data)
  then
    lat ← _convert_to_degrees (default (VList []) (dict_get (TagId 2) items));
    lon ← _convert_to_degrees (default (VList []) (dict_get (TagId 4) items));
    let lat := if py_eq_str (dict_get (TagId 1) items) "S" then (- lat)%float else lat in
    let lon := if py_eq_str (dict_get (TagId 3) items) "W" then (- lon)%float else lon in
    Ok (<[TagName "DecimalLongitude" := VFloat lon]>
          (<[TagName "DecimalLatitude" := VFloat lat]> gps_data))
  else Ok gps_data.

(** [_parse_gps_data]: a falsy argument gives the empty mapping, a truthy
    one without [items()] raises, and the bare [except: pass] keeps the
    stringified mapping when the numeric step raises. *)
Definition _parse_gps_data (gps_info : pyval) : result (gmap tag_key pyval) :=
  if negb (py_truthy gps_info) then Ok ∅ else
  match gps_info with
  | VDict items =>
      let gps_data := decode_gps_items items ∅ in
      match decimal_coordinates items gps_data with
      | Ok g => Ok g
      | Raise _ => Ok gps_data
      end
  | _ => Raise (Exn AttributeError "object has no attribute 'items'")
  end.

(** [_get_file_info] *)
Definition _get_file_info (file_path : string) : result (gmap string string) :=
  st ← os_stat w file_path;
  Ok (<["Extension" := lower (path_suffix file_path)]>
     (<["Modified" := py_str w (VFloat (st_mtime st))]>
     (<["Created" := py_str w (VFloat (st_ctime st))]>
     (<["File Size" := format_thousands (st_size st) +:+ " bytes"]>
     (<["File Path" := file_path]>
     (<["File Name" := basename file_path]> ∅)))))).

(** A statement of a [try] block: the dictionary as it is left, and the
    exception raised, if any. *)
Definition outcome : Type := metadata * option exn.

(** The body of [for tag_id, value in exif_dict.items()]. *)
Definition classify_tag (tag_id : Z) (value : pyval) (md : metadata) : outcome :=
  let tag := tag_name (TAGS w) tag_id in
  if bool_decide (tag = TagName "GPSInfo") then
    match _parse_gps_data value with
    | Ok g => (set_gps_data g md, None)
    | Raise e => (md, Some e)
    end
  else if bool_decide (tag ∈ camera_tags) then
    (set_camera_info (<[tag := py_str w value]> (sub_dict (camera_info md))) md, None)
  else if bool_decide (tag ∈ image_tags) then
    (set_image_info (<[tag := VStr (py_str w value)]> (sub_dict (image_info md))) md, None)
  else
    (set_exif_data (<[tag := py_str w value]> (sub_dict (exif_data md))) md, None).

Fixpoint classify_tags (items : list (Z * pyval)) (md : metadata) : outcome :=
  match items with
  | [] => (md, None)
  | (tag_id, value) :: rest =>
      match classify_tag tag_id value md with
      | (md', None) => classify_tags rest md'
      | stopped => stopped
      end
  end.

(** [with Image.open(file_path) as img: ...] *)
Definition read_primary (file_path : string) (md : metadata) : outcome :=
  match Image_open w file_path with
  | Raise e => (md, Some e)
  | Ok img =>
      match img_getexif img with
      | Raise e => (md, Some e)
      | Ok exif_dict =>
          let looped :=
            match exif_dict with
            | Some ((_ :: _) as items) => classify_tags items md
            | _ => (md, None)
            end in
          match looped with
          | (md', None) =>
              (set_image_info
                 (<[TagName "Size" :=
                      VStr (pretty (img_size img).1 +:+ "x" +:+ pretty (img_size img).2)]>
                 (<[TagName "Mode" := VStr (img_mode img)]>
                 (<[TagName "Format" := from_option VStr VNone (img_format img)]>
                    (sub_dict (image_info md'))))) md', None)
          | stopped => stopped
          end
      end
  end.

(** [for key, value in tags.items(): if key not in exif_data: ...] *)
Fixpoint merge_secondary (tags : list (string * pyval))
    (exif : gmap tag_key string) : gmap tag_key string :=
  match tags with
  | [] => exif
  | (key, value) :: rest =>
      merge_secondary rest
        (if bool_decide (TagName key ∈ dom exif) then exif
         else <[TagName key := py_str w value]> exif)
  end.

Definition read_secondary (file_path : string) (md : metadata) : outcome :=
  match exifread_process_file w file_path with
  | Raise e => (md, Some e)
  | Ok tags => (set_exif_data (merge_secondary tags (sub_dict (exif_data md))) md, None)
  end.

(** [except Exception as e: metadata["error"] = prefix + str(e)] *)
Definition record_failure (prefix : string) (o : outcome) : metadata :=
  match o with
  | (md, None) => md
  | (md, Some e) => set_error (prefix +:+ exn_str e) md
  end.

Definition _extract_image_exif (file_path : string) : result metadata :=
  fi ← _get_file_info file_path;
  let md := Metadata (Some fi) (Some ∅) (Some ∅) (Some ∅) (Some ∅)
                     None None None None in
  Ok (record_failure "Error reading image EXIF: "
        match read_primary file_path md with
        | (md', None) => read_secondary file_path md'
        | stopped => stopped
        end).

(** The inner [try] of [_extract_video_exif]. *)
Definition probe_video (file_path : string) (md : metadata) : outcome :=
  match ffprobe_run w file_path with
  | Raise e => (md, Some e)
  | Ok proc =>
      if returncode proc =? 0 then
        match json_loads w (stdout proc) with
        | Raise e => (md, Some e)
        | Ok (VDict ffprobe_data) =>
            (set_streams (default (VList []) (dict_get (TagName "streams") ffprobe_data))
               (set_video_info (default (VDict []) (dict_get (TagName "format") ffprobe_data))
                  md), None)
        | Ok _ => (md, Some (Exn AttributeError "object has no attribute 'get'"))
        end
      else (md, None)
  end.

(** [except (FileNotFoundError, subprocess.TimeoutExpired): pass] *)
Definition pass_probe_absent (o : outcome) : outcome :=
  match o with
  | (md, Some (Exn FileNotFoundError _)) | (md, Some (Exn TimeoutExpired _)) => (md, None)
  | _ => o
  end.

Definition _extract_video_exif (file_path : string) : result metadata :=
  fi ← _get_file_info file_path;
  let md := Metadata (Some fi) (Some ∅) None None None (Some (VDict [])) None None None in
  Ok (record_failure "Error reading video metadata: "
        (pass_probe_absent (probe_video file_path md))).

(** [str(value[0]) if isinstance(value, list) else str(value)] over the
    tag frames. *)
Fixpoint copy_audio_tags (tags : list (string * pyval)) (md : metadata) : outcome :=
  match tags with
  | [] => (md, None)
  | (key, value) :: rest =>
      let text :=
        match value with
        | VList l => v0 ← py_index value 0; Ok (py_str w v0)
        | _ => Ok (py_str w value)
        end in
      match text with
      | Ok s => copy_audio_tags rest
                  (set_exif_data (<[TagName key := s]> (sub_dict (exif_data md))) md)
      | Raise e => (md, Some e)
      end
  end.

(** The inner [try] of [_extract_audio_exif], for an [.mp3] path. *)
Definition read_mp3 (file_path : string) (md : metadata) : outcome :=
  match import_mutagen w with
  | Raise e => (md, Some e)
  | Ok _ =>
      match MP3 w file_path with
      | Raise e => (md, Some e)
      | Ok audio =>
          let md' :=
            set_audio_info
              (<["Sample Rate" := pretty (info_sample_rate audio) +:+ " Hz"]>
              (<["Bitrate" := pretty (info_bitrate audio) +:+ " bps"]>
              (<["Length" := format_2f w (info_length audio) +:+ " seconds"]> ∅))) md in
          match mp3_tags audio with
          | Some ((_ :: _) as tags) => copy_audio_tags tags md'
          | _ => (md', None)
          end
      end
  end.

(** [except ImportError: metadata["error"] = "Install mutagen ..."] *)
Definition on_import_error (o : outcome) : outcome :=
  match o with
  | (md, Some (Exn ImportError _)) =>
      (set_error "Install mutagen library for full audio metadata support" md, None)
  | _ => o
  end.

Definition _extract_audio_exif (file_path : string) : result metadata :=
  fi ← _get_file_info file_path;
  let md := Metadata (Some fi) (Some ∅) None None None None None (Some ∅) None in
  Ok (record_failure "Error reading audio metadata: "
        (if String.eqb (lower (path_suffix file_path)) ".mp3"
         then on_import_error (read_mp3 file_path md)
         else (md, None))).

Definition extract_exif_data (file_path : string) : result metadata :=
  if negb (os_path_exists w file_path) then Ok (error_record "File not found") else
  let ext := lower (path_suffix file_path) in
  try_except
    (if bool_decide (ext ∈ supported_image_formats) then _extract_image_exif file_path
     else if bool_decide (ext ∈ supported_video_formats) then _extract_video_exif file_path
     else if bool_decide (ext ∈ supported_audio_formats) then _extract_audio_exif file_path
     else Ok (error_record "Unsupported file format"))
    (λ e, Ok (error_record ("Failed to extract EXIF data: " +:+ exn_str e))).

End extractor.
End EXIFExtractor.

(** ** [sorted] on strings *)

Definition str_le (a b : string) : Prop := String.leb a b = true.

#[global] Instance str_le_dec : RelDecision str_le.
Proof. intros a b. unfold str_le. apply _. Defined.

(** [sorted(l)] for a list of strings: the order on strings is total and
    antisymmetric, so the sorted list does not depend on the algorithm. *)
Definition sorted (l : list string) : list string := merge_sort str_le l.

(** ** [class FileProcessor] *)

Module FileProcessor.

(** [as_completed]: the futures in the order in which they finish.  The
    scheduler is an oracle: with [n] futures pending, the one at position
    [sched n mod n] finishes next. *)
Fixpoint completion_order {A} (sched : nat → nat) (n : nat) (pending : list A) : list A :=
  match n with
  | O => []
  | S n' =>
      let i := (sched n `mod` length pending)%nat in
      match pending !! i with
      | Some x => x :: completion_order sched n' (delete i pending)
      | None => []
      end
  end.

Definition as_completed {A} (sched : nat → nat) (futures : list A) : list A :=
  completion_order sched (length futures) futures.

(** The state of the collecting loop, and the trace of the calls made to
    [progress_callback]. *)
Record progress := Progress {
  results : gmap string metadata;
  completed : nat;
  calls : list (nat * nat) }.

(** [path / name] *)
Definition join (dir name : string) : string := dir +:+ "/" +:+ name.

(** [directory.glob("*")] *)
Definition glob_star (dir : string) (children : list (string * fs_entry))
    : list (string * fs_entry) :=
  map (λ c, (join dir c.1, c.2)) children.

(** [directory.glob("**/*")]: every entry below the directory. *)
Fixpoint glob_rec (dir : string) (e : fs_entry) : list (string * fs_entry) :=
  match e with
  | FsFile => []
  | FsDir children =>
      flat_map (λ c, (join dir c.1, c.2) :: glob_rec (join dir c.1) c.2) children
  end.

Definition is_file (e : fs_entry) : bool :=
  match e with FsFile => true | FsDir _ => false end.

(** [gps_data and "DecimalLatitude" in gps_data and "DecimalLongitude" in gps_data] *)
Definition has_decimal_gps (md : metadata) : bool :=
  match gps_data md with
  | Some g =>
      negb (Nat.eqb (size g) 0)
      && bool_decide (TagName "DecimalLatitude" ∈ dom g)
      && bool_decide (TagName "DecimalLongitude" ∈ dom g)
  | None => false
  end.

(** The body of [for future in as_completed(future_to_file)], for any
    task submitted to the executor and a callback that may raise
    ([None]: no callback).  What [future.result()] raises is caught; the
    callback is called after the [try ... except], so what it raises
    leaves the loop. *)
Definition collect_cb (task : string → result metadata) (total : nat)
    (progress_callback : option (nat → nat → result unit))
    (acc : result progress) (file_path : string) : result progress :=
  st ← acc;
  let result :=
    match task file_path with
    | Ok r => r
    | Raise exc => error_record ("Exception occurred: " +:+ exn_str exc)
    end in
  let completed' := S (completed st) in
  match progress_callback with
  | Some callback =>
      _ ← callback completed' total;
      Ok (Progress (<[file_path := result]> (results st)) completed'
                   (calls st ++ [(completed', total)]))
  | None => Ok (Progress (<[file_path := result]> (results st)) completed' (calls st))
  end.

(** [process_files] for such a task and such a callback.  With the
    extractor as the task and a callback that returns it is
    [process_files] below. *)
Definition process_files_cb (task : string → result metadata) (sched : nat → nat)
    (file_paths : list string) (progress_callback : option (nat → nat → result unit))
    : result (gmap string metadata * list (nat * nat)) :=
  if Nat.eqb (length file_paths) 0 then Ok (∅, []) else
  let supported_files := List.filter EXIFExtractor.is_supported_file file_paths in
  final ← foldl (collect_cb task (length supported_files) progress_callback)
                (Ok (Progress ∅ 0 [])) (as_completed sched supported_files);
  Ok (results final, calls final).

Section processor.
Context (w : world).

(** The body of [for future in as_completed(future_to_file)]. *)
Definition collect (total : nat) (progress_callback : bool)
    (st : progress) (file_path : string) : progress :=
  let result :=
    match EXIFExtractor.extract_exif_data w file_path with
    | Ok r => r
    | Raise exc => error_record ("Exception occurred: " +:+ exn_str exc)
    end in
  let completed' := S (completed st) in
  Progress (<[file_path := result]> (results st)) completed'
           (if progress_callback then calls st ++ [(completed', total)] else calls st).

(** [process_files]: the result map and the calls made to the callback
    ([progress_callback] tells whether one was passed). *)
Definition process_files (sched : nat → nat) (file_paths : list string)
    (progress_callback : bool) : gmap string metadata * list (nat * nat) :=
  if Nat.eqb (length file_paths) 0 then (∅, []) else
  let supported_files := List.filter EXIFExtractor.is_supported_file file_paths in
  let final :=
    foldl (collect (length supported_files) progress_callback)
          (Progress ∅ 0 []) (as_completed sched supported_files) in
  (results final, calls final).

Definition scan_directory (directory_path : string) (recursive : bool) : list string :=
  if negb (os_path_isdir w directory_path) then [] else
  let found :=
    match resolve w directory_path with
    | Some (FsDir children) =>
        if recursive then glob_rec directory_path (FsDir children)
        else glob_star directory_path children
    | _ => []
    end in
  sorted (map fst
    (List.filter (λ c, is_file c.2 && EXIFExtractor.is_supported_file c.1) found)).

(** [filter_geotagged_files]: the loop over [results.items()]. *)
Definition filter_geotagged_files (results : gmap string metadata)
    : gmap string metadata :=
  foldl (λ geotagged item,
           if has_decimal_gps item.2 then <[item.1 := item.2]> geotagged
           else geotagged)
        ∅ (map_to_list results).

(** [get_files_by_extension]: [grouped[ext].append(file_path)] over the
    recursive scan. *)
Definition get_files_by_extension (directory_path : string)
    : gmap string (list string) :=
  foldl (λ grouped file_path,
           let ext := lower (path_suffix file_path) in
           <[ext := default [] (grouped !! ext) ++ [file_path]]> grouped)
        ∅ (scan_directory directory_path true).

End processor.
End FileProcessor.

(** ** [class DataExporter] *)

Module DataExporter.

Definition supported_formats : gset string := {[ "json"; "csv"; "txt" ]}.

(** [str(key)] *)
Definition key_str (k : tag_key) : string :=
  match k with TagName s => s | TagId n => pretty n end.

(** [for key, value in d.items(): row[prefix + str(key)] = str(value)] *)
Definition add_columns {K V} `{Countable K} (prefix : string)
    (show_key : K → string) (show : V → string) (d : option (gmap K V))
    (row : gmap string string) : gmap string string :=
  match d with
  | None => row
  | Some d =>
      foldl (λ row item, <[prefix +:+ show_key item.1 := show item.2]> row)
            row (map_to_list d)
  end.

(** [for key, value in d.items(): f.write(f"  {key}: {value}\n")] *)
Definition write_items {K V} `{Countable K}
    (show_key : K → string) (show : V → string) (d : gmap K V) : string :=
  foldl (λ out item, out +:+ "  " +:+ show_key item.1 +:+ ": " +:+ show item.2 +:+ "
") EmptyString (map_to_list d).

(** A subsection of the txt report, written when the dictionary is
    present and, for all but the file information, not empty. *)
Definition write_section {K V} `{Countable K} (title : string) (always : bool)
    (show_key : K → string) (show : V → string) (d : option (gmap K V)) : string :=
  match d with
  | Some d =>
      if always || negb (Nat.eqb (size d) 0)
      then title +:+ ":
" +:+ write_items show_key show d +:+ "
"
      else EmptyString
  | None => EmptyString
  end.

Definition rule (c : ascii) : string := string_of_list_ascii (replicate 50 c).

Section exporter.
Context (w : world).

(** One row of [flattened_data]. *)
Definition flatten (file_path : string) (md : metadata) : gmap string string :=
  add_columns "Image_" key_str (py_str w) (image_info md)
  (add_columns "Camera_" key_str id (camera_info md)
  (add_columns "GPS_" key_str (py_str w) (gps_data md)
  (add_columns "EXIF_" key_str id (exif_data md)
  (add_columns "File_" id id (file_info md)
  (<["File Path" := file_path]> ∅))))).

(** The end of a [with open(output_path, 'w') as f] block inside
    [try ... except Exception: return False]: the document is written and
    [True] returned, unless a write raises, which leaves what was written
    so far and returns [False]. *)
Definition write_document (output_path : string) (doc : document)
    (files : gmap string document) : gmap string document * bool :=
  match write_interrupted w output_path doc with
  | None => (<[output_path := doc]> files, true)
  | Some (written, _) => (<[output_path := written]> files, false)
  end.

(** [_export_csv]: the files after the call, and the value returned.
    [data] is [data.items()], in the order of insertion. *)
Definition _export_csv (data : list (string * metadata)) (output_path : string)
    (files : gmap string document) : gmap string document * bool :=
  let flattened_data :=
    omap (λ item, match error item.2 with
                  | None => Some (flatten item.1 item.2)
                  | Some _ => None
                  end) data in
  match flattened_data with
  | [] => (files, false)
  | _ =>
      match open_for_write w output_path with
      | Raise _ => (files, false)
      | Ok _ =>
          let fieldnames :=
            sorted (elements (foldl (λ names row, names ∪ dom row)
                                    (∅ : gset string) flattened_data)) in
          write_document output_path
            (CsvDoc fieldnames
               (map (λ row : gmap string string,
                       map (λ f, default EmptyString (row !! f)) fieldnames)
                    flattened_data)) files
      end
  end.

(** [_export_json]; [_clean_for_json] leaves the path keys in place. *)
Definition _export_json (data : list (string * metadata)) (output_path : string)
    (files : gmap string document) : gmap string document * bool :=
  match open_for_write w output_path with
  | Raise _ => (files, false)
  | Ok _ =>
      match json_dump w data with
      | (text, None) => (<[output_path := TextDoc text]> files, true)
      | (text, Some _) => (<[output_path := TextDoc text]> files, false)
      end
  end.

(** The section of the txt report for one file. *)
Definition report_entry (file_path : string) (md : metadata) : string :=
  "File: " +:+ file_path +:+ "
" +:+ rule "-" +:+ "
" +:+
  match error md with
  | Some msg => "Error: " +:+ msg +:+ "

"
  | None =>
      write_section "File Information" true id id (file_info md)
      +:+ write_section "Camera Information" false key_str id (camera_info md)
      +:+ write_section "Image Information" false key_str (py_str w) (image_info md)
      +:+ write_section "GPS Information" false key_str (py_str w) (gps_data md)
      +:+ write_section "EXIF Data" false key_str id (exif_data md)
      +:+ "
" +:+ rule "=" +:+ "

"
  end.

Definition _export_txt (data : list (string * metadata)) (output_path : string)
    (files : gmap string document) : gmap string document * bool :=
  match open_for_write w output_path with
  | Raise _ => (files, false)
  | Ok _ =>
      write_document output_path
        (TextDoc (foldl (λ out item, out +:+ report_entry item.1 item.2)
                    ("EXIF Viewer Export Report
" +:+ rule "=" +:+ "
Generated: " +:+ now_stamp w +:+ "
Total Files: " +:+ pretty (length data) +:+ "

") data)) files
  end.

(** [export_data]: [ValueError] is raised before the [try]. *)
Definition export_data (data : list (string * metadata)) (output_path : string)
    (format_type : string) (files : gmap string document)
    : result (gmap string document * bool) :=
  let format_type := lower format_type in
  if negb (bool_decide (format_type ∈ supported_formats))
  then Raise (Exn ValueError ("Unsupported format: " +:+ format_type))
  else if String.eqb format_type "json" then Ok (_export_json data output_path files)
  else if String.eqb format_type "csv" then Ok (_export_csv data output_path files)
  else if String.eqb format_type "txt" then Ok (_export_txt data output_path files)
  else Ok (files, false).

(** [_clean_for_json]: dictionaries and lists are cleaned element by
    element, strings, numbers and [None] are kept, anything else (a tuple,
    a rational) becomes its [str]. *)
Fixpoint _clean_for_json (data : pyval) : pyval :=
  match data with
  | VDict items => VDict (map (λ kv, (kv.1, _clean_for_json kv.2)) items)
  | VList l => VList (map _clean_for_json l)
  | VStr _ | VInt _ | VFloat _ | VNone => data
  | VRational _ _ | VTuple _ => VStr (py_str w data)
  end.

(** [get_suggested_filename]; [timestamp] is
    [datetime.now().strftime("%Y%m%d_%H%M%S")]. *)
Definition get_suggested_filename (timestamp : string) (format_type : string)
    (prefix : string) : string :=
  prefix +:+ "_" +:+ timestamp +:+ "." +:+ lower format_type.

End exporter.
End DataExporter.

(** ** [utils/helpers.py] *)

Module Helpers.

(** The characters replaced: less-than, greater-than, colon, double quote,
    slash, backslash, bar, question mark, star. *)
Definition invalid_chars : list ascii :=
  ["<"; ">"; ":"; "034"; "/"; "\"; "|"; "?"; "*"]%char.

(** [s.replace(c, r)] for single characters. *)
Fixpoint replace_char (c r : ascii) (s : string) : string :=
  match s with
  | EmptyString => EmptyString
  | String a s' => String (if Ascii.eqb a c then r else a) (replace_char c r s')
  end.

(** [s.lstrip(chars)] and [s.rstrip(chars)] *)
Fixpoint lstrip (chars : list ascii) (s : string) : string :=
  match s with
  | EmptyString => EmptyString
  | String a s' => if bool_decide (a ∈ chars) then lstrip chars s' else s
  end.

Fixpoint rstrip (chars : list ascii) (s : string) : string :=
  match s with
  | EmptyString => EmptyString
  | String a s' =>
      match rstrip chars s' with
      | EmptyString => if bool_decide (a ∈ chars) then EmptyString
                       else String a EmptyString
      | rest => String a rest
      end
  end.

(** [s.strip(chars)] *)
Definition strip (chars : list ascii) (s : string) : string :=
  lstrip chars (rstrip chars s).

Definition sanitize_filename (filename : string) : string :=
  let filename := foldl (λ name char, replace_char char "_" name) filename invalid_chars in
  let filename := strip [" "; "."]%char filename in
  if String.eqb filename "" then "unnamed_file" else filename.

(** [text[:k]]: a negative [k] counts from the end. *)
Definition slice_to (text : string) (k : Z) : string :=
  let len := Z.of_nat (String.length text) in
  let stop := if k <? 0 then Z.max 0 (len + k) else Z.min k len in
  substring 0 (Z.to_nat stop) text.

Definition truncate_text (text : string) (max_length : Z) : string :=
  if Z.of_nat (String.length text) <=? max_length then text
  else slice_to text (max_length - 3) +:+ "...".

Definition get_file_extension_group (file_path : string) : string :=
  let ext := lower (path_suffix file_path) in
  let image_exts : gset string :=
    {[ ".jpg"; ".jpeg"; ".png"; ".gif"; ".bmp"; ".tiff"; ".tif" ]} in
  let video_exts : gset string :=
    {[ ".mp4"; ".avi"; ".mov"; ".mkv"; ".wmv"; ".flv"; ".webm" ]} in
  let audio_exts : gset string :=
    {[ ".mp3"; ".wav"; ".flac"; ".m4a"; ".aac"; ".ogg" ]} in
  if bool_decide (ext ∈ image_exts) then "Image"
  else if bool_decide (ext ∈ video_exts) then "Video"
  else if bool_decide (ext ∈ audio_exts) then "Audio"
  else "Other".

(** [-90 <= lat <= 90 and -180 <= lon <= 180] *)
Definition validate_coordinates (lat lon : float) : bool :=
  (PrimFloat.leb (-90)%float lat && PrimFloat.leb lat 90%float)
  && (PrimFloat.leb (-180)%float lon && PrimFloat.leb lon 180%float).

Definition get_supported_extensions : list string :=
  [".jpg"; ".jpeg"; ".png"; ".gif"; ".bmp"; ".tiff"; ".tif";
   ".mp4"; ".avi"; ".mov"; ".mkv"; ".wmv"; ".flv"; ".webm";
   ".mp3"; ".wav"; ".flac"; ".m4a"; ".aac"; ".ogg"].

Definition filter_supported_files (file_paths : list string) : list string :=
  let supported_exts : gset string := list_to_set get_supported_extensions in
  List.filter (λ f, bool_decide (lower (path_suffix f) ∈ supported_exts)) file_paths.

End Helpers.

(** ** [gui/metadata_viewer.py]: the filter behind the table *)

Module MetadataViewer.

(** [needle in hay] on strings. *)
Fixpoint contains (needle hay : string) : bool :=
  String.prefix needle hay
  || match hay with
     | EmptyString => false
     | String _ rest => contains needle rest
     end.

(** [key.lower()]: a numeric key has no such method. *)
Definition key_lower (k : tag_key) : result string :=
  match k with
  | TagName s => Ok (lower s)
  | TagId _ => Raise (Exn AttributeError "'int' object has no attribute 'lower'")
  end.

(** [for key, value in category_data.items(): if search_term in
    key.lower() or search_term in str(value).lower(): ...] *)
Fixpoint filter_items {K V} `{Countable K} (lower_key : K → result string)
    (show : V → string) (search_term : string) (items : list (K * V))
    (filtered_category : gmap K V) : result (gmap K V) :=
  match items with
  | [] => Ok filtered_category
  | (key, value) :: rest =>
      k ← lower_key key;
      filter_items lower_key show search_term rest
        (if contains search_term k || contains search_term (lower (show value))
         then <[key := value]> filtered_category else filtered_category)
  end.

(** One round of [for category in categories_to_check]: the entry of
    [filtered_metadata] for the category, if any. *)
Definition check_category {K V} `{Countable K} (checked : bool)
    (lower_key : K → result string) (show : V → string) (search_term : string)
    (d : option (gmap K V)) : result (option (gmap K V)) :=
  match d with
  | Some category_data =>
      if checked && negb (Nat.eqb (size category_data) 0) then
        if negb (String.eqb search_term "") then
          filtered_category ←
            filter_items lower_key show search_term (map_to_list category_data) ∅;
          Ok (if Nat.eqb (size filtered_category) 0 then None
              else Some filtered_category)
        else Ok (Some category_data)
      else Ok None
  | None => Ok None
  end.

(** [categories_to_check], as the test whether it lists [category]. *)
Definition checks (category_filter category : string) : bool :=
  if String.eqb category_filter "All Categories" then true
  else if String.eqb category_filter "File Info" then String.eqb category "file_info"
  else if String.eqb category_filter "Camera Info" then String.eqb category "camera_info"
  else if String.eqb category_filter "Image Info" then String.eqb category "image_info"
  else if String.eqb category_filter "GPS Data" then String.eqb category "gps_data"
  else if String.eqb category_filter "EXIF Data" then String.eqb category "exif_data"
  else false.

Section viewer.
Context (w : world).

(** The body of the loop over [current_data.items()] for a Record
    without ['error']: its filtered Record, if anything is left. *)
Definition filter_record (search_term category_filter : string) (md : metadata)
    : result (option metadata) :=
  fi ← check_category (checks category_filter "file_info") (λ k, Ok (lower k)) id
         search_term (file_info md);
  cam ← check_category (checks category_filter "camera_info") key_lower id
          search_term (camera_info md);
  img ← check_category (checks category_filter "image_info") key_lower (py_str w)
          search_term (image_info md);
  gps ← check_category (checks category_filter "gps_data") key_lower (py_str w)
          search_term (gps_data md);
  exif ← check_category (checks category_filter "exif_data") key_lower id
           search_term (exif_data md);
  match fi, cam, img, gps, exif with
  | None, None, None, None, None => Ok None
  | _, _, _, _, _ =>
      Ok (Some (Metadata (match fi with Some _ => fi | None => file_info md end)
                         exif gps cam img None None None None))
  end.

Fixpoint filter_records (search_term category_filter : string)
    (items : list (string * metadata)) (filtered_data : gmap string metadata)
    : result (gmap string metadata) :=
  match items with
  | [] => Ok filtered_data
  | (file_path, md) :: rest =>
      match error md with
      | Some _ => filter_records search_term category_filter rest filtered_data
      | None =>
          r ← filter_record search_term category_filter md;
          filter_records search_term category_filter rest
            (match r with
             | Some filtered_metadata => <[file_path := filtered_metadata]> filtered_data
             | None => filtered_data
             end)
      end
  end.

(** [filter_metadata]: the new [filtered_data], from the text of the
    search box and of the category box. *)
Definition filter_metadata (search_text category_filter : string)
    (current_data : gmap string metadata) : result (gmap string metadata) :=
  let search_term := lower search_text in
  if String.eqb search_term "" && String.eqb category_filter "All Categories"
  then Ok current_data
  else filter_records search_term category_filter (map_to_list current_data) ∅.

End viewer.
End MetadataViewer.

(** ** A concrete environment

    One directory of photographs, the tag tables restricted to the tags
    the core names, and metadata libraries that answer for two files. *)

Module Demo.

Definition tags (n : Z) : option string :=
  match n with
  | 256 => Some "ImageWidth" | 257 => Some "ImageLength"
  | 271 => Some "Make" | 272 => Some "Model"
  | 274 => Some "Orientation" | 306 => Some "DateTime"
  | 34853 => Some "GPSInfo" | 40961 => Some "ColorSpace"
  | 42035 => Some "LensMake" | 42036 => Some "LensModel"
  | _ => None
  end%string.

Definition gpstags (n : Z) : option string :=
  match n with
  | 0 => Some "GPSVersionID"
  | 1 => Some "GPSLatitudeRef" | 2 => Some "GPSLatitude"
  | 3 => Some "GPSLongitudeRef" | 4 => Some "GPSLongitude"
  | 5 => Some "GPSAltitudeRef" | 6 => Some "GPSAltitude"
  | _ => None
  end%string.

Definition tree : fs_entry :=
  FsDir [("a.jpg", FsFile); ("b.jpg", FsFile); ("notes.txt", FsFile); ("c.JPG", FsFile);
         ("trip", FsDir [("d.png", FsFile); ("readme.md", FsFile)])]%string.

(** Path resolution below a root entry. *)
Fixpoint find_entry (components : list string) (e : fs_entry) : option fs_entry :=
  match components with
  | [] => Some e
  | c :: rest =>
      match e with
      | FsFile => None
      | FsDir children =>
          (fix find (cs : list (string * fs_entry)) : option fs_entry :=
             match cs with
             | [] => None
             | (name, x) :: cs' =>
                 if String.eqb name c then find_entry rest x else find cs'
             end) children
      end
  end.

(** The GPS sub-mapping of a photograph taken in Pittsburgh. *)
Definition pittsburgh_items : list (tag_key * pyval) :=
  [(TagId 1, VStr "N"); (TagId 2, VTuple [VRational 40 1; VRational 26 1; VRational 46 1]);
   (TagId 3, VStr "W"); (TagId 4, VTuple [VRational 79 1; VRational 56 1; VRational 55 1])].

Definition pittsburgh : pyval := VDict pittsburgh_items.

Definition photo : pil_image :=
  {| img_getexif := Ok (Some [(271, VStr "Canon"); (306, VStr "2024:01:01 10:00:00");
                              (256, VInt 100); (34853, pittsburgh)]);
     img_format := Some "JPEG"%string; img_mode := "RGB"; img_size := (100, 100) |}.

Definition env_with (secondary : list (string * pyval)) : world :=
  {| resolve := λ p, match split_on "/" p with
                     | "photos"%string :: rest => find_entry rest tree
                     | _ => None
                     end;
     os_stat := λ p, Ok {| st_size := 2048; st_ctime := 0%float; st_mtime := 0%float |};
     TAGS := tags;
     GPSTAGS := gpstags;
     str_repr := λ _, "<value>"%string;
     float_of_str := λ _, Raise (Exn ValueError "could not convert string to float");
     format_2f := λ _, "0.00"%string;
     Image_open := λ p, if String.eqb p "photos/a.jpg" then Ok photo
                        else Raise (Exn OSError "cannot identify image file");
     exifread_process_file := λ p, Ok secondary;
     ffprobe_run := λ _, Raise (Exn FileNotFoundError "ffprobe");
     json_loads := λ _, Raise (Exn ValueError "Expecting value");
     import_mutagen := Raise (Exn ImportError "No module named 'mutagen'");
     MP3 := λ _, Raise (Exn OSError "cannot open");
     open_for_write := λ _, Ok ();
     json_dump := λ _, ("{}"%string, None);
     write_interrupted := λ _ _, None;
     now_stamp := "2024-01-01 10:00:00" |}.

(** exifread names its tags by directory: ["Image Make"], ["GPS GPSLatitude"]. *)
Definition env : world := env_with [("Image Make"%string, VStr "Canon")].

End Demo.

(** ** Vocabulary of the GPS properties *)

(** [d + m/60 + s/3600] in binary64 arithmetic. *)
Definition sexagesimal (d m s : float) : float := (d + m / 60 + s / 3600)%float.

(** A sequence of exactly three components that [float] converts. *)
Definition numeric_triple (w : world) (v : pyval) (d m s : float) : Prop :=
  ∃ a b c, (v = VTuple [a; b; c] ∨ v = VList [a; b; c])
    ∧ py_float w a = Ok d ∧ py_float w b = Ok m ∧ py_float w c = Ok s.

(** [result] is [x] negated when the reference tag is the string [lit],
    and [x] itself for any other reference value, a missing one included. *)
Definition negated_iff_ref (ref : option pyval) (lit : string) (x result : float) : Prop :=
  (ref = Some (VStr lit) → result = (- x)%float)
  ∧ (ref ≠ Some (VStr lit) → result = x).

(** [-bound <= x <= bound] *)
Definition in_range (bound x : float) : bool :=
  PrimFloat.leb (- bound)%float x && PrimFloat.leb x bound.

(** [abs(x - target) < tolerance] *)
Definition close_to (x target tolerance : float) : bool :=
  PrimFloat.ltb (PrimFloat.abs (x - target)%float) tolerance.

(** The GPS tag table names index 2 and index 4 as Pillow's does. *)
Definition standard_gps_names (w : world) : Prop :=
  GPSTAGS w 2 = Some "GPSLatitude"%string ∧ GPSTAGS w 4 = Some "GPSLongitude"%string.

(** ** Vocabulary of the Record properties *)

(** A sub-dictionary that is absent or empty. *)
Definition blank `{Countable K} {V} (o : option (gmap K V)) : Prop :=
  sub_dict o = ∅.

(** A container field that is absent or falsy. *)
Definition blank_value (o : option pyval) : Prop :=
  ∀ v, o = Some v → py_truthy v = false.

(** No ['error'] key, and the file information filled in. *)
Definition success_shape (md : metadata) : Prop :=
  error md = None ∧ ¬ blank (file_info md).

(** An ['error'] key and nothing else. *)
Definition error_shape (md : metadata) : Prop :=
  is_Some (error md)
  ∧ blank (file_info md) ∧ blank (exif_data md) ∧ blank (gps_data md)
  ∧ blank (camera_info md) ∧ blank (image_info md)
  ∧ blank_value (video_info md) ∧ blank_value (streams md)
  ∧ blank (audio_info md).

(** An ['error'] key beside the fields filled in before the failure. *)
Definition partial_shape (md : metadata) : Prop :=
  is_Some (error md) ∧ ¬ blank (file_info md).



(** A statement of a handler that leaves [file_info] as it was. *)
Definition keeps_file_info (f : metadata → EXIFExtractor.outcome) : Prop :=
  ∀ md, file_info (f md).1 = file_info md.

(** ** Vocabulary of the bulk-processing properties *)

(** A Record whose GPS information has both decimal fields. *)
Definition geotagged (md : metadata) : Prop :=
  ∃ g, gps_data md = Some g
    ∧ is_Some (g !! TagName "DecimalLatitude")
    ∧ is_Some (g !! TagName "DecimalLongitude").

(** [below dir d p e]: the entry [e] lies at path [p] somewhere under the
    directory [d] whose path is [dir]. *)
Inductive below : string → fs_entry → string → fs_entry → Prop :=
  | below_child dir children name e :
      (name, e) ∈ children →
      below dir (FsDir children) (FileProcessor.join dir name) e
  | below_deeper dir children name sub p e :
      (name, sub) ∈ children →
      below (FileProcessor.join dir name) sub p e →
      below dir (FsDir children) p e.

(** The files a scan of [dir] has to report. *)
Definition supported_file_under (w : world) (dir : string) (recursive : bool)
    (p : string) : Prop :=
  EXIFExtractor.is_supported_file p = true
  ∧ ∃ children, resolve w dir = Some (FsDir children)
      ∧ if recursive then below dir (FsDir children) p FsFile
        else ∃ name, (name, FsFile) ∈ children ∧ p = FileProcessor.join dir name.

(** ** Vocabulary of the further bulk and extraction properties *)

(** [future.result()] as the collecting loop stores it. *)
Definition task_record (w : world) (file_path : string) : metadata :=
  match EXIFExtractor.extract_exif_data w file_path with
  | Ok r => r
  | Raise exc => error_record ("Exception occurred: " +:+ exn_str exc)
  end.

(** The messages [extract_exif_data] can leave in the ['error'] field. *)
Inductive known_error : string → Prop :=
  | err_not_found : known_error "File not found"
  | err_unsupported : known_error "Unsupported file format"
  | err_outer e : known_error ("Failed to extract EXIF data: " +:+ exn_str e)
  | err_image e : known_error ("Error reading image EXIF: " +:+ exn_str e)
  | err_video e : known_error ("Error reading video metadata: " +:+ exn_str e)
  | err_audio e : known_error ("Error reading audio metadata: " +:+ exn_str e)
  | err_mutagen :
      known_error "Install mutagen library for full audio metadata support".

(** A statement of a handler that leaves the ['error'] key as it was. *)
Definition keeps_error (f : metadata → EXIFExtractor.outcome) : Prop :=
  ∀ md, error (f md).1 = error md.

(** A statement of a handler that leaves [gps_data] as it was. *)
Definition keeps_gps_data (f : metadata → EXIFExtractor.outcome) : Prop :=
  ∀ md, gps_data (f md).1 = gps_data md.

(** The three container keys of [image_info]. *)
Definition has_container_fields (md : metadata) : Prop :=
  ∃ format mode size,
    sub_dict (image_info md) !! TagName "Format" = Some format
    ∧ sub_dict (image_info md) !! TagName "Mode" = Some (VStr mode)
    ∧ sub_dict (image_info md) !! TagName "Size" = Some (VStr size).

(** ** Vocabulary of the failure properties *)

(** [extract_exif_data] returns a Record whose ['error'] field is [msg]
    ([None]: no such key). *)
Definition captured_as (w : world) (p : string) (msg : option string) : Prop :=
  ∃ md, EXIFExtractor.extract_exif_data w p = Ok md ∧ error md = msg.

(** The tag dictionary the loop of [_extract_image_exif] runs over:
    nothing when [_getexif()] returned [None]. *)
Definition exif_items (exif_dict : option (list (Z * pyval))) : list (Z * pyval) :=
  default [] exif_dict.

(** The GPS parser returns for every [GPSInfo] entry among the items. *)
Definition gps_entries_parse (w : world) (items : list (Z * pyval)) : Prop :=
  ∀ tag_id value, (tag_id, value) ∈ items →
    tag_name (TAGS w) tag_id = TagName "GPSInfo" →
    returns (EXIFExtractor._parse_gps_data w value).

(** The exception that ends the [try] block of [_extract_image_exif]:
    the first to raise among [Image.open], [_getexif()], the GPS parser on
    a [GPSInfo] entry, and the secondary source. *)
Inductive image_read_error (w : world) (p : string) : exn → Prop :=
  | open_raises e :
      Image_open w p = Raise e → image_read_error w p e
  | getexif_raises img e :
      Image_open w p = Ok img → img_getexif img = Raise e →
      image_read_error w p e
  | gps_parser_raises img exif_dict before tag_id value after e :
      Image_open w p = Ok img → img_getexif img = Ok exif_dict →
      exif_items exif_dict = before ++ (tag_id, value) :: after →
      gps_entries_parse w before →
      tag_name (TAGS w) tag_id = TagName "GPSInfo" →
      EXIFExtractor._parse_gps_data w value = Raise e →
      image_read_error w p e
  | secondary_raises img exif_dict e :
      Image_open w p = Ok img → img_getexif img = Ok exif_dict →
      gps_entries_parse w (exif_items exif_dict) →
      exifread_process_file w p = Raise e →
      image_read_error w p e.

(** The exceptions that [_extract_video_exif] passes over. *)
Definition passed_over (e : exn) : Prop :=
  exn_kind e = FileNotFoundError ∨ exn_kind e = TimeoutExpired.

(** The exception that ends the inner [try] block of
    [_extract_video_exif]: raised by the probe, by the JSON decoder, or by
    [.get] on a decoded value that is no object. *)
Inductive video_read_error (w : world) (p : string) : exn → Prop :=
  | probe_raises e :
      ffprobe_run w p = Raise e → video_read_error w p e
  | json_raises proc e :
      ffprobe_run w p = Ok proc → returncode proc = 0 →
      json_loads w (stdout proc) = Raise e →
      video_read_error w p e
  | json_not_object proc v :
      ffprobe_run w p = Ok proc → returncode proc = 0 →
      json_loads w (stdout proc) = Ok v → (∀ items, v ≠ VDict items) →
      video_read_error w p (Exn AttributeError "object has no attribute 'get'").

(** [str(value[0]) if isinstance(value, list) else str(value)] raises [e]:
    the frame is an empty list. *)
Definition frame_raises (value : pyval) (e : exn) : Prop :=
  ∃ l, value = VList l ∧ py_index value 0 = Raise e.

(** The exception that ends the inner [try] block of
    [_extract_audio_exif] on an [.mp3] file: raised by the import, by
    [MP3], or by the first tag frame that is an empty list. *)
Inductive audio_read_error (w : world) (p : string) : exn → Prop :=
  | import_raises e :
      import_mutagen w = Raise e → audio_read_error w p e
  | mp3_raises e :
      import_mutagen w = Ok tt → MP3 w p = Raise e → audio_read_error w p e
  | frame_copy_raises audio before key value after e :
      import_mutagen w = Ok tt → MP3 w p = Ok audio →
      default [] (mp3_tags audio) = before ++ (key, value) :: after →
      (∀ k v e', (k, v) ∈ before → ¬ frame_raises v e') →
      frame_raises value e →
      audio_read_error w p e.

(** The first call at which the progress callback raises, among the [n]
    calls of a run over [n] supported files. *)
Definition first_raise (callback : nat → nat → result unit) (n i : nat) (e : exn) : Prop :=
  (1 ≤ i ≤ n)%nat ∧ callback i n = Raise e
  ∧ ∀ j, (1 ≤ j < i)%nat → returns (callback j n).

(** ** Vocabulary of the secondary metadata source *)


(** ** Vocabulary of the export properties *)

(** The Records an export to csv writes: those without an ['error'] key,
    in the order of [data.items()]. *)
Definition csv_records (data : list (string * metadata)) : list (string * metadata) :=
  List.filter (λ item, bool_decide (error item.2 = None)) data.

(** A value [json.dump] writes without a [default] hook: [None], strings,
    numbers, and lists and dictionaries of such values. *)
#[warning="-register-all"]
Inductive jsonable : pyval → Prop :=
  | jsonable_none : jsonable VNone
  | jsonable_str s : jsonable (VStr s)
  | jsonable_int z : jsonable (VInt z)
  | jsonable_float f : jsonable (VFloat f)
  | jsonable_list l : Forall jsonable l → jsonable (VList l)
  | jsonable_dict items : Forall (λ kv, jsonable kv.2) items → jsonable (VDict items).

(** A world whose output location cannot be opened for writing. *)
Definition read_only_env : world :=
  {| resolve := resolve Demo.env;
     os_stat := os_stat Demo.env;
     TAGS := TAGS Demo.env;
     GPSTAGS := GPSTAGS Demo.env;
     str_repr := str_repr Demo.env;
     float_of_str := float_of_str Demo.env;
     format_2f := format_2f Demo.env;
     Image_open := Image_open Demo.env;
     exifread_process_file := exifread_process_file Demo.env;
     ffprobe_run := ffprobe_run Demo.env;
     json_loads := json_loads Demo.env;
     import_mutagen := import_mutagen Demo.env;
     MP3 := MP3 Demo.env;
     open_for_write := λ _, Raise (Exn OSError "Permission denied");
     json_dump := json_dump Demo.env;
     write_interrupted := write_interrupted Demo.env;
     now_stamp := now_stamp Demo.env |}.

(** ** Vocabulary of the helper properties *)

(** [map] over the characters of a string. *)
Fixpoint smap (f : ascii → ascii) (s : string) : string :=
  match s with
  | EmptyString => EmptyString
  | String a s' => String (f a) (smap f s')
  end.

Definition first_char (s : string) : option ascii :=
  match s with
  | EmptyString => None
  | String a _ => Some a
  end.

Fixpoint last_char (s : string) : option ascii :=
  match s with
  | EmptyString => None
  | String a EmptyString => Some a
  | String _ s' => last_char s'
  end.

(** A name that [sanitize_filename] has nothing to do on. *)
Definition safe_filename (s : string) : Prop :=
  s ≠ EmptyString
  ∧ (∀ c, c ∈ Helpers.invalid_chars → c ∉ list_ascii_of_string s)
  ∧ (∀ c, first_char s = Some c → c ≠ " "%char ∧ c ≠ "."%char)
  ∧ (∀ c, last_char s = Some c → c ≠ " "%char ∧ c ≠ "."%char).

(** The extensions that [get_supported_extensions] lists and the
    extractor's format sets do not have. *)
Definition helper_only_extensions : list string := [".flv"; ".webm"; ".aac"; ".ogg"].

(** ** Vocabulary of the viewer's filter *)

(** Every entry of the first mapping is an entry of the second. *)
Definition within {K V} `{Countable K} (a b : option (gmap K V)) : Prop :=
  sub_dict a ⊆ sub_dict b.

(** A category of the Record that the filter looks at and that has a
    numeric key. *)
Definition numeric_key_checked (category_filter : string) (md : metadata) : Prop :=
  ∃ n,
    (MetadataViewer.checks category_filter "camera_info" = true
     ∧ TagId n ∈ dom (sub_dict (camera_info md)))
    ∨ (MetadataViewer.checks category_filter "image_info" = true
       ∧ TagId n ∈ dom (sub_dict (image_info md)))
    ∨ (MetadataViewer.checks category_filter "gps_data" = true
       ∧ TagId n ∈ dom (sub_dict (gps_data md)))
    ∨ (MetadataViewer.checks category_filter "exif_data" = true
       ∧ TagId n ∈ dom (sub_dict (exif_data md))).

(** A Record with one EXIF entry and nothing else. *)
Definition iso_record : metadata :=
  Metadata None (Some {[TagName "ISO" := "100"%string]}) None None None None None None None.


(** * Properties *)

Import EXIFExtractor FileProcessor DataExporter.

Set Warnings "-inexact-float,-clear-no-such-hyp".

(** ** Order of binary64 values under negation *)

Lemma SFopp_involutive x : SFopp (SFopp x) = x.
Proof. destruct x as [s|s| |s m e]; simpl; try done; by rewrite negb_involutive. Qed.

Lemma SFleb_opp x y : SFleb x y = true → SFleb (SFopp y) (SFopp x) = true.
Proof.
  unfold SFleb.
  destruct x as [sx|sx| |sx mx ex], y as [sy|sy| |sy my ey]; simpl; try done;
    try (destruct sx; simpl; try done); try (destruct sy; simpl; done).
  all: assert (Hc : PosDef.Pos.compare_cont Eq my mx
                    = CompOpp (PosDef.Pos.compare_cont Eq mx my))
         by (symmetry; apply (Pos.compare_cont_antisym mx my Eq)).
  all: rewrite (Z.compare_antisym ex ey), Hc.
  all: destruct sy, (ex ?= ey), (PosDef.Pos.compare_cont Eq mx my); simpl; done.
Qed.

Lemma leb_opp (x y : float) :
  PrimFloat.leb x y = true → PrimFloat.leb (- y) (- x) = true.
Proof. rewrite !leb_spec, !opp_spec. apply SFleb_opp. Qed.

Lemma leb_opp_l (x y : float) :
  PrimFloat.leb (- x) y = true → PrimFloat.leb (- y) x = true.
Proof.
  intros H%leb_opp. revert H. rewrite !leb_spec, !opp_spec. by rewrite SFopp_involutive.
Qed.

Lemma in_range_opp bound x : in_range bound x = true → in_range bound (- x) = true.
Proof.
  unfold in_range. rewrite !andb_true_iff. intros [Hlo Hhi]. split.
  - by apply leb_opp.
  - rewrite leb_spec, opp_spec. apply leb_opp_l in Hlo.
    revert Hlo. by rewrite leb_spec, opp_spec.
Qed.

(** ** The GPS decoder *)

Lemma py_eq_str_true ref lit : py_eq_str ref lit = true ↔ ref = Some (VStr lit).
Proof.
  unfold py_eq_str. destruct ref as [[]|]; try (split; [done|congruence]).
  rewrite String.eqb_eq. split; [by intros ->|congruence].
Qed.

Lemma negated_iff_ref_intro ref lit x :
  negated_iff_ref ref lit x (if py_eq_str ref lit then (- x)%float else x).
Proof.
  split.
  - intros H. by apply py_eq_str_true in H as ->.
  - intros H. destruct (py_eq_str ref lit) eqn:E; [|done].
    by apply py_eq_str_true in E.
Qed.

Section gps.
Context (w : world).

Lemma decode_gps_items_mono items acc k :
  k ∈ dom acc → k ∈ dom (decode_gps_items w items acc).
Proof.
  revert acc. induction items as [|[key value] rest IH]; intros acc Hk; simpl; [done|].
  apply IH. rewrite dom_insert_L. set_solver.
Qed.

Lemma decode_gps_items_dom items acc k v :
  dict_get k items = Some v →
  decode_key (GPSTAGS w) k ∈ dom (decode_gps_items w items acc).
Proof.
  revert acc. induction items as [|[key value] rest IH]; intros acc Hget; simpl in *; [done|].
  destruct (decide (key = k)) as [->|Hne].
  - apply decode_gps_items_mono. rewrite dom_insert_L. set_solver.
  - by apply IH.
Qed.

Lemma decode_gps_items_strings items acc k f :
  decode_gps_items w items acc !! k = Some (VFloat f) → acc !! k = Some (VFloat f).
Proof.
  revert acc. induction items as [|[key value] rest IH]; intros acc H; simpl in *; [done|].
  apply IH in H. rewrite lookup_insert in H. by case_decide.
Qed.

Lemma convert_numeric_triple v d m s :
  numeric_triple w v d m s → _convert_to_degrees w v = Ok (sexagesimal d m s).
Proof.
  intros (a & b & c & [-> | ->] & Ha & Hb & Hc);
    unfold _convert_to_degrees; simpl; by rewrite Ha, Hb, Hc.
Qed.

Lemma convert_wrong_length v n :
  py_len v = Ok n → n ≠ 3%nat → _convert_to_degrees w v = Ok 0%float.
Proof.
  intros Hlen Hn. unfold _convert_to_degrees. rewrite Hlen. simpl.
  by apply Nat.eqb_neq in Hn as ->.
Qed.

(** When both names are decoded and both triples convert, the two decimal
    fields are written. *)
Lemma parse_gps_writes_decimals items lat_triple lon_triple x y :
  standard_gps_names w →
  dict_get (TagId 2) items = Some lat_triple →
  dict_get (TagId 4) items = Some lon_triple →
  _convert_to_degrees w lat_triple = Ok x →
  _convert_to_degrees w lon_triple = Ok y →
  ∃ g lat lon,
    _parse_gps_data w (VDict items) = Ok g
    ∧ g !! TagName "DecimalLatitude" = Some (VFloat lat)
    ∧ negated_iff_ref (dict_get (TagId 1) items) "S" x lat
    ∧ g !! TagName "DecimalLongitude" = Some (VFloat lon)
    ∧ negated_iff_ref (dict_get (TagId 3) items) "W" y lon.
Proof.
  intros [H2 H4] Hlat Hlon Hx Hy.
  assert (Hne : py_truthy (VDict items) = true) by (by destruct items).
  unfold _parse_gps_data. rewrite Hne. simpl.
  unfold decimal_coordinates.
  pose proof (decode_gps_items_dom items ∅ _ _ Hlat) as D2.
  pose proof (decode_gps_items_dom items ∅ _ _ Hlon) as D4.
  simpl in D2, D4. unfold tag_name in D2, D4. rewrite H2 in D2. rewrite H4 in D4.
  rewrite (bool_decide_eq_true_2 _ D2), (bool_decide_eq_true_2 _ D4). simpl.
  rewrite Hlat, Hlon. simpl. rewrite Hx, Hy. simpl.
  eexists _, _, _. split; [done|].
  split; [by rewrite lookup_insert_ne, lookup_insert_eq|].
  split; [apply negated_iff_ref_intro|].
  split; [by rewrite lookup_insert_eq|apply negated_iff_ref_intro].
Qed.

(** A numeric decimal field can only come from the numeric step. *)
Lemma parse_gps_decimals_inv gps_info g lat lon :
  _parse_gps_data w gps_info = Ok g →
  g !! TagName "DecimalLatitude" = Some (VFloat lat) →
  g !! TagName "DecimalLongitude" = Some (VFloat lon) →
  ∃ items x y,
    gps_info = VDict items
    ∧ _convert_to_degrees w (default (VList []) (dict_get (TagId 2) items)) = Ok x
    ∧ _convert_to_degrees w (default (VList []) (dict_get (TagId 4) items)) = Ok y
    ∧ negated_iff_ref (dict_get (TagId 1) items) "S" x lat
    ∧ negated_iff_ref (dict_get (TagId 3) items) "W" y lon.
Proof.
  unfold _parse_gps_data. intros Hp Hlat Hlon.
  destruct (py_truthy gps_info); simpl in Hp;
    [|injection Hp as <-; by rewrite lookup_empty in Hlat].
  destruct gps_info as [| | | | | | |items]; try done.
  assert (Hstr : ∀ f, decode_gps_items w items ∅ !! TagName "DecimalLatitude"
                      ≠ Some (VFloat f)).
  { intros f Hf%decode_gps_items_strings. by rewrite lookup_empty in Hf. }
  unfold decimal_coordinates in Hp.
  destruct (bool_decide _ && bool_decide _);
    [|injection Hp as <-; by apply Hstr in Hlat].
  destruct (_convert_to_degrees w (default _ (dict_get (TagId 2) items))) as [x|] eqn:Hx;
    simpl in Hp; [|injection Hp as <-; by apply Hstr in Hlat].
  destruct (_convert_to_degrees w (default _ (dict_get (TagId 4) items))) as [y|] eqn:Hy;
    simpl in Hp; [|injection Hp as <-; by apply Hstr in Hlat].
  injection Hp as <-.
  rewrite lookup_insert_ne, lookup_insert_eq in Hlat by done.
  rewrite lookup_insert_eq in Hlon.
  injection Hlat as <-. injection Hlon as <-.
  exists items, x, y. repeat split; try done; apply negated_iff_ref_intro.
Qed.

Lemma parse_gps_dict_returns items : returns (_parse_gps_data w (VDict items)).
Proof.
  unfold _parse_gps_data, returns.
  destruct (py_truthy (VDict items)); simpl; [|by eexists].
  destruct (decimal_coordinates w items _); by eexists.
Qed.

End gps.


(** C2: when the GPS sub-mapping has a latitude triple at index 2 and a
    longitude triple at index 4, each of exactly three numeric components,
    [_parse_gps_data] adds the numbers [DecimalLatitude] and
    [DecimalLongitude], each [d + m/60 + s/3600], negated exactly when the
    reference at index 1 is the string ["S"] (index 3: ["W"]) and left as
    it is for any other reference.  For (40,26,46)/N and (79,56,55)/W the
    result is within 1e-4 of (40.446111, -79.948611). *)
Theorem parse_gps_decimal_degrees :
  (∀ (w : world) items lat_triple lon_triple d m s d' m' s',
     standard_gps_names w →
     dict_get (TagId 2) items = Some lat_triple →
     dict_get (TagId 4) items = Some lon_triple →
     numeric_triple w lat_triple d m s →
     numeric_triple w lon_triple d' m' s' →
     ∃ g lat lon,
       _parse_gps_data w (VDict items) = Ok g
       ∧ g !! TagName "DecimalLatitude" = Some (VFloat lat)
       ∧ negated_iff_ref (dict_get (TagId 1) items) "S" (sexagesimal d m s) lat
       ∧ g !! TagName "DecimalLongitude" = Some (VFloat lon)
       ∧ negated_iff_ref (dict_get (TagId 3) items) "W" (sexagesimal d' m' s') lon)
  ∧ (∀ w : world, standard_gps_names w →
     ∃ g lat lon,
       _parse_gps_data w
         (VDict [(TagId 1, VStr "N"); (TagId 2, VTuple [VInt 40; VInt 26; VInt 46]);
                 (TagId 3, VStr "W"); (TagId 4, VTuple [VInt 79; VInt 56; VInt 55])]) = Ok g
       ∧ g !! TagName "DecimalLatitude" = Some (VFloat lat)
       ∧ g !! TagName "DecimalLongitude" = Some (VFloat lon)
       ∧ close_to lat 40.446111 0.0001 = true
       ∧ close_to lon (-79.948611) 0.0001 = true).
Proof.
  assert (General : ∀ (w : world) items lat_triple lon_triple d m s d' m' s',
     standard_gps_names w →
     dict_get (TagId 2) items = Some lat_triple →
     dict_get (TagId 4) items = Some lon_triple →
     numeric_triple w lat_triple d m s →
     numeric_triple w lon_triple d' m' s' →
     ∃ g lat lon,
       _parse_gps_data w (VDict items) = Ok g
       ∧ g !! TagName "DecimalLatitude" = Some (VFloat lat)
       ∧ negated_iff_ref (dict_get (TagId 1) items) "S" (sexagesimal d m s) lat
       ∧ g !! TagName "DecimalLongitude" = Some (VFloat lon)
       ∧ negated_iff_ref (dict_get (TagId 3) items) "W" (sexagesimal d' m' s') lon).
  { intros w items lat_triple lon_triple d m s d' m' s' Hw Hlat Hlon Tlat Tlon.
    eapply parse_gps_writes_decimals; eauto using convert_numeric_triple. }
  split; [exact General|].
  intros w Hw.
  destruct (General w
      [(TagId 1, VStr "N"); (TagId 2, VTuple [VInt 40; VInt 26; VInt 46]);
       (TagId 3, VStr "W"); (TagId 4, VTuple [VInt 79; VInt 56; VInt 55])]
      (VTuple [VInt 40; VInt 26; VInt 46]) (VTuple [VInt 79; VInt 56; VInt 55])
      (float_of_Z 40) (float_of_Z 26) (float_of_Z 46)
      (float_of_Z 79) (float_of_Z 56) (float_of_Z 55))
    as (g & lat & lon & Hp & Hlat & [_ Nlat] & Hlon & [Nlon _]);
    [exact Hw|reflexivity|reflexivity| | |].
  - exists (VInt 40), (VInt 26), (VInt 46). repeat split; [by left|..]; reflexivity.
  - exists (VInt 79), (VInt 56), (VInt 55). repeat split; [by left|..]; reflexivity.
  - exists g, lat, lon. repeat split; try done.
    + rewrite Nlat by done. by vm_compute.
    + rewrite Nlon by done. by vm_compute.
Qed.

Lemma parse_gps_decimal_degrees_witness :
  ∃ g lat lon,
    _parse_gps_data Demo.env (VDict Demo.pittsburgh_items) = Ok g
    ∧ g !! TagName "DecimalLatitude" = Some (VFloat lat)
    ∧ negated_iff_ref (dict_get (TagId 1) Demo.pittsburgh_items) "S"
        (sexagesimal 40 26 46) lat
    ∧ g !! TagName "DecimalLongitude" = Some (VFloat lon)
    ∧ negated_iff_ref (dict_get (TagId 3) Demo.pittsburgh_items) "W"
        (sexagesimal 79 56 55) lon.
Proof.
  apply (proj1 parse_gps_decimal_degrees Demo.env Demo.pittsburgh_items
           (VTuple [VRational 40 1; VRational 26 1; VRational 46 1])
           (VTuple [VRational 79 1; VRational 56 1; VRational 55 1])
           40%float 26%float 46%float 79%float 56%float 55%float).
  - split; reflexivity.
  - reflexivity.
  - reflexivity.
  - exists (VRational 40 1), (VRational 26 1), (VRational 46 1).
    repeat split; [by left|..]; reflexivity.
  - exists (VRational 79 1), (VRational 56 1), (VRational 55 1).
    repeat split; [by left|..]; reflexivity.
Defined.

(** A latitude triple of 100 degrees and a longitude triple of 200 degrees
    are decoded as they stand: both decimal fields leave their ranges. *)
Lemma latitude_out_of_range :
  ∃ g lat lon,
    _parse_gps_data Demo.env
      (VDict [(TagId 1, VStr "N"); (TagId 2, VTuple [VInt 100; VInt 0; VInt 0]);
              (TagId 3, VStr "E"); (TagId 4, VTuple [VInt 200; VInt 0; VInt 0])]) = Ok g
    ∧ g !! TagName "DecimalLatitude" = Some (VFloat lat)
    ∧ g !! TagName "DecimalLongitude" = Some (VFloat lon)
    ∧ in_range 90 lat = false
    ∧ in_range 180 lon = false.
Proof.
  eexists _, 100%float, 200%float. split; [reflexivity|].
  repeat split; by vm_compute.
Qed.

(** C5, as the code has it: numeric [DecimalLatitude] and
    [DecimalLongitude] fields are the converted triples, negated by the
    reference tags, with no range check; each lies in [-90, 90]
    (respectively [-180, 180]) whenever the magnitude converted from its
    triple does. *)
Theorem decimal_in_range_when_magnitude_is :
  ∀ (w : world) gps_info g lat lon,
    _parse_gps_data w gps_info = Ok g →
    g !! TagName "DecimalLatitude" = Some (VFloat lat) →
    g !! TagName "DecimalLongitude" = Some (VFloat lon) →
    ∃ items x y,
      gps_info = VDict items
      ∧ _convert_to_degrees w (default (VList []) (dict_get (TagId 2) items)) = Ok x
      ∧ _convert_to_degrees w (default (VList []) (dict_get (TagId 4) items)) = Ok y
      ∧ negated_iff_ref (dict_get (TagId 1) items) "S" x lat
      ∧ negated_iff_ref (dict_get (TagId 3) items) "W" y lon
      ∧ (in_range 90 x = true → in_range 90 lat = true)
      ∧ (in_range 180 y = true → in_range 180 lon = true).
Proof.
  intros w gps_info g lat lon Hp Hlat Hlon.
  destruct (parse_gps_decimals_inv w _ _ _ _ Hp Hlat Hlon)
    as (items & x & y & -> & Hx & Hy & Nlat & Nlon).
  exists items, x, y. repeat split; try done; try apply Nlat; try apply Nlon.
  - destruct Nlat as [Neg Pos].
    destruct (py_eq_str (dict_get (TagId 1) items) "S") eqn:E.
    + apply py_eq_str_true in E. rewrite (Neg E). apply in_range_opp.
    + rewrite Pos; [done|]. intros E'%py_eq_str_true. congruence.
  - destruct Nlon as [Neg Pos].
    destruct (py_eq_str (dict_get (TagId 3) items) "W") eqn:E.
    + apply py_eq_str_true in E. rewrite (Neg E). apply in_range_opp.
    + rewrite Pos; [done|]. intros E'%py_eq_str_true. congruence.
Qed.

Lemma decimal_in_range_when_magnitude_is_witness :
  ∃ items x y,
    Demo.pittsburgh = VDict items
    ∧ _convert_to_degrees Demo.env (default (VList []) (dict_get (TagId 2) items)) = Ok x
    ∧ _convert_to_degrees Demo.env (default (VList []) (dict_get (TagId 4) items)) = Ok y
    ∧ negated_iff_ref (dict_get (TagId 1) items) "S" x 40.446111111111108
    ∧ negated_iff_ref (dict_get (TagId 3) items) "W" y (-79.94861111111112)
    ∧ (in_range 90 x = true → in_range 90 40.446111111111108 = true)
    ∧ (in_range 180 y = true → in_range 180 (-79.94861111111112) = true).
Proof.
  apply (decimal_in_range_when_magnitude_is Demo.env Demo.pittsburgh
           (<[TagName "DecimalLongitude" := VFloat (-79.94861111111112)]>
              (<[TagName "DecimalLatitude" := VFloat 40.446111111111108]>
                 (decode_gps_items Demo.env Demo.pittsburgh_items ∅)))).
  - reflexivity.
  - reflexivity.
  - reflexivity.
Defined.

(** C6: [_convert_to_degrees] returns 0.0, without raising, for every
    value whose length is not 3; [_parse_gps_data] returns for every
    mapping, and with a malformed latitude triple it still writes both
    decimal fields, the latitude from 0.0. *)
Theorem malformed_triple_yields_zero :
  (∀ (w : world) v n,
     py_len v = Ok n → n ≠ 3%nat → _convert_to_degrees w v = Ok 0%float)
  ∧ (∀ (w : world) items, returns (_parse_gps_data w (VDict items)))
  ∧ (∀ (w : world) items lat_triple n lon_triple y,
       standard_gps_names w →
       dict_get (TagId 2) items = Some lat_triple →
       py_len lat_triple = Ok n → n ≠ 3%nat →
       dict_get (TagId 4) items = Some lon_triple →
       _convert_to_degrees w lon_triple = Ok y →
       ∃ g lat lon,
         _parse_gps_data w (VDict items) = Ok g
         ∧ g !! TagName "DecimalLatitude" = Some (VFloat lat)
         ∧ negated_iff_ref (dict_get (TagId 1) items) "S" 0 lat
         ∧ g !! TagName "DecimalLongitude" = Some (VFloat lon)
         ∧ negated_iff_ref (dict_get (TagId 3) items) "W" y lon).
Proof.
  split; [exact convert_wrong_length|].
  split; [exact parse_gps_dict_returns|].
  intros w items lat_triple n lon_triple y Hw Hlat Hlen Hn Hlon Hy.
  eapply parse_gps_writes_decimals; eauto using convert_wrong_length.
Qed.

Lemma malformed_triple_yields_zero_witness :
  _convert_to_degrees Demo.env (VTuple [VInt 40; VInt 26]) = Ok 0%float
  ∧ ∃ g lat lon,
      _parse_gps_data Demo.env
        (VDict [(TagId 2, VTuple [VInt 40; VInt 26]);
                (TagId 4, VTuple [VInt 79; VInt 56; VInt 55])]) = Ok g
      ∧ g !! TagName "DecimalLatitude" = Some (VFloat lat)
      ∧ negated_iff_ref None "S" 0 lat
      ∧ g !! TagName "DecimalLongitude" = Some (VFloat lon)
      ∧ negated_iff_ref None "W" (sexagesimal 79 56 55) lon.
Proof.
  split.
  - apply (proj1 malformed_triple_yields_zero Demo.env _ 2%nat); [reflexivity|lia].
  - apply (proj2 (proj2 malformed_triple_yields_zero) Demo.env
             [(TagId 2, VTuple [VInt 40; VInt 26]);
              (TagId 4, VTuple [VInt 79; VInt 56; VInt 55])]
             (VTuple [VInt 40; VInt 26]) 2%nat
             (VTuple [VInt 79; VInt 56; VInt 55]) (sexagesimal 79 56 55)).
    + split; reflexivity.
    + reflexivity.
    + reflexivity.
    + lia.
    + reflexivity.
    + reflexivity.
Defined.

(** ** The shape of a Record *)

Lemma error_record_shape msg : error_shape (error_record msg).
Proof. repeat split; try done. Qed.

Section shapes.
Context (w : world).

Lemma classify_tag_file_info tag_id value : keeps_file_info (classify_tag w tag_id value).
Proof.
  intros md. unfold classify_tag.
  repeat case_bool_decide; try done.
  by destruct (_parse_gps_data w value).
Qed.

Lemma classify_tags_file_info items : keeps_file_info (classify_tags w items).
Proof.
  induction items as [|[tag_id value] rest IH]; intros md; simpl; [done|].
  pose proof (classify_tag_file_info tag_id value md) as H.
  destruct (classify_tag w tag_id value md) as [md' [e|]]; simpl in *; [done|].
  by rewrite IH.
Qed.

Lemma read_primary_file_info p : keeps_file_info (read_primary w p).
Proof.
  intros md. unfold read_primary.
  destruct (Image_open w p) as [img|]; [|done].
  destruct (img_getexif img) as [[[|item items]|]|]; try done.
  pose proof (classify_tags_file_info (item :: items) md) as H.
  destruct (classify_tags w (item :: items) md) as [md' [e|]]; by simpl in *.
Qed.

Lemma read_secondary_file_info p : keeps_file_info (read_secondary w p).
Proof. intros md. unfold read_secondary. by destruct (exifread_process_file w p). Qed.

Lemma probe_video_file_info p : keeps_file_info (probe_video w p).
Proof.
  intros md. unfold probe_video.
  destruct (ffprobe_run w p) as [proc|]; [|done].
  destruct (returncode proc =? 0); [|done].
  by destruct (json_loads w (stdout proc)) as [[]|].
Qed.

Lemma pass_probe_absent_fst o : (pass_probe_absent o).1 = o.1.
Proof. by destruct o as [md [[[] msg]|]]. Qed.

Lemma copy_audio_tags_file_info tags : keeps_file_info (copy_audio_tags w tags).
Proof.
  induction tags as [|[key value] rest IH]; intros md; simpl; [done|].
  destruct value; try (by rewrite IH).
  destruct (py_index _ _); simpl; [by rewrite IH|done].
Qed.

Lemma read_mp3_file_info p : keeps_file_info (read_mp3 w p).
Proof.
  intros md. unfold read_mp3.
  destruct (import_mutagen w); [|done].
  destruct (MP3 w p) as [audio|]; [|done].
  destruct (mp3_tags audio) as [[|t ts]|]; try done.
  by rewrite copy_audio_tags_file_info.
Qed.

Lemma on_import_error_file_info o : file_info (on_import_error o).1 = file_info o.1.
Proof. by destruct o as [md [[[] msg]|]]. Qed.

Lemma record_failure_file_info prefix o :
  file_info (record_failure prefix o) = file_info o.1.
Proof. by destruct o as [md [e|]]. Qed.

Lemma get_file_info_populated p fi : _get_file_info w p = Ok fi → fi ≠ ∅.
Proof.
  unfold _get_file_info. destruct (os_stat w p); simpl; [|done].
  intros [= <-]. apply insert_non_empty.
Qed.

(** A category handler either raises (only [os.stat] can make it) or
    returns a Record that still has the file information. *)
Lemma image_handler_keeps_file_info p md :
  _extract_image_exif w p = Ok md → ¬ blank (file_info md).
Proof.
  unfold _extract_image_exif. destruct (_get_file_info w p) as [fi|] eqn:Hfi; simpl; [|done].
  intros [= <-]. rewrite record_failure_file_info.
  match goal with |- context [read_primary w p ?m] =>
    pose proof (read_primary_file_info p m) as H1;
    destruct (read_primary w p m) as [md' [e|]] end; simpl in *.
  - rewrite H1. unfold blank. simpl. by eapply get_file_info_populated.
  - rewrite read_secondary_file_info, H1. unfold blank. simpl.
    by eapply get_file_info_populated.
Qed.

Lemma video_handler_keeps_file_info p md :
  _extract_video_exif w p = Ok md → ¬ blank (file_info md).
Proof.
  unfold _extract_video_exif. destruct (_get_file_info w p) as [fi|] eqn:Hfi; simpl; [|done].
  intros [= <-]. rewrite record_failure_file_info, pass_probe_absent_fst, probe_video_file_info.
  unfold blank. simpl. by eapply get_file_info_populated.
Qed.

Lemma audio_handler_keeps_file_info p md :
  _extract_audio_exif w p = Ok md → ¬ blank (file_info md).
Proof.
  unfold _extract_audio_exif. destruct (_get_file_info w p) as [fi|] eqn:Hfi; simpl; [|done].
  intros [= <-]. rewrite record_failure_file_info.
  destruct (String.eqb _ _); simpl.
  - rewrite on_import_error_file_info, read_mp3_file_info.
    unfold blank. simpl. by eapply get_file_info_populated.
  - unfold blank. simpl. by eapply get_file_info_populated.
Qed.

Lemma populated_shape md :
  ¬ blank (file_info md) → success_shape md ∨ partial_shape md.
Proof.
  intros H. unfold success_shape, partial_shape.
  destruct (error md); [right|left]; by eauto.
Qed.

(** The result of [extract_exif_data], by cases. *)
Lemma extract_cases p :
  ∃ md, extract_exif_data w p = Ok md
    ∧ ((∃ msg, md = error_record msg) ∨ ¬ blank (file_info md)).
Proof.
  unfold extract_exif_data.
  destruct (os_path_exists w p); simpl; [|eexists; split; [done|left; by eexists]].
  repeat case_bool_decide.
  - destruct (_extract_image_exif w p) as [md|e] eqn:E; simpl.
    + exists md. split; [done|right]. by eapply image_handler_keeps_file_info.
    + eexists; split; [done|left; by eexists].
  - destruct (_extract_video_exif w p) as [md|e] eqn:E; simpl.
    + exists md. split; [done|right]. by eapply video_handler_keeps_file_info.
    + eexists; split; [done|left; by eexists].
  - destruct (_extract_audio_exif w p) as [md|e] eqn:E; simpl.
    + exists md. split; [done|right]. by eapply audio_handler_keeps_file_info.
    + eexists; split; [done|left; by eexists].
  - eexists; split; [done|left; by eexists].
Qed.

End shapes.

(** An image that the primary source cannot open gives a Record with an
    ['error'] key beside its file information: neither of the two shapes. *)
Lemma failed_image_keeps_file_info :
  ∃ md, extract_exif_data Demo.env "photos/b.jpg" = Ok md
    ∧ ¬ success_shape md ∧ ¬ error_shape md.
Proof.
  eexists. split; [reflexivity|]. split.
  - intros [H _]. discriminate H.
  - intros (_ & H & _). unfold blank in H. simpl in H.
    by apply insert_non_empty in H.
Qed.

(** C1, as the code has it: [extract_exif_data] always returns a Record
    of exactly one of three shapes: successful (no ['error'], file
    information filled in), error only, or an ['error'] beside the fields
    filled in before a handler failed; a Record without file information
    is exactly [{"error": msg}]. *)
Theorem extract_record_shapes (w : world) (file_path : string) :
  ∃ md, extract_exif_data w file_path = Ok md
    ∧ (success_shape md ∨ error_shape md ∨ partial_shape md)
    ∧ ¬ (success_shape md ∧ error_shape md)
    ∧ ¬ (success_shape md ∧ partial_shape md)
    ∧ ¬ (error_shape md ∧ partial_shape md)
    ∧ (blank (file_info md) → ∃ msg, md = error_record msg).
Proof.
  destruct (extract_cases w file_path) as (md & E & H). exists md. split; [done|].
  split; [|split; [|split; [|split]]].
  - destruct H as [[msg ->]|H].
    + right; left. apply error_record_shape.
    + destruct (populated_shape md H); auto.
  - intros [[H1 _] [[x H2] _]]. congruence.
  - intros [[H1 _] [[x H2] _]]. congruence.
  - intros [(_ & H1 & _) [_ H2]]. done.
  - intros Hb. destruct H as [?|H]; done.
Qed.

(** ** Classification of tags *)

Section classification.
Context (w : world).











End classification.




(** ** Bulk processing *)

(** [as_completed] yields every future exactly once, in some order. *)
Lemma completion_order_Permutation {A} sched n (pending : list A) :
  length pending = n → completion_order sched n pending ≡ₚ pending.
Proof.
  revert pending. induction n as [|n IH]; intros pending Hlen; simpl.
  - by destruct pending.
  - assert (Hi : (sched (S n) `mod` length pending < length pending)%nat)
      by (apply Nat.mod_upper_bound; lia).
    destruct (lookup_lt_is_Some_2 _ _ Hi) as [x Hx]. rewrite Hx.
    etrans; [|symmetry; apply (delete_Permutation pending _ x Hx)].
    constructor. apply IH. rewrite length_delete by eauto. lia.
Qed.

Lemma as_completed_Permutation {A} sched (futures : list A) :
  as_completed sched futures ≡ₚ futures.
Proof. by apply completion_order_Permutation. Qed.

Section bulk.
Context (w : world).

(** The loop counts every completion, reports it, and stores its Record. *)
Lemma collect_loop total cb order st :
  let final := foldl (collect w total cb) st order in
  completed final = (completed st + length order)%nat
  ∧ calls final
    = calls st ++ (if cb then (λ i, (i, total)) <$> seq (S (completed st)) (length order)
                   else [])
  ∧ dom (results final) = dom (results st) ∪ list_to_set order.
Proof.
  revert st. induction order as [|p order IH]; intros st; simpl.
  - split; [lia|]. split; [by destruct cb; rewrite app_nil_r|set_solver].
  - destruct (IH (collect w total cb st p)) as (Hc & Hcalls & Hdom).
    split; [rewrite Hc; simpl; lia|]. split.
    + rewrite Hcalls. simpl. destruct cb; [|done]. by rewrite <- app_assoc.
    + rewrite Hdom. simpl. rewrite dom_insert_L. set_solver.
Qed.

Lemma process_files_spec sched file_paths cb :
  let supported := List.filter is_supported_file file_paths in
  let out := process_files w sched file_paths cb in
  out.2 = (if cb then (λ i, (i, length supported)) <$> seq 1 (length supported) else [])
  ∧ dom out.1 = list_to_set supported.
Proof.
  unfold process_files. destruct file_paths as [|p rest]; [by destruct cb|].
  change (Nat.eqb (length (p :: rest)) 0) with false. cbv iota.
  generalize (p :: rest). clear p rest. intros file_paths. cbv zeta.
  cbn [fst snd].
  match goal with |- context [foldl ?f ?s ?o] =>
    destruct (collect_loop (length (List.filter is_supported_file file_paths)) cb o s)
      as (_ & Hcalls & Hdom) end.
  rewrite Hcalls, Hdom. cbn [results calls completed app].
  pose proof (as_completed_Permutation sched (List.filter is_supported_file file_paths)) as HP.
  rewrite (Permutation_length HP). split; [done|].
  rewrite dom_empty_L, (left_id_L ∅ (∪)).
  apply set_eq. intros x. rewrite !elem_of_list_to_set. by rewrite HP.
Qed.

End bulk.

(** C3: for distinct supported paths, [process_files] calls the progress
    callback with (1, N), (2, N), ..., (N, N) and returns a map with
    exactly these N keys, whatever the order of completion; unsupported
    paths get no entry and do not count in the total; the empty list gives
    the empty map and no call. *)
Theorem process_files_progress :
  (∀ (w : world) sched file_paths,
     NoDup file_paths →
     Forall (λ p, is_supported_file p = true) file_paths →
     let N := length file_paths in
     let out := process_files w sched file_paths true in
     out.2 = (λ i, (i, N)) <$> seq 1 N
     ∧ size out.1 = N
     ∧ dom out.1 = list_to_set file_paths)
  ∧ (∀ (w : world) sched file_paths,
       let supported := List.filter is_supported_file file_paths in
       let out := process_files w sched file_paths true in
       out.2 = (λ i, (i, length supported)) <$> seq 1 (length supported)
       ∧ (∀ p, p ∈ dom out.1 ↔ p ∈ file_paths ∧ is_supported_file p = true))
  ∧ (∀ (w : world) sched cb, process_files w sched [] cb = (∅, [])).
Proof.
  split; [|split].
  - intros w sched file_paths Hnd Hall N out.
    destruct (process_files_spec w sched file_paths true) as [Hcalls Hdom].
    assert (Hid : List.filter is_supported_file file_paths = file_paths).
    { apply forallb_filter_id, forallb_forall. intros p Hp.
      rewrite Forall_forall in Hall. apply Hall. by apply list_elem_of_In. }
    rewrite Hid in Hcalls, Hdom. split; [done|]. split; [|done].
    rewrite <- size_dom. subst out. rewrite Hdom. by apply size_list_to_set.
  - intros w sched file_paths supported out.
    destruct (process_files_spec w sched file_paths true) as [Hcalls Hdom].
    split; [done|]. intros p. subst out. rewrite Hdom, elem_of_list_to_set.
    subst supported. rewrite list_elem_of_In, filter_In, <- list_elem_of_In. done.
  - done.
Qed.

Lemma process_files_progress_witness :
  let out := process_files Demo.env (λ n, 2 * n)%nat
               ["photos/a.jpg"; "photos/b.jpg"; "missing.mp4"]%string true in
  out.2 = (λ i, (i, 3%nat)) <$> seq 1 3
  ∧ size out.1 = 3%nat
  ∧ dom out.1 = list_to_set ["photos/a.jpg"; "photos/b.jpg"; "missing.mp4"]%string.
Proof.
  apply (proj1 process_files_progress Demo.env).
  - by apply (bool_decide_unpack _).
  - repeat constructor.
Defined.


Section failures.
Context (w : world).

Lemma extract_returns p : returns (extract_exif_data w p).
Proof.
  unfold extract_exif_data, returns.
  destruct (os_path_exists w p); simpl; [|by eexists].
  match goal with |- context [try_except ?c _] => destruct c end; by eexists.
Qed.

Lemma extract_not_found p :
  os_path_exists w p = false →
  extract_exif_data w p = Ok (error_record "File not found").
Proof. intros H. unfold extract_exif_data. by rewrite H. Qed.

Lemma extract_unsupported p :
  os_path_exists w p = true → is_supported_file p = false →
  extract_exif_data w p = Ok (error_record "Unsupported file format").
Proof.
  intros He Hs. unfold extract_exif_data. rewrite He. simpl.
  unfold is_supported_file in Hs. apply bool_decide_eq_false in Hs.
  rewrite !elem_of_union in Hs.
  rewrite !bool_decide_eq_false_2 by tauto. done.
Qed.

Lemma extract_stat_failure p e :
  os_path_exists w p = true → is_supported_file p = true → os_stat w p = Raise e →
  extract_exif_data w p = Ok (error_record ("Failed to extract EXIF data: " +:+ exn_str e)).
Proof.
  intros He Hs Hstat. unfold extract_exif_data. rewrite He. simpl.
  unfold is_supported_file in Hs. apply bool_decide_eq_true in Hs.
  unfold _extract_image_exif, _extract_video_exif, _extract_audio_exif, _get_file_info.
  rewrite Hstat. simpl.
  repeat case_bool_decide; try done. set_solver.
Qed.

(** *** The image handler *)

Lemma classify_tag_gps tag_id value md :
  tag_name (TAGS w) tag_id = TagName "GPSInfo" →
  classify_tag w tag_id value md
  = match _parse_gps_data w value with
    | Ok g => (set_gps_data g md, None)
    | Raise e => (md, Some e)
    end.
Proof. intros H. unfold classify_tag. by rewrite H, bool_decide_eq_true_2. Qed.

Lemma classify_tag_other tag_id value md :
  tag_name (TAGS w) tag_id ≠ TagName "GPSInfo" →
  (classify_tag w tag_id value md).2 = None.
Proof.
  intros H. unfold classify_tag. rewrite bool_decide_eq_false_2 by done.
  by repeat case_bool_decide.
Qed.

Lemma classify_tags_parse items md :
  gps_entries_parse w items → (classify_tags w items md).2 = None.
Proof.
  revert md. induction items as [|[t v] rest IH]; intros md Hp; simpl; [done|].
  assert (Hrest : gps_entries_parse w rest).
  { intros t' v' Hin. apply Hp. by right. }
  destruct (decide (tag_name (TAGS w) t = TagName "GPSInfo")) as [Hg|Hg].
  - rewrite classify_tag_gps by done.
    destruct (Hp t v) as [g ->]; [by left|done|]. by apply IH.
  - pose proof (classify_tag_other t v md Hg) as H.
    destruct (classify_tag w t v md) as [md' [e|]]; simpl in *; [done|]. by apply IH.
Qed.

Lemma classify_tags_raise before t v after md e :
  gps_entries_parse w before →
  tag_name (TAGS w) t = TagName "GPSInfo" →
  _parse_gps_data w v = Raise e →
  (classify_tags w (before ++ (t, v) :: after) md).2 = Some e.
Proof.
  intros Hp Hg Hv. revert md Hp.
  induction before as [|[t' v'] rest IH]; intros md Hp; simpl.
  - by rewrite classify_tag_gps, Hv.
  - assert (Hrest : gps_entries_parse w rest).
    { intros t'' v'' Hin. apply Hp. by right. }
    destruct (decide (tag_name (TAGS w) t' = TagName "GPSInfo")) as [Hg'|Hg'].
    + rewrite classify_tag_gps by done.
      destruct (Hp t' v') as [g ->]; [by left|done|]. by apply IH.
    + pose proof (classify_tag_other t' v' md Hg') as H.
      destruct (classify_tag w t' v' md) as [md' [e'|]]; simpl in *; [done|]. by apply IH.
Qed.

(** The loop runs over the items, an absent or empty dictionary included. *)
Lemma read_primary_items p md img exif_dict :
  Image_open w p = Ok img → img_getexif img = Ok exif_dict →
  (read_primary w p md).2 = (classify_tags w (exif_items exif_dict) md).2.
Proof.
  intros Ho Hg. unfold read_primary. rewrite Ho, Hg.
  destruct exif_dict as [[|item items]|]; try done.
  unfold exif_items. cbn [default from_option]. unfold id.
  by destruct (classify_tags w (item :: items) md) as [md' [e|]] eqn:E; rewrite ?E.
Qed.

(** What ends the [try] block of the image handler. *)
Lemma image_try_raises p md e :
  image_read_error w p e →
  (match read_primary w p md with
   | (md', None) => read_secondary w p md'
   | stopped => stopped
   end).2 = Some e.
Proof.
  intros [e' Ho | img e' Ho Hg | img d before t v after e' Ho Hg Hitems Hp Ht Hv
          | img d e' Ho Hg Hp Hs].
  - unfold read_primary. by rewrite Ho.
  - unfold read_primary. by rewrite Ho, Hg.
  - pose proof (read_primary_items p md img d Ho Hg) as H.
    rewrite Hitems, (classify_tags_raise before t v after md e' Hp Ht Hv) in H.
    by destruct (read_primary w p md) as [md' [e''|]]; simpl in *; [|done].
  - pose proof (read_primary_items p md img d Ho Hg) as H.
    rewrite (classify_tags_parse _ md Hp) in H.
    destruct (read_primary w p md) as [md' [e''|]]; simpl in *; [done|].
    unfold read_secondary. by rewrite Hs.
Qed.

Lemma record_failure_raised prefix o e :
  o.2 = Some e → error (record_failure prefix o) = Some (prefix +:+ exn_str e).
Proof. destruct o as [md [e'|]]; simpl; [|done]. by intros [= ->]. Qed.

Lemma extract_image_read_failure p st e :
  os_path_exists w p = true → lower (path_suffix p) ∈ supported_image_formats →
  os_stat w p = Ok st → image_read_error w p e →
  captured_as w p (Some ("Error reading image EXIF: " +:+ exn_str e)).
Proof.
  intros He Hs Hstat Herr. unfold captured_as, extract_exif_data. rewrite He. simpl.
  rewrite bool_decide_eq_true_2 by done.
  unfold _extract_image_exif, _get_file_info. rewrite Hstat. simpl.
  eexists. split; [done|].
  by apply record_failure_raised, image_try_raises.
Qed.

(** *** The video handler *)

Lemma video_not_image ext :
  ext ∈ supported_video_formats → ext ∉ supported_image_formats.
Proof.
  unfold supported_video_formats, supported_image_formats.
  rewrite !elem_of_union, !elem_of_singleton.
  intros Hv Hi. repeat destruct Hv as [Hv|Hv]; subst ext;
    repeat destruct Hi as [Hi|Hi]; discriminate Hi.
Qed.

(** The inner [try] leaves the dictionary as it was when it raises. *)
Lemma probe_video_raises p md e :
  video_read_error w p e → probe_video w p md = (md, Some e).
Proof.
  intros [e' Hr | proc e' Hr Hc Hj | proc v Hr Hc Hj Hv]; unfold probe_video; rewrite Hr.
  - done.
  - by rewrite Hc, Hj.
  - rewrite Hc, Hj. simpl. destruct v; try done. by destruct (Hv items).
Qed.

Lemma pass_probe_absent_passed md e :
  passed_over e → pass_probe_absent (md, Some e) = (md, None).
Proof. destruct e as [kind msg]. by intros [Hk|Hk]; simpl in Hk; subst kind. Qed.

Lemma pass_probe_absent_kept md e :
  ¬ passed_over e → pass_probe_absent (md, Some e) = (md, Some e).
Proof.
  destruct e as [kind msg]. unfold passed_over. simpl. intros Hk.
  destruct kind; try done; destruct Hk; first [by left | by right].
Qed.

Lemma extract_video_read_failure p st e :
  os_path_exists w p = true → lower (path_suffix p) ∈ supported_video_formats →
  os_stat w p = Ok st → video_read_error w p e → ¬ passed_over e →
  captured_as w p (Some ("Error reading video metadata: " +:+ exn_str e)).
Proof.
  intros He Hs Hstat Herr Hk. unfold captured_as, extract_exif_data. rewrite He. simpl.
  rewrite bool_decide_eq_false_2 by by apply video_not_image.
  rewrite bool_decide_eq_true_2 by done.
  unfold _extract_video_exif, _get_file_info. rewrite Hstat. simpl.
  rewrite (probe_video_raises p _ e Herr), pass_probe_absent_kept by done.
  by eexists.
Qed.

(** An exception of the two kinds passed over is no failure. *)
Lemma extract_video_probe_absent p st e :
  os_path_exists w p = true → lower (path_suffix p) ∈ supported_video_formats →
  os_stat w p = Ok st → video_read_error w p e → passed_over e →
  captured_as w p None.
Proof.
  intros He Hs Hstat Herr Hk. unfold captured_as, extract_exif_data. rewrite He. simpl.
  rewrite bool_decide_eq_false_2 by by apply video_not_image.
  rewrite bool_decide_eq_true_2 by done.
  unfold _extract_video_exif, _get_file_info. rewrite Hstat. simpl.
  rewrite (probe_video_raises p _ e Herr), pass_probe_absent_passed by done.
  by eexists.
Qed.

(** *** The audio handler *)

Lemma copy_audio_tags_raise before key value after md e :
  (∀ k v e', (k, v) ∈ before → ¬ frame_raises v e') →
  frame_raises value e →
  (copy_audio_tags w (before ++ (key, value) :: after) md).2 = Some e.
Proof.
  intros Hb (l & -> & Hv). revert md Hb.
  induction before as [|[k v] rest IH]; intros md Hb; simpl.
  - simpl in Hv. by destruct (l !! 0%nat); simplify_eq.
  - assert (Hrest : ∀ k' v' e', (k', v') ∈ rest → ¬ frame_raises v' e').
    { intros k' v' e' Hin. apply (Hb k'). by right. }
    destruct v as [| | | | | |l'|]; try (by apply IH).
    destruct (py_index (VList l') 0) as [v0|e'] eqn:E; simpl; [by apply IH|].
    destruct (Hb k (VList l') e'); [by left|]. by exists l'.
Qed.

Lemma read_mp3_raises p md e :
  audio_read_error w p e → (read_mp3 w p md).2 = Some e.
Proof.
  intros [e' Hi | e' Hi Hm | audio before key value after e' Hi Hm Htags Hb Hv];
    unfold read_mp3; rewrite Hi; [done|by rewrite Hm|].
  rewrite Hm. destruct (mp3_tags audio) as [tags|]; simpl in Htags.
  - subst tags.
    assert (∃ t ts, before ++ (key, value) :: after = t :: ts) as (t & ts & E)
      by (destruct before; by eexists _, _).
    rewrite E. cbv beta iota. rewrite <- E. by apply copy_audio_tags_raise.
  - by destruct before.
Qed.

Lemma audio_not_other ext :
  ext ∈ supported_audio_formats →
  (ext ∉ supported_image_formats) ∧ (ext ∉ supported_video_formats).
Proof.
  unfold supported_audio_formats, supported_video_formats, supported_image_formats.
  rewrite !elem_of_union, !elem_of_singleton.
  intros Ha. split; intros Hi; repeat destruct Ha as [Ha|Ha]; subst ext;
    repeat destruct Hi as [Hi|Hi]; discriminate Hi.
Qed.

Lemma extract_mp3 p st :
  os_path_exists w p = true → lower (path_suffix p) = ".mp3"%string →
  os_stat w p = Ok st →
  ∃ md0, error md0 = None
    ∧ extract_exif_data w p
      = Ok (record_failure "Error reading audio metadata: "
              (on_import_error (read_mp3 w p md0))).
Proof.
  intros He Hs Hstat. unfold extract_exif_data. rewrite He, Hs. simpl.
  unfold _extract_audio_exif, _get_file_info. rewrite Hstat, Hs. simpl.
  by eexists; split; [|done].
Qed.

(** A missing capability: any [ImportError] of the inner [try]. *)
Lemma extract_capability_missing p st e :
  os_path_exists w p = true → lower (path_suffix p) = ".mp3"%string →
  os_stat w p = Ok st → audio_read_error w p e → exn_kind e = ImportError →
  captured_as w p (Some "Install mutagen library for full audio metadata support"%string).
Proof.
  intros He Hs Hstat Herr Hk. unfold captured_as.
  destruct (extract_mp3 p st He Hs Hstat) as (md0 & _ & ->).
  eexists. split; [done|].
  pose proof (read_mp3_raises p md0 e Herr) as H.
  destruct (read_mp3 w p md0) as [md' [e'|]]; simpl in H; [|done].
  injection H as ->. destruct e as [kind msg]. simpl in Hk. by subst kind.
Qed.

Lemma extract_audio_read_failure p st e :
  os_path_exists w p = true → lower (path_suffix p) = ".mp3"%string →
  os_stat w p = Ok st → audio_read_error w p e → exn_kind e ≠ ImportError →
  captured_as w p (Some ("Error reading audio metadata: " +:+ exn_str e)).
Proof.
  intros He Hs Hstat Herr Hk. unfold captured_as.
  destruct (extract_mp3 p st He Hs Hstat) as (md0 & _ & ->).
  eexists. split; [done|].
  pose proof (read_mp3_raises p md0 e Herr) as H.
  destruct (read_mp3 w p md0) as [md' [e'|]]; simpl in H; [|done].
  injection H as ->. destruct e as [kind msg]. simpl in Hk. by destruct kind.
Qed.

(** *** Bulk processing *)

(** A task that raised would still get its Record. *)
Lemma process_files_total sched file_paths cb p :
  p ∈ file_paths → is_supported_file p = true →
  is_Some ((process_files w sched file_paths cb).1 !! p).
Proof.
  intros Hin Hs. apply elem_of_dom.
  destruct (process_files_spec w sched file_paths cb) as [_ ->].
  rewrite elem_of_list_to_set, list_elem_of_In, filter_In, <- list_elem_of_In. done.
Qed.

Lemma collect_cb_raised task total cb e order :
  foldl (collect_cb task total cb) (Raise e) order = Raise e.
Proof. induction order as [|p order IH]; simpl; [done|]. exact IH. Qed.

Lemma collect_cb_none total order st :
  foldl (collect_cb (extract_exif_data w) total None) (Ok st) order
  = Ok (foldl (collect w total false) st order).
Proof.
  revert st. induction order as [|p order IH]; intros st; simpl; [done|].
  apply IH.
Qed.

Lemma collect_cb_returns total cb order st :
  (∀ i, (completed st < i ≤ completed st + length order)%nat → returns (cb i total)) →
  foldl (collect_cb (extract_exif_data w) total (Some cb)) (Ok st) order
  = Ok (foldl (collect w total true) st order).
Proof.
  revert st. induction order as [|p order IH]; intros st Hcb; simpl; [done|].
  destruct (Hcb (S (completed st))) as [u Hu]; [simpl; lia|].
  rewrite Hu. simpl. apply IH. intros i Hi. apply Hcb. simpl in *. lia.
Qed.

Lemma collect_cb_raises task total cb order st i e :
  (completed st < i ≤ completed st + length order)%nat →
  cb i total = Raise e →
  (∀ j, (completed st < j < i)%nat → returns (cb j total)) →
  foldl (collect_cb task total (Some cb)) (Ok st) order = Raise e.
Proof.
  revert st. induction order as [|p order IH]; intros st Hi He Hcb; simpl in *; [lia|].
  destruct (decide (i = S (completed st))) as [->|Hne].
  - rewrite He. simpl. apply collect_cb_raised.
  - destruct (Hcb (S (completed st))) as [u Hu]; [lia|].
    rewrite Hu. simpl. apply IH; simpl; [lia|done|]. intros j Hj. apply Hcb. lia.
Qed.

(** Whatever the task does, its path gets a Record. *)
Lemma collect_cb_stores task total order st :
  ∃ final,
    foldl (collect_cb task total None) (Ok st) order = Ok final
    ∧ ∀ p, results final !! p
           = if bool_decide (p ∈ order)
             then Some match task p with
                       | Ok r => r
                       | Raise exc => error_record ("Exception occurred: " +:+ exn_str exc)
                       end
             else results st !! p.
Proof.
  revert st. induction order as [|q order IH]; intros st; simpl.
  - by exists st.
  - match goal with |- context [foldl _ (Ok ?s) order] =>
      destruct (IH s) as (final & -> & Hfinal) end.
    exists final. split; [done|]. intros p. rewrite Hfinal. simpl.
    destruct (decide (p = q)) as [->|Hne].
    + rewrite (bool_decide_eq_true_2 (q ∈ q :: order)) by left.
      case_bool_decide; [done|]. by rewrite lookup_insert_eq.
    + rewrite lookup_insert_ne by done.
      rewrite (bool_decide_ext (p ∈ q :: order) (p ∈ order)); [done|].
      rewrite elem_of_cons. naive_solver.
Qed.

Lemma process_files_cb_none sched file_paths :
  process_files_cb (extract_exif_data w) sched file_paths None
  = Ok (process_files w sched file_paths false).
Proof.
  unfold process_files_cb, process_files.
  destruct (Nat.eqb (length file_paths) 0); [done|].
  cbv zeta. by rewrite collect_cb_none.
Qed.

Lemma process_files_cb_returns sched file_paths cb :
  let n := length (List.filter is_supported_file file_paths) in
  (∀ i, (1 ≤ i ≤ n)%nat → returns (cb i n)) →
  process_files_cb (extract_exif_data w) sched file_paths (Some cb)
  = Ok (process_files w sched file_paths true).
Proof.
  intros n Hcb. unfold process_files_cb, process_files.
  destruct (Nat.eqb (length file_paths) 0); [done|].
  cbv zeta. rewrite collect_cb_returns; [done|].
  simpl. intros i Hi. apply Hcb.
  rewrite (Permutation_length (as_completed_Permutation sched _)) in Hi. subst n. lia.
Qed.

Lemma process_files_cb_raises task sched file_paths cb i e :
  first_raise cb (length (List.filter is_supported_file file_paths)) i e →
  process_files_cb task sched file_paths (Some cb) = Raise e.
Proof.
  intros (Hi & He & Hcb). unfold process_files_cb.
  destruct (Nat.eqb (length file_paths) 0) eqn:E.
  - apply Nat.eqb_eq in E. destruct file_paths; [|done]. simpl in Hi. lia.
  - cbv zeta. rewrite (collect_cb_raises _ _ cb _ _ i e); [done| |done|].
    + simpl. rewrite (Permutation_length (as_completed_Permutation sched _)). lia.
    + simpl. intros j Hj. apply Hcb. lia.
Qed.

(** An exception of the task itself ends in the Record of its path. *)
Lemma process_files_cb_captures task sched file_paths p e :
  p ∈ file_paths → is_supported_file p = true → task p = Raise e →
  ∃ out, process_files_cb task sched file_paths None = Ok out
    ∧ out.1 !! p = Some (error_record ("Exception occurred: " +:+ exn_str e)).
Proof.
  intros Hin Hs He. unfold process_files_cb.
  destruct (Nat.eqb (length file_paths) 0) eqn:E.
  { apply Nat.eqb_eq in E. destruct file_paths; [|done]. by apply elem_of_nil in Hin. }
  cbv zeta.
  match goal with |- context [foldl ?f (Ok ?s) ?o] =>
    destruct (collect_cb_stores task (length (List.filter is_supported_file file_paths)) o s)
      as (final & -> & Hfinal) end.
  eexists. split; [done|]. simpl. rewrite Hfinal, He.
  rewrite bool_decide_eq_true_2; [done|].
  rewrite (as_completed_Permutation sched _).
  by rewrite list_elem_of_In, filter_In, <- list_elem_of_In.
Qed.

(** *** Export *)

Lemma export_data_unsupported data output_path format_type files :
  lower format_type ∉ supported_formats →
  export_data w data output_path format_type files
  = Raise (Exn ValueError ("Unsupported format: " +:+ lower format_type)).
Proof. intros H. unfold export_data. by rewrite bool_decide_eq_false_2. Qed.

Lemma export_data_supported data output_path format_type files :
  lower format_type ∈ supported_formats →
  returns (export_data w data output_path format_type files).
Proof.
  intros H. unfold export_data, returns. rewrite bool_decide_eq_true_2 by done. simpl.
  repeat (destruct (String.eqb _ _)); by eexists.
Qed.

End failures.

(** A progress callback that raises: the callback is called outside every
    [try], so its exception leaves [process_files]. *)
Lemma raising_callback_leaves_process_files :
  process_files_cb (extract_exif_data Demo.env) (λ n, n) ["photos/a.jpg"%string]
    (Some (λ _ _, Raise (Exn ValueError "progress dialog closed")))
  = Raise (Exn ValueError "progress dialog closed").
Proof. vm_compute. reflexivity. Qed.

(** C4, as the code has it: [extract_exif_data] never raises.  A missing
    file, an unsupported format and a failing [os.stat] give the Record
    that holds the message alone; whatever ends the [try] block of the
    image handler ([Image.open], [_getexif()], the GPS parser, the
    secondary source), of the video handler (the probe, the JSON decoder;
    [FileNotFoundError] and [TimeoutExpired] are passed over and set no
    error) or of the audio handler (the import, [MP3], a tag frame; an
    [ImportError] gives the install hint) ends in the ['error'] field
    under the handler's prefix.  [process_files] gives every supported
    path a Record, also when the task itself raises, and raises nothing
    of its own: it returns when the progress callback returns, and
    otherwise raises what the callback raised first.  [export_data]
    raises [ValueError] exactly when the lower-cased token is outside
    json, csv, txt. *)
Theorem failures_are_captured :
  (∀ (w : world) p, returns (extract_exif_data w p))
  ∧ (∀ (w : world) p,
       os_path_exists w p = false →
       extract_exif_data w p = Ok (error_record "File not found"))
  ∧ (∀ (w : world) p,
       os_path_exists w p = true → is_supported_file p = false →
       extract_exif_data w p = Ok (error_record "Unsupported file format"))
  ∧ (∀ (w : world) p e,
       os_path_exists w p = true → is_supported_file p = true → os_stat w p = Raise e →
       extract_exif_data w p
       = Ok (error_record ("Failed to extract EXIF data: " +:+ exn_str e)))
  ∧ (∀ (w : world) p st e,
       os_path_exists w p = true → lower (path_suffix p) ∈ supported_image_formats →
       os_stat w p = Ok st → image_read_error w p e →
       captured_as w p (Some ("Error reading image EXIF: " +:+ exn_str e)))
  ∧ (∀ (w : world) p st e,
       os_path_exists w p = true → lower (path_suffix p) ∈ supported_video_formats →
       os_stat w p = Ok st → video_read_error w p e → ¬ passed_over e →
       captured_as w p (Some ("Error reading video metadata: " +:+ exn_str e)))
  ∧ (∀ (w : world) p st e,
       os_path_exists w p = true → lower (path_suffix p) ∈ supported_video_formats →
       os_stat w p = Ok st → video_read_error w p e → passed_over e →
       captured_as w p None)
  ∧ (∀ (w : world) p st e,
       os_path_exists w p = true → lower (path_suffix p) = ".mp3"%string →
       os_stat w p = Ok st → audio_read_error w p e → exn_kind e = ImportError →
       captured_as w p (Some "Install mutagen library for full audio metadata support"%string))
  ∧ (∀ (w : world) p st e,
       os_path_exists w p = true → lower (path_suffix p) = ".mp3"%string →
       os_stat w p = Ok st → audio_read_error w p e → exn_kind e ≠ ImportError →
       captured_as w p (Some ("Error reading audio metadata: " +:+ exn_str e)))
  ∧ (∀ (w : world) sched file_paths cb p,
       p ∈ file_paths → is_supported_file p = true →
       is_Some ((process_files w sched file_paths cb).1 !! p))
  ∧ (∀ task sched file_paths p e,
       p ∈ file_paths → is_supported_file p = true → task p = Raise e →
       ∃ out, process_files_cb task sched file_paths None = Ok out
         ∧ out.1 !! p = Some (error_record ("Exception occurred: " +:+ exn_str e)))
  ∧ (∀ (w : world) sched file_paths,
       process_files_cb (extract_exif_data w) sched file_paths None
       = Ok (process_files w sched file_paths false))
  ∧ (∀ (w : world) sched file_paths callback,
       let n := length (List.filter is_supported_file file_paths) in
       (∀ i, (1 ≤ i ≤ n)%nat → returns (callback i n)) →
       process_files_cb (extract_exif_data w) sched file_paths (Some callback)
       = Ok (process_files w sched file_paths true))
  ∧ (∀ task sched file_paths callback i e,
       first_raise callback (length (List.filter is_supported_file file_paths)) i e →
       process_files_cb task sched file_paths (Some callback) = Raise e)
  ∧ (∀ (w : world) data output_path format_type files,
       lower format_type ∉ supported_formats →
       export_data w data output_path format_type files
       = Raise (Exn ValueError ("Unsupported format: " +:+ lower format_type)))
  ∧ (∀ (w : world) data output_path format_type files,
       lower format_type ∈ supported_formats →
       returns (export_data w data output_path format_type files)).
Proof.
  split; [exact extract_returns|].
  split; [exact extract_not_found|].
  split; [exact extract_unsupported|].
  split; [exact extract_stat_failure|].
  split; [exact extract_image_read_failure|].
  split; [exact extract_video_read_failure|].
  split; [exact extract_video_probe_absent|].
  split; [exact extract_capability_missing|].
  split; [exact extract_audio_read_failure|].
  split; [exact process_files_total|].
  split; [exact process_files_cb_captures|].
  split; [exact process_files_cb_none|].
  split; [exact process_files_cb_returns|].
  split; [exact process_files_cb_raises|].
  split; [exact export_data_unsupported|exact export_data_supported].
Qed.

Lemma failures_are_captured_witness :
  extract_exif_data Demo.env "photos/gone.jpg" = Ok (error_record "File not found")
  ∧ extract_exif_data Demo.env "photos/notes.txt"
    = Ok (error_record "Unsupported file format")
  ∧ captured_as Demo.env "photos/b.jpg"
      (Some "Error reading image EXIF: cannot identify image file"%string)
  ∧ process_files_cb (extract_exif_data Demo.env) (λ n, n)
      ["photos/a.jpg"; "photos/b.jpg"]%string
      (Some (λ i _, if Nat.eqb i 2 then Raise (Exn ValueError "progress dialog closed")
                    else Ok tt))
    = Raise (Exn ValueError "progress dialog closed")
  ∧ export_data Demo.env [] "out.xml" "XML" ∅
    = Raise (Exn ValueError ("Unsupported format: " +:+ lower "XML")).
Proof.
  destruct failures_are_captured
    as (_ & Hnf & Hun & _ & Himg & _ & _ & _ & _ & _ & _ & _ & _ & Hcb & Hex & _).
  split; [|split; [|split; [|split]]].
  - apply Hnf. reflexivity.
  - apply Hun; reflexivity.
  - apply (Himg Demo.env "photos/b.jpg"%string
             {| st_size := 2048; st_ctime := 0%float; st_mtime := 0%float |}
             (Exn OSError "cannot identify image file")).
    + reflexivity.
    + by apply (bool_decide_unpack _).
    + reflexivity.
    + by apply open_raises.
  - apply (Hcb (extract_exif_data Demo.env) (λ n, n)
             ["photos/a.jpg"; "photos/b.jpg"]%string _ 2%nat).
    split; [vm_compute; lia|]. split; [reflexivity|].
    intros j Hj. assert (j = 1%nat) as -> by lia. by eexists.
  - apply Hex. by apply (bool_decide_unpack _).
Defined.

(** ** Scans, filters and the csv export *)

(** *** The order on strings *)

Lemma str_le_iff a b : str_le a b ↔ String_as_OT.lt a b ∨ a = b.
Proof.
  unfold str_le, String.leb. rewrite <- String_as_OT.cmp_lt.
  unfold String_as_OT.cmp. destruct (String.compare a b) eqn:E.
  - apply String.compare_eq_iff in E. naive_solver.
  - naive_solver.
  - split; [done|]. intros [? | ->]; [done|].
    assert (String.compare b b = Eq) as E'.
    { pose proof (String.compare_antisym b b) as H.
      destruct (String.compare b b); done. }
    congruence.
Qed.

#[global] Instance str_le_total : Total str_le.
Proof. intros a b. apply String.leb_total. Qed.

#[global] Instance str_le_trans : Transitive str_le.
Proof.
  intros a b c. rewrite !str_le_iff. intros [Hab| ->] [Hbc| ->]; auto.
  left. by eapply String_as_OT.lt_trans.
Qed.

Lemma sorted_StronglySorted l : StronglySorted str_le (sorted l).
Proof. apply Sorted_StronglySorted; [apply _|]. apply Sorted_merge_sort, _. Qed.

Lemma elem_of_sorted l (p : string) : p ∈ sorted l ↔ p ∈ l.
Proof. unfold sorted. by rewrite merge_sort_Permutation. Qed.

(** *** Directory scans *)

Lemma fs_entry_tree_ind (P : fs_entry → Prop) :
  P FsFile →
  (∀ children, Forall (λ c, P c.2) children → P (FsDir children)) →
  ∀ e, P e.
Proof.
  intros Hfile Hdir. fix IH 1. intros [|children]; [done|].
  apply Hdir. induction children as [|[name x] cs IHcs]; constructor; [apply IH|done].
Qed.

Lemma glob_rec_below d : ∀ dir p e, (p, e) ∈ glob_rec dir d ↔ below dir d p e.
Proof.
  induction d as [|children IH] using fs_entry_tree_ind; intros dir p e.
  - simpl. split; [by intros ?%elem_of_nil|inversion 1].
  - simpl. rewrite list_elem_of_In, in_flat_map. split.
    + intros ([name sub] & Hin & Hx). apply list_elem_of_In in Hin.
      simpl in Hx. destruct Hx as [[= <- <-]|Hx].
      * by constructor.
      * rewrite Forall_forall in IH. apply list_elem_of_In in Hx.
        eapply below_deeper; [done|]. by apply (IH _ Hin).
    + inversion 1 as [? ? name ? Hin|? ? name sub ? ? Hin Hb]; subst.
      * exists (name, e). split; [by apply list_elem_of_In|]. by left.
      * exists (name, sub). split; [by apply list_elem_of_In|]. right.
        rewrite Forall_forall in IH. apply list_elem_of_In. by apply (IH _ Hin).
Qed.

Lemma is_file_true e : is_file e = true ↔ e = FsFile.
Proof. by destruct e. Qed.

Section scanning.
Context (w : world).


Lemma elem_of_scan_directory dir recursive p :
  p ∈ scan_directory w dir recursive ↔ supported_file_under w dir recursive p.
Proof.
  unfold scan_directory, supported_file_under, os_path_isdir.
  destruct (resolve w dir) as [[|children]|]; simpl;
    [split; [by intros ?%elem_of_nil|by intros (_ & ? & [=] & _)]..| |
     split; [by intros ?%elem_of_nil|by intros (_ & ? & [=] & _)]].
  rewrite elem_of_sorted, list_elem_of_fmap. split.
  - intros ([q e] & -> & Hin). simpl.
    apply list_elem_of_In, filter_In in Hin as [Hin Hok]. simpl in Hok.
    apply andb_true_iff in Hok as [->%is_file_true Hs]. split; [done|].
    exists children. split; [done|]. apply list_elem_of_In in Hin.
    destruct recursive.
    + by apply (glob_rec_below (FsDir children)).
    + unfold glob_star in Hin. apply list_elem_of_fmap in Hin as ([name e] & [= -> ->] & Hin).
      by exists name.
  - intros (Hs & children' & [= <-] & Hp). exists (p, FsFile). split; [done|].
    apply list_elem_of_In, filter_In. split; [|by simpl; rewrite Hs].
    apply list_elem_of_In. destruct recursive.
    + by apply (glob_rec_below (FsDir children)).
    + destruct Hp as (name & Hin & ->). unfold glob_star.
      apply list_elem_of_fmap. by exists (name, FsFile).
Qed.

End scanning.



(** *** Geotagged Records *)

Lemma has_decimal_gps_geotagged md : has_decimal_gps md = true ↔ geotagged md.
Proof.
  unfold has_decimal_gps, geotagged. destruct (gps_data md) as [g|]; [|naive_solver].
  rewrite !andb_true_iff, !bool_decide_eq_true, !elem_of_dom. split.
  - intros [[_ Hlat] Hlon]. by exists g.
  - intros (g' & [= <-] & Hlat & Hlon). split; [split|]; try done.
    apply negb_true_iff, Nat.eqb_neq. intros Hz%map_size_empty_iff.
    subst g. destruct Hlat as [x Hx]. by rewrite lookup_empty in Hx.
Qed.

(** The loop of [filter_geotagged_files] over items with distinct paths. *)
Lemma filter_loop_lookup (items : list (string * metadata))
    (acc : gmap string metadata) p :
  NoDup items.*1 →
  foldl (λ geotagged item,
           if has_decimal_gps item.2 then <[item.1 := item.2]> geotagged
           else geotagged) acc items !! p
  = match list_find (λ item, item.1 = p) items with
    | Some (_, (_, md)) => if has_decimal_gps md then Some md else acc !! p
    | None => acc !! p
    end.
Proof.
  revert acc. induction items as [|[q md] items IH]; intros acc Hnd; simpl; [done|].
  apply NoDup_cons in Hnd as [Hq Hnd]. rewrite IH by done.
  case_decide as Hqp; simpl in *.
  - subst q. destruct (list_find _ items) as [[i [q' md']]|] eqn:Hfind; simpl.
    + apply list_find_Some in Hfind as (Hl & Heq & _). simpl in Heq. subst q'.
      exfalso. apply Hq. apply list_elem_of_fmap. exists (p, md').
      split; [done|]. by eapply list_elem_of_lookup_2.
    + destruct (has_decimal_gps md); [by rewrite lookup_insert_eq|done].
  - destruct (list_find _ items) as [[i [q' md']]|]; simpl.
    + destruct (has_decimal_gps md'); [done|].
      destruct (has_decimal_gps md); [by rewrite lookup_insert_ne|done].
    + destruct (has_decimal_gps md); [by rewrite lookup_insert_ne|done].
Qed.

Lemma filter_geotagged_lookup (results : gmap string metadata) p md :
  filter_geotagged_files results !! p = Some md
  ↔ results !! p = Some md ∧ geotagged md.
Proof.
  unfold filter_geotagged_files.
  rewrite filter_loop_lookup by apply NoDup_fst_map_to_list.
  rewrite <- has_decimal_gps_geotagged.
  destruct (list_find _ (map_to_list results)) as [[i [q md']]|] eqn:Hfind; simpl.
  - apply list_find_Some in Hfind as (Hl & Heq & _). simpl in Heq. subst q.
    apply list_elem_of_lookup_2, elem_of_map_to_list in Hl.
    rewrite Hl. destruct (has_decimal_gps md') eqn:Hg.
    + split; [by intros [= <-]|by intros [[= <-] _]].
    + rewrite lookup_empty. split; [done|]. intros [[= <-] ?]. congruence.
  - rewrite lookup_empty. split; [done|]. intros [Hl _].
    apply elem_of_map_to_list in Hl.
    eapply list_find_None in Hfind. rewrite Forall_forall in Hfind.
    by apply Hfind in Hl.
Qed.

(** C8: [filter_geotagged_files] returns exactly the entries of its
    argument whose GPS information has both decimal fields, each Record as
    it was; when one path alone qualifies the result is that single entry. *)
Theorem filter_geotagged_exact :
  (∀ (results : gmap string metadata) p md,
     filter_geotagged_files results !! p = Some md
     ↔ results !! p = Some md ∧ geotagged md)
  ∧ (∀ (results : gmap string metadata) p md,
       results !! p = Some md → geotagged md →
       (∀ q md', results !! q = Some md' → geotagged md' → q = p) →
       filter_geotagged_files results = {[ p := md ]}
       ∧ size (filter_geotagged_files results) = 1%nat).
Proof.
  split; [exact filter_geotagged_lookup|].
  intros results p md Hp Hg Honly.
  assert (E : filter_geotagged_files results = {[ p := md ]}).
  { apply map_eq. intros q. destruct (decide (q = p)) as [->|Hne].
    - rewrite lookup_singleton_eq. by apply filter_geotagged_lookup.
    - rewrite lookup_singleton_ne by done.
      destruct (filter_geotagged_files results !! q) as [md'|] eqn:E; [|done].
      apply filter_geotagged_lookup in E as [Hq Hg']. by apply Honly in Hq. }
  split; [done|]. rewrite E. apply map_size_singleton.
Qed.

Lemma filter_geotagged_exact_witness :
  let tagged := set_gps_data (<[TagName "DecimalLongitude" := VFloat (-79.94861111111112)]>
                              {[TagName "DecimalLatitude" := VFloat 40.446111111111108]})
                             empty_metadata in
  let results : gmap string metadata :=
    <["photos/a.jpg"%string := tagged]>
      {["photos/b.jpg"%string := error_record "File not found"]} in
  filter_geotagged_files results = {[ "photos/a.jpg"%string := tagged ]}
  ∧ size (filter_geotagged_files results) = 1%nat.
Proof.
  intros tagged results.
  apply (proj2 filter_geotagged_exact results "photos/a.jpg"%string tagged).
  - reflexivity.
  - eexists. split; [reflexivity|]. split; by eexists.
  - intros q md' Hq Hg. subst results.
    apply lookup_insert_Some in Hq as [[-> _]|[_ Hq]]; [done|].
    apply lookup_singleton_Some in Hq as [_ <-].
    by destruct Hg as (g & [=] & _).
Defined.

(** *** CSV export *)


(** C10: when every Record carries an ['error'] key, [_export_csv] leaves
    the files as they were and returns [False]. *)
Theorem export_csv_only_errors (w : world) (data : list (string * metadata))
    (output_path : string) (files : gmap string document) :
  (∀ p md, (p, md) ∈ data → is_Some (error md)) →
  _export_csv w data output_path files = (files, false).
Proof.
  intros Herr. unfold _export_csv.
  assert (E : omap (λ item : string * metadata,
                      match error item.2 with
                      | None => Some (flatten w item.1 item.2)
                      | Some _ => None
                      end) data = []).
  { assert (H : Forall (λ item : string * metadata, is_Some (error item.2)) data).
    { apply Forall_forall. intros [p md] Hin. by eapply Herr. }
    clear Herr. induction H as [|[p md] items [msg Hmsg] _ IH]; simpl; [done|].
    simpl in Hmsg. by rewrite Hmsg. }
  by rewrite E.
Qed.

Lemma export_csv_only_errors_witness :
  _export_csv Demo.env [("missing.jpg"%string, error_record "File not found")]
              "out.csv" ∅ = (∅, false).
Proof.
  apply export_csv_only_errors.
  intros p md Hin%list_elem_of_singleton. injection Hin as _ ->. by eexists.
Defined.

(** ** Further properties of bulk processing *)

Section bulk_results.
Context (w : world).

Lemma task_record_extract p md : extract_exif_data w p = Ok md → task_record w p = md.
Proof. unfold task_record. by intros ->. Qed.

Lemma collect_loop_lookup total cb order st p :
  results (foldl (collect w total cb) st order) !! p
  = if bool_decide (p ∈ order) then Some (task_record w p) else results st !! p.
Proof.
  revert st. induction order as [|q order IH]; intros st; simpl; [done|].
  rewrite IH. simpl. destruct (decide (p = q)) as [->|Hne].
  - rewrite (bool_decide_eq_true_2 (q ∈ q :: order)) by left.
    case_bool_decide; [done|]. by rewrite lookup_insert_eq.
  - rewrite lookup_insert_ne by done.
    rewrite (bool_decide_ext (p ∈ q :: order) (p ∈ order)); [done|].
    rewrite elem_of_cons. naive_solver.
Qed.

Lemma process_files_lookup sched file_paths cb p :
  (process_files w sched file_paths cb).1 !! p
  = if bool_decide (p ∈ List.filter is_supported_file file_paths)
    then Some (task_record w p) else None.
Proof.
  unfold process_files. destruct file_paths as [|q rest]; [done|].
  change (Nat.eqb (length (q :: rest)) 0) with false. cbv iota.
  generalize (q :: rest). clear q rest. intros file_paths. cbn [fst].
  rewrite collect_loop_lookup. cbn [results]. rewrite lookup_empty.
  apply (f_equal (λ b : bool, if b then Some (task_record w p) else None)).
  apply bool_decide_ext. by rewrite as_completed_Permutation.
Qed.

Lemma elem_of_supported file_paths p :
  p ∈ List.filter is_supported_file file_paths
  ↔ p ∈ file_paths ∧ is_supported_file p = true.
Proof. by rewrite list_elem_of_In, filter_In, <- list_elem_of_In. Qed.

End bulk_results.

(** X1: [process_files] stores, under every listed path that
    [is_supported_file] accepts, the Record that [extract_exif_data]
    returns for that path, and has no entry for any other path. *)
Theorem process_files_records (w : world) sched file_paths cb p :
  (p ∈ file_paths → is_supported_file p = true →
   ∃ md, extract_exif_data w p = Ok md
     ∧ (process_files w sched file_paths cb).1 !! p = Some md)
  ∧ (¬ (p ∈ file_paths ∧ is_supported_file p = true) →
     (process_files w sched file_paths cb).1 !! p = None).
Proof.
  rewrite process_files_lookup, <- elem_of_supported. split.
  - intros Hin Hs. destruct (extract_returns w p) as [md Hmd]. exists md.
    split; [done|]. rewrite bool_decide_eq_true_2 by by apply elem_of_supported.
    by rewrite (task_record_extract w p md).
  - intros Hn. by rewrite bool_decide_eq_false_2.
Qed.

(** X2: the mapping returned by [process_files] depends neither on
    the order in which the workers complete nor on whether a progress
    callback was given. *)
Theorem process_files_order_independent (w : world) sched sched' file_paths cb cb' :
  (process_files w sched file_paths cb).1 = (process_files w sched' file_paths cb').1.
Proof. apply map_eq. intros p. by rewrite !process_files_lookup. Qed.

(** X3: a listed supported path that does not exist gets the Record
    [{'error': 'File not found'}], and the Records of all other paths are
    the ones a run without that path gives. *)
Theorem process_files_missing_file (w : world) sched file_paths cb p :
  p ∈ file_paths → is_supported_file p = true → os_path_exists w p = false →
  (process_files w sched file_paths cb).1 !! p = Some (error_record "File not found")
  ∧ ∀ q, q ≠ p →
      (process_files w sched file_paths cb).1 !! q
      = (process_files w sched (List.filter (λ x, negb (String.eqb x p)) file_paths) cb).1 !! q.
Proof.
  intros Hin Hs Hex. rewrite !process_files_lookup. split.
  - rewrite bool_decide_eq_true_2 by by apply elem_of_supported.
    by rewrite (task_record_extract w p _ (extract_not_found w p Hex)).
  - intros q Hq. rewrite !process_files_lookup.
    apply (f_equal (λ b : bool, if b then Some (task_record w q) else None)).
    apply bool_decide_ext. rewrite !elem_of_supported, !list_elem_of_In, filter_In.
    rewrite negb_true_iff, String.eqb_neq. naive_solver.
Qed.

Lemma process_files_missing_file_witness :
  (process_files Demo.env (λ n, n) ["photos/a.jpg"; "photos/gone.jpg"]%string true).1
    !! "photos/gone.jpg"%string = Some (error_record "File not found")
  ∧ ∀ q, q ≠ "photos/gone.jpg"%string →
      (process_files Demo.env (λ n, n) ["photos/a.jpg"; "photos/gone.jpg"]%string true).1 !! q
      = (process_files Demo.env (λ n, n)
           (List.filter (λ x, negb (String.eqb x "photos/gone.jpg"))
                        ["photos/a.jpg"; "photos/gone.jpg"]%string) true).1 !! q.
Proof.
  apply (process_files_missing_file Demo.env (λ n, n)
           ["photos/a.jpg"; "photos/gone.jpg"]%string true "photos/gone.jpg").
  - set_solver.
  - reflexivity.
  - reflexivity.
Defined.

(** ** The error messages of the extractor *)

Section errors.
Context (w : world).

Lemma classify_tag_error tag_id value : keeps_error (classify_tag w tag_id value).
Proof.
  intros md. unfold classify_tag.
  repeat case_bool_decide; try done.
  by destruct (_parse_gps_data w value).
Qed.

Lemma classify_tags_error items : keeps_error (classify_tags w items).
Proof.
  induction items as [|[tag_id value] rest IH]; intros md; simpl; [done|].
  pose proof (classify_tag_error tag_id value md) as H.
  destruct (classify_tag w tag_id value md) as [md' [e|]]; simpl in *; [done|].
  by rewrite IH.
Qed.

Lemma read_primary_error p : keeps_error (read_primary w p).
Proof.
  intros md. unfold read_primary.
  destruct (Image_open w p) as [img|]; [|done].
  destruct (img_getexif img) as [[[|item items]|]|]; try done.
  pose proof (classify_tags_error (item :: items) md) as H.
  destruct (classify_tags w (item :: items) md) as [md' [e|]]; by simpl in *.
Qed.

Lemma read_secondary_error p : keeps_error (read_secondary w p).
Proof. intros md. unfold read_secondary. by destruct (exifread_process_file w p). Qed.

Lemma probe_video_error p : keeps_error (probe_video w p).
Proof.
  intros md. unfold probe_video.
  destruct (ffprobe_run w p) as [proc|]; [|done].
  destruct (returncode proc =? 0); [|done].
  by destruct (json_loads w (stdout proc)) as [[]|].
Qed.

Lemma copy_audio_tags_error tags : keeps_error (copy_audio_tags w tags).
Proof.
  induction tags as [|[key value] rest IH]; intros md; simpl; [done|].
  destruct value; try (by rewrite IH).
  destruct (py_index _ _); simpl; [by rewrite IH|done].
Qed.

Lemma read_mp3_error p : keeps_error (read_mp3 w p).
Proof.
  intros md. unfold read_mp3.
  destruct (import_mutagen w); [|done].
  destruct (MP3 w p) as [audio|]; [|done].
  destruct (mp3_tags audio) as [[|t ts]|]; try done.
  by rewrite copy_audio_tags_error.
Qed.

(** The ['error'] key after [except Exception as e]. *)
Lemma record_failure_error prefix o :
  error o.1 = None →
  error (record_failure prefix o)
  = match o.2 with Some e => Some (prefix +:+ exn_str e) | None => None end.
Proof. by destruct o as [md [e|]]. Qed.

Lemma image_handler_error p md :
  _extract_image_exif w p = Ok md →
  error md = None ∨ ∃ e, error md = Some ("Error reading image EXIF: " +:+ exn_str e)%string.
Proof.
  unfold _extract_image_exif. destruct (_get_file_info w p) as [fi|]; simpl; [|done].
  intros [= <-].
  match goal with |- context [read_primary w p ?m] =>
    pose proof (read_primary_error p m) as H1;
    destruct (read_primary w p m) as [md' [e|]] eqn:E1 end; simpl in *.
  - right. by exists e.
  - pose proof (read_secondary_error p md') as H2.
    destruct (read_secondary w p md') as [md'' [e|]]; simpl in *.
    + right. by exists e.
    + left. congruence.
Qed.

Lemma video_handler_error p md :
  _extract_video_exif w p = Ok md →
  error md = None ∨ ∃ e, error md = Some ("Error reading video metadata: " +:+ exn_str e)%string.
Proof.
  unfold _extract_video_exif. destruct (_get_file_info w p) as [fi|]; simpl; [|done].
  intros [= <-].
  match goal with |- context [probe_video w p ?m] =>
    pose proof (probe_video_error p m) as H1;
    destruct (probe_video w p m) as [md' [[[] msg]|]] end; simpl in *;
    first [by left | right; by exists (Exn OSError msg)].
Qed.

Lemma audio_handler_error p md :
  _extract_audio_exif w p = Ok md →
  error md = None
  ∨ (∃ e, error md = Some ("Error reading audio metadata: " +:+ exn_str e)%string)
  ∨ error md = Some "Install mutagen library for full audio metadata support"%string.
Proof.
  unfold _extract_audio_exif. destruct (_get_file_info w p) as [fi|]; simpl; [|done].
  intros [= <-]. destruct (String.eqb _ _); simpl; [|by left].
  match goal with |- context [read_mp3 w p ?m] =>
    pose proof (read_mp3_error p m) as H1;
    destruct (read_mp3 w p m) as [md' [[[] msg]|]] end; simpl in *;
    first [by left | by right; right | right; left; by exists (Exn OSError msg)].
Qed.

End errors.

(** X4: [extract_exif_data] always returns, and an ['error'] field it
    sets holds one of seven messages: file not found, unsupported format,
    the mutagen hint, or one of the four prefixes of a caught exception
    followed by the text of that exception. *)
Theorem extract_error_taxonomy (w : world) (file_path : string) :
  ∃ md, extract_exif_data w file_path = Ok md
    ∧ ∀ msg, error md = Some msg → known_error msg.
Proof.
  unfold extract_exif_data.
  destruct (os_path_exists w file_path); simpl;
    [|eexists; split; [done|]; intros msg [= <-]; constructor].
  repeat case_bool_decide.
  - destruct (_extract_image_exif w file_path) as [md|e] eqn:E; simpl.
    + exists md. split; [done|]. intros msg Hmsg.
      destruct (image_handler_error w _ _ E) as [He|[e He]]; [congruence|].
      rewrite He in Hmsg. injection Hmsg as <-. constructor.
    + eexists; split; [done|]. intros msg [= <-]. constructor.
  - destruct (_extract_video_exif w file_path) as [md|e] eqn:E; simpl.
    + exists md. split; [done|]. intros msg Hmsg.
      destruct (video_handler_error w _ _ E) as [He|[e He]]; [congruence|].
      rewrite He in Hmsg. injection Hmsg as <-. constructor.
    + eexists; split; [done|]. intros msg [= <-]. constructor.
  - destruct (_extract_audio_exif w file_path) as [md|e] eqn:E; simpl.
    + exists md. split; [done|]. intros msg Hmsg.
      destruct (audio_handler_error w _ _ E) as [He|[[e He]|He]]; [congruence|..];
        rewrite He in Hmsg; injection Hmsg as <-; constructor.
    + eexists; split; [done|]. intros msg [= <-]. constructor.
  - eexists; split; [done|]. intros msg [= <-]. constructor.
Qed.

Lemma supported_cases p :
  is_supported_file p = true →
  lower (path_suffix p) ∈ supported_image_formats
  ∨ lower (path_suffix p) ∈ supported_video_formats
  ∨ lower (path_suffix p) ∈ supported_audio_formats.
Proof.
  unfold is_supported_file. intros H%bool_decide_eq_true.
  rewrite !elem_of_union in H. tauto.
Qed.

(** A supported file that exists is never answered with one of the two
    messages of the dispatch. *)
Lemma extract_supported_error (w : world) p md msg :
  os_path_exists w p = true → is_supported_file p = true →
  extract_exif_data w p = Ok md → error md = Some msg →
  msg ≠ "File not found"%string ∧ msg ≠ "Unsupported file format"%string.
Proof.
  intros Hex Hs. unfold extract_exif_data. rewrite Hex. simpl.
  apply supported_cases in Hs.
  repeat case_bool_decide; [..|tauto].
  - destruct (_extract_image_exif w p) as [md'|e] eqn:E; simpl; intros [= <-] Hmsg.
    + destruct (image_handler_error w _ _ E) as [He|[e He]]; [congruence|].
      rewrite He in Hmsg. injection Hmsg as <-. by split.
    + injection Hmsg as <-. by split.
  - destruct (_extract_video_exif w p) as [md'|e] eqn:E; simpl; intros [= <-] Hmsg.
    + destruct (video_handler_error w _ _ E) as [He|[e He]]; [congruence|].
      rewrite He in Hmsg. injection Hmsg as <-. by split.
    + injection Hmsg as <-. by split.
  - destruct (_extract_audio_exif w p) as [md'|e] eqn:E; simpl; intros [= <-] Hmsg.
    + destruct (audio_handler_error w _ _ E) as [He|[[e He]|He]]; [congruence|..];
        rewrite He in Hmsg; injection Hmsg as <-; by split.
    + injection Hmsg as <-. by split.
Qed.

(** X5: for a file that exists, [extract_exif_data] answers
    ['Unsupported file format'] exactly when [is_supported_file] rejects
    the path: the dispatch on the suffix and the support check agree. *)
Theorem unsupported_answer_iff (w : world) (file_path : string) (md : metadata) :
  os_path_exists w file_path = true →
  extract_exif_data w file_path = Ok md →
  (error md = Some "Unsupported file format"%string ↔ is_supported_file file_path = false).
Proof.
  intros Hex Hmd. split.
  - intros Herr. destruct (is_supported_file file_path) eqn:Hs; [|done].
    by destruct (extract_supported_error w _ _ _ Hex Hs Hmd Herr).
  - intros Hs. rewrite (extract_unsupported w _ Hex Hs) in Hmd. by injection Hmd as <-.
Qed.

Lemma unsupported_answer_iff_witness :
  error (error_record "Unsupported file format") = Some "Unsupported file format"%string
  ↔ is_supported_file "photos/notes.txt" = false.
Proof.
  apply (unsupported_answer_iff Demo.env "photos/notes.txt"); reflexivity.
Defined.

(** X6: every entry of the mapping [process_files] returns belongs to
    a listed, supported path, is the Record [extract_exif_data] returns for
    it, and never carries the error ['Unsupported file format']. *)
Theorem process_files_never_unsupported (w : world) sched file_paths cb p md :
  (process_files w sched file_paths cb).1 !! p = Some md →
  p ∈ file_paths ∧ is_supported_file p = true
  ∧ extract_exif_data w p = Ok md
  ∧ error md ≠ Some "Unsupported file format"%string.
Proof.
  rewrite process_files_lookup. case_bool_decide as Hin; [|done].
  apply elem_of_supported in Hin as [Hin Hs]. intros [= <-].
  destruct (extract_returns w p) as [md Hmd].
  rewrite (task_record_extract w p md Hmd).
  repeat split; try done.
  intros Herr. destruct (os_path_exists w p) eqn:Hex.
  - by destruct (extract_supported_error w _ _ _ Hex Hs Hmd Herr).
  - rewrite (extract_not_found w p Hex) in Hmd. by injection Hmd as <-.
Qed.

Lemma process_files_never_unsupported_witness :
  "photos/gone.jpg"%string ∈ ["photos/notes.txt"; "photos/gone.jpg"]%string
  ∧ is_supported_file "photos/gone.jpg" = true
  ∧ extract_exif_data Demo.env "photos/gone.jpg" = Ok (error_record "File not found")
  ∧ error (error_record "File not found") ≠ Some "Unsupported file format"%string.
Proof.
  apply (process_files_never_unsupported Demo.env (λ n, n)
           ["photos/notes.txt"; "photos/gone.jpg"]%string true).
  reflexivity.
Defined.

Section geotags.
Context (w : world).

Lemma probe_video_gps p : keeps_gps_data (probe_video w p).
Proof.
  intros md. unfold probe_video.
  destruct (ffprobe_run w p) as [proc|]; [|done].
  destruct (returncode proc =? 0); [|done].
  by destruct (json_loads w (stdout proc)) as [[]|].
Qed.

Lemma copy_audio_tags_gps tags : keeps_gps_data (copy_audio_tags w tags).
Proof.
  induction tags as [|[key value] rest IH]; intros md; simpl; [done|].
  destruct value; try (by rewrite IH).
  destruct (py_index _ _); simpl; [by rewrite IH|done].
Qed.

Lemma read_mp3_gps p : keeps_gps_data (read_mp3 w p).
Proof.
  intros md. unfold read_mp3.
  destruct (import_mutagen w); [|done].
  destruct (MP3 w p) as [audio|]; [|done].
  destruct (mp3_tags audio) as [[|t ts]|]; try done.
  by rewrite copy_audio_tags_gps.
Qed.

Lemma record_failure_gps prefix o : gps_data (record_failure prefix o) = gps_data o.1.
Proof. by destruct o as [md [e|]]. Qed.

Lemma on_import_error_gps o : gps_data (on_import_error o).1 = gps_data o.1.
Proof. by destruct o as [md [[[] msg]|]]. Qed.

Lemma video_handler_no_gps p md : _extract_video_exif w p = Ok md → gps_data md = None.
Proof.
  unfold _extract_video_exif. destruct (_get_file_info w p) as [fi|]; simpl; [|done].
  intros [= <-]. by rewrite record_failure_gps, pass_probe_absent_fst, probe_video_gps.
Qed.

Lemma audio_handler_no_gps p md : _extract_audio_exif w p = Ok md → gps_data md = None.
Proof.
  unfold _extract_audio_exif. destruct (_get_file_info w p) as [fi|]; simpl; [|done].
  intros [= <-]. rewrite record_failure_gps. destruct (String.eqb _ _); [|done].
  by rewrite on_import_error_gps, read_mp3_gps.
Qed.

End geotags.

(** X7: only the image handler writes [gps_data]: a Record returned
    by [extract_exif_data] that has both decimal coordinates belongs to an
    existing file with an image suffix. *)
Theorem geotagged_only_images (w : world) (file_path : string) (md : metadata) :
  extract_exif_data w file_path = Ok md → geotagged md →
  os_path_exists w file_path = true
  ∧ lower (path_suffix file_path) ∈ supported_image_formats.
Proof.
  unfold extract_exif_data. intros Hmd (g & Hg & _).
  destruct (os_path_exists w file_path); simpl in Hmd;
    [|injection Hmd as <-; done].
  split; [done|].
  repeat case_bool_decide; [done|..].
  - destruct (_extract_video_exif w file_path) as [md'|e] eqn:E; simpl in Hmd;
      injection Hmd as <-; [|done].
    apply video_handler_no_gps in E. congruence.
  - destruct (_extract_audio_exif w file_path) as [md'|e] eqn:E; simpl in Hmd;
      injection Hmd as <-; [|done].
    apply audio_handler_no_gps in E. congruence.
  - by injection Hmd as <-.
Qed.

Lemma geotagged_only_images_witness :
  os_path_exists Demo.env "photos/a.jpg" = true
  ∧ lower (path_suffix "photos/a.jpg") ∈ supported_image_formats.
Proof.
  eapply (geotagged_only_images Demo.env "photos/a.jpg").
  - reflexivity.
  - eexists. split; [reflexivity|]. split; by eexists.
Defined.

Section container_fields.
Context (w : world).

Lemma read_primary_container_fields p md md' :
  read_primary w p md = (md', None) → has_container_fields md'.
Proof.
  unfold read_primary.
  destruct (Image_open w p) as [img|]; [|done].
  destruct (img_getexif img) as [exif_dict|]; [|done].
  destruct exif_dict as [[|item items]|];
    [| destruct (classify_tags w (item :: items) md) as [md1 [e|]]; [done|] |].
  all: intros [= <-]; eexists _, _, _; simpl; split; [|split].
  all: first [ by rewrite lookup_insert_eq
             | by rewrite lookup_insert_ne, lookup_insert_eq
             | by rewrite lookup_insert_ne, lookup_insert_ne, lookup_insert_eq ].
Qed.

Lemma read_secondary_image_info p md : image_info (read_secondary w p md).1 = image_info md.
Proof. unfold read_secondary. by destruct (exifread_process_file w p). Qed.

End container_fields.

(** X8: a Record without ['error'] returned for an existing image
    file has the keys [Format], [Mode] and [Size] in [image_info] (the last
    two as strings), and both the primary and the secondary source were
    read without an exception. *)
Theorem image_record_container_fields (w : world) (file_path : string) (md : metadata) :
  os_path_exists w file_path = true →
  lower (path_suffix file_path) ∈ supported_image_formats →
  extract_exif_data w file_path = Ok md → error md = None →
  has_container_fields md
  ∧ ∃ img tags, Image_open w file_path = Ok img
      ∧ exifread_process_file w file_path = Ok tags.
Proof.
  intros Hex Hs. unfold extract_exif_data. rewrite Hex. simpl.
  rewrite bool_decide_eq_true_2 by done.
  unfold _extract_image_exif. destruct (_get_file_info w file_path) as [fi|]; simpl;
    [|by intros [= <-]].
  match goal with |- context [read_primary w file_path ?m] =>
    pose proof (read_primary_error w file_path m) as H1;
    destruct (read_primary w file_path m) as [md' [e|]] eqn:E1 end; simpl in *;
    [by intros [= <-]|].
  pose proof (read_secondary_image_info w file_path md') as H2.
  unfold read_secondary in *.
  destruct (exifread_process_file w file_path) as [tags|e] eqn:E2; simpl in *;
    [|by intros [= <-]].
  intros [= <-] _. split.
  - apply read_primary_container_fields in E1. exact E1.
  - unfold read_primary in E1. destruct (Image_open w file_path) as [img|]; [|done].
    by exists img, tags.
Qed.

Lemma image_record_container_fields_witness :
  ∃ md, extract_exif_data Demo.env "photos/a.jpg" = Ok md
    ∧ has_container_fields md.
Proof.
  eexists. split; [reflexivity|].
  eapply (proj1 (image_record_container_fields Demo.env "photos/a.jpg" _ _ _ _ _)).
  Unshelve. all: reflexivity || (by apply (bool_decide_unpack _)).
Defined.

(** ** Further properties of the GPS decoder *)

Section gps_keys.
Context (w : world).

Lemma decode_gps_items_dom_iff items acc k :
  k ∈ dom (decode_gps_items w items acc)
  ↔ k ∈ dom acc ∨ ∃ k0 v, (k0, v) ∈ items ∧ k = decode_key (GPSTAGS w) k0.
Proof.
  revert acc. induction items as [|[key value] rest IH]; intros acc; simpl.
  - split; [by left|]. intros [?|(? & ? & []%elem_of_nil & _)]. done.
  - rewrite IH, dom_insert_L, elem_of_union, elem_of_singleton. split.
    + intros [[->|?]|(k0 & v & Hin & ->)]; [right|by left|right].
      * exists key, value. split; [by left|done].
      * exists k0, v. split; [by right|done].
    + intros [?|(k0 & v & [[= -> ->]|Hin]%elem_of_cons & ->)]; [by left; right|by left; left|].
      right. by exists k0, v.
Qed.

Lemma decode_gps_items_values items acc k v :
  (∀ k' v', acc !! k' = Some v' → ∃ s, v' = VStr s) →
  decode_gps_items w items acc !! k = Some v → ∃ s, v = VStr s.
Proof.
  revert acc. induction items as [|[key value] rest IH]; intros acc Hacc; simpl; [apply Hacc|].
  apply IH. intros k' v'. rewrite lookup_insert. case_decide; [|apply Hacc].
  intros [= <-]. by eexists.
Qed.

Lemma decode_gps_items_app items items' acc :
  decode_gps_items w (items ++ items') acc
  = decode_gps_items w items' (decode_gps_items w items acc).
Proof.
  revert acc. induction items as [|[key value] rest IH]; intros acc; simpl; [done|].
  apply IH.
Qed.

Lemma decode_gps_items_untouched items acc k :
  (∀ k' v', (k', v') ∈ items → decode_key (GPSTAGS w) k' ≠ k) →
  decode_gps_items w items acc !! k = acc !! k.
Proof.
  revert acc. induction items as [|[key value] rest IH]; intros acc Hk; simpl; [done|].
  rewrite IH by (intros k' v' Hin; apply (Hk k' v'); by right).
  apply lookup_insert_ne. apply (Hk key value). by left.
Qed.

(** The last entry under a decoded name is the one stored, as its [str]. *)
Lemma decode_gps_items_last before k v after acc :
  (∀ k' v', (k', v') ∈ after →
     decode_key (GPSTAGS w) k' ≠ decode_key (GPSTAGS w) k) →
  decode_gps_items w (before ++ (k, v) :: after) acc !! decode_key (GPSTAGS w) k
  = Some (VStr (py_str w v)).
Proof.
  intros Hlast. rewrite decode_gps_items_app. simpl.
  rewrite decode_gps_items_untouched by done. apply lookup_insert_eq.
Qed.

(** The mapping returned is the stringified one, alone or with both
    decimal fields written on top. *)
Lemma parse_gps_result_cases gps_info g :
  _parse_gps_data w gps_info = Ok g →
  ∃ items, (gps_info = VDict items ∨ (py_truthy gps_info = false ∧ items = []))
    ∧ (g = decode_gps_items w items ∅
       ∨ ∃ lat lon,
           g = <[TagName "DecimalLongitude" := VFloat lon]>
                 (<[TagName "DecimalLatitude" := VFloat lat]> (decode_gps_items w items ∅))).
Proof.
  unfold _parse_gps_data. destruct (py_truthy gps_info) eqn:Ht; simpl.
  - destruct gps_info as [| | | | | | |items]; try done.
    intros Hg. exists items. split; [by left|].
    unfold decimal_coordinates in Hg.
    destruct (bool_decide _ && bool_decide _); [|left; congruence].
    destruct (_convert_to_degrees w (default _ (dict_get (TagId 2) items))) as [x|];
      simpl in Hg; [|left; congruence].
    destruct (_convert_to_degrees w (default _ (dict_get (TagId 4) items))) as [y|];
      simpl in Hg; [|left; congruence].
    right. injection Hg as <-. by eexists _, _.
  - intros [= <-]. exists []. split; [by right|by left].
Qed.

End gps_keys.

(** X9: [_parse_gps_data] keeps every entry of the sub-mapping under
    its decoded key, with the [str] of its value: the last entry wins when
    two keys decode to the same name, and only under the names
    [DecimalLatitude] and [DecimalLongitude] can the string give way, to
    the float.  It adds no key other than these two, and stores strings
    everywhere except for these two, which are floats. *)
Theorem parse_gps_keeps_every_entry (w : world) items (g : gmap tag_key pyval) :
  _parse_gps_data w (VDict items) = Ok g →
  (∀ k v, (k, v) ∈ items → decode_key (GPSTAGS w) k ∈ dom g)
  ∧ (∀ before k v after,
       items = before ++ (k, v) :: after →
       (∀ k' v', (k', v') ∈ after →
          decode_key (GPSTAGS w) k' ≠ decode_key (GPSTAGS w) k) →
       g !! decode_key (GPSTAGS w) k = Some (VStr (py_str w v))
       ∨ (decode_key (GPSTAGS w) k = TagName "DecimalLatitude"
          ∨ decode_key (GPSTAGS w) k = TagName "DecimalLongitude")
         ∧ ∃ f, g !! decode_key (GPSTAGS w) k = Some (VFloat f))
  ∧ (∀ k, k ∈ dom g →
       k = TagName "DecimalLatitude" ∨ k = TagName "DecimalLongitude"
       ∨ ∃ k0 v, (k0, v) ∈ items ∧ k = decode_key (GPSTAGS w) k0)
  ∧ (∀ k v, g !! k = Some v →
       (∃ s, v = VStr s)
       ∨ (∃ f, v = VFloat f)
         ∧ (k = TagName "DecimalLatitude" ∨ k = TagName "DecimalLongitude")).
Proof.
  intros Hg. apply parse_gps_result_cases in Hg as (items' & Hit & Hg).
  assert (items' = items) as ->.
  { destruct Hit as [[= ->]|[Hf ->]]; [done|]. by destruct items. }
  assert (Hstr : ∀ k v, decode_gps_items w items ∅ !! k = Some v → ∃ s, v = VStr s).
  { intros k v. apply decode_gps_items_values. intros k' v'. by rewrite lookup_empty. }
  destruct Hg as [->|(lat & lon & ->)]; (split; [|split; [|split]]).
  - intros k v Hin. apply decode_gps_items_dom_iff. right. by exists k, v.
  - intros before k v after -> Hlast. left. by apply decode_gps_items_last.
  - intros k [Hk|Hk]%decode_gps_items_dom_iff; [by rewrite dom_empty_L in Hk|].
    by right; right.
  - intros k v Hk. left. by eapply Hstr.
  - intros k v Hin. rewrite !dom_insert_L, !elem_of_union. right; right.
    apply decode_gps_items_dom_iff. right. by exists k, v.
  - intros before k v after -> Hlast. rewrite !lookup_insert.
    repeat case_decide.
    + right. split; [by right|by eexists].
    + right. split; [by left|by eexists].
    + left. by apply decode_gps_items_last.
  - intros k. rewrite !dom_insert_L, !elem_of_union, !elem_of_singleton.
    intros [->|[->|[Hk|Hk]%decode_gps_items_dom_iff]]; auto.
    by rewrite dom_empty_L in Hk.
  - intros k v. rewrite !lookup_insert. repeat case_decide; subst.
    + intros [= <-]. right. split; [by eexists|by right].
    + intros [= <-]. right. split; [by eexists|by left].
    + intros Hk. left. by eapply Hstr.
Qed.

Lemma parse_gps_keeps_every_entry_witness :
  ∃ g, _parse_gps_data Demo.env (VDict Demo.pittsburgh_items) = Ok g
    ∧ (∀ k v, (k, v) ∈ Demo.pittsburgh_items → decode_key Demo.gpstags k ∈ dom g)
    ∧ g !! TagName "GPSLatitudeRef" = Some (VStr "N").
Proof.
  eexists. split; [reflexivity|].
  destruct (parse_gps_keeps_every_entry Demo.env Demo.pittsburgh_items _ eq_refl)
    as (Hdom & Hval & _).
  split; [exact Hdom|].
  destruct (Hval [] (TagId 1) (VStr "N") (tail Demo.pittsburgh_items) eq_refl)
    as [Hk|[[Hk|Hk] _]]; [|exact Hk|discriminate Hk..].
  intros k' v' Hin.
  assert (HF : Forall (λ kv : tag_key * pyval,
                         decode_key Demo.gpstags kv.1 ≠ decode_key Demo.gpstags (TagId 1))
                      (tail Demo.pittsburgh_items)).
  { repeat (apply List.Forall_cons; [by intros [=]|]). apply List.Forall_nil. }
  rewrite Forall_forall in HF. exact (HF (k', v') Hin).
Defined.

(** X10: the mapping returned by [_parse_gps_data] has a float
    [DecimalLatitude] exactly when it has a float [DecimalLongitude]: the
    two are written together or not at all. *)
Theorem parse_gps_decimals_together (w : world) gps_info (g : gmap tag_key pyval) :
  _parse_gps_data w gps_info = Ok g →
  ((∃ lat, g !! TagName "DecimalLatitude" = Some (VFloat lat))
   ↔ (∃ lon, g !! TagName "DecimalLongitude" = Some (VFloat lon))).
Proof.
  intros Hg. apply parse_gps_result_cases in Hg as (items & _ & Hg).
  assert (Hstr : ∀ k f, decode_gps_items w items ∅ !! k ≠ Some (VFloat f)).
  { intros k f Hk. apply decode_gps_items_values in Hk as [s [=]].
    intros k' v'. by rewrite lookup_empty. }
  destruct Hg as [->|(lat & lon & ->)].
  - split; intros [f Hf]; by apply Hstr in Hf.
  - split; intros _.
    + exists lon. by rewrite lookup_insert_eq.
    + exists lat. by rewrite lookup_insert_ne, lookup_insert_eq.
Qed.

Lemma parse_gps_decimals_together_witness :
  (∃ lat, (<[TagName "GPSLatitude" := VStr "<value>"]> ∅ : gmap tag_key pyval)
            !! TagName "DecimalLatitude" = Some (VFloat lat))
  ↔ (∃ lon, (<[TagName "GPSLatitude" := VStr "<value>"]> ∅ : gmap tag_key pyval)
              !! TagName "DecimalLongitude" = Some (VFloat lon)).
Proof.
  apply (parse_gps_decimals_together Demo.env
           (VDict [(TagId 2, VTuple [VInt 40; VInt 26; VInt 46])])).
  reflexivity.
Defined.

(** ** Scanning, processing and grouping *)

(** X11: processing the list that [scan_directory] returns drops
    nothing: the progress callback counts up to the number of files found,
    and the mapping has exactly these files as keys. *)
Theorem scan_then_process (w : world) sched (directory_path : string) (recursive : bool) :
  let files := scan_directory w directory_path recursive in
  let out := process_files w sched files true in
  out.2 = (λ i, (i, length files)) <$> seq 1 (length files)
  ∧ dom out.1 = list_to_set files.
Proof.
  intros files out.
  destruct (process_files_spec w sched files true) as [Hcalls Hdom].
  assert (Hid : List.filter is_supported_file files = files).
  { apply forallb_filter_id, forallb_forall. intros p Hp%list_elem_of_In.
    by apply elem_of_scan_directory in Hp as [Hs _]. }
  by rewrite Hid in Hcalls, Hdom.
Qed.

Section grouping.
Context (w : world).

(** The grouping loop, over any list of paths. *)
Lemma group_loop_lookup (files : list string) (grouped : gmap string (list string)) ext :
  (∀ e l, grouped !! e = Some l → l ≠ []) →
  foldl (λ grouped file_path,
           let ext := lower (path_suffix file_path) in
           <[ext := default [] (grouped !! ext) ++ [file_path]]> grouped)
        grouped files !! ext
  = match default [] (grouped !! ext)
          ++ List.filter (λ p, String.eqb (lower (path_suffix p)) ext) files with
    | [] => None
    | l => Some l
    end.
Proof.
  revert grouped. induction files as [|p files IH]; intros grouped Hne; simpl.
  - rewrite app_nil_r. destruct (grouped !! ext) as [l|] eqn:E; simpl; [|done].
    apply Hne in E. by destruct l.
  - rewrite IH.
    + destruct (String.eqb_spec (lower (path_suffix p)) ext) as [->|Hneq].
      * rewrite lookup_insert_eq. simpl. by rewrite <- app_assoc.
      * by rewrite lookup_insert_ne.
    + intros e l. rewrite lookup_insert. case_decide; [|apply Hne].
      intros [= <-]. by destruct (default [] _).
Qed.

Lemma get_files_by_extension_lookup dir ext :
  get_files_by_extension w dir !! ext
  = match List.filter (λ p, String.eqb (lower (path_suffix p)) ext)
                      (scan_directory w dir true) with
    | [] => None
    | l => Some l
    end.
Proof.
  unfold get_files_by_extension. rewrite group_loop_lookup; [done|].
  intros e l. by rewrite lookup_empty.
Qed.

End grouping.

(** X12: [get_files_by_extension] partitions the recursive scan: each
    group is non-empty and holds, in scan order, exactly the scanned files
    whose lower-cased suffix is its key, and each scanned file is in the
    group of its own suffix and in no other. *)
Theorem files_by_extension_partition (w : world) (directory_path : string) :
  (∀ ext l, get_files_by_extension w directory_path !! ext = Some l →
     l ≠ []
     ∧ l = List.filter (λ p, String.eqb (lower (path_suffix p)) ext)
                       (scan_directory w directory_path true))
  ∧ (∀ p, p ∈ scan_directory w directory_path true →
       ∃ l, get_files_by_extension w directory_path !! lower (path_suffix p) = Some l
         ∧ p ∈ l
         ∧ ∀ ext l', get_files_by_extension w directory_path !! ext = Some l' →
             p ∈ l' → ext = lower (path_suffix p)).
Proof.
  split.
  - intros ext l. rewrite get_files_by_extension_lookup.
    destruct (List.filter _ _) as [|x xs]; [done|]. by intros [= <-].
  - intros p Hp.
    assert (Hin : p ∈ List.filter (λ q, String.eqb (lower (path_suffix q))
                                     (lower (path_suffix p)))
                                  (scan_directory w directory_path true)).
    { apply list_elem_of_In, filter_In. split; [by apply list_elem_of_In|].
      apply String.eqb_refl. }
    rewrite get_files_by_extension_lookup.
    destruct (List.filter _ _) as [|x xs] eqn:E; [by apply elem_of_nil in Hin|].
    eexists. split; [done|]. split; [done|].
    intros ext l'. rewrite get_files_by_extension_lookup.
    destruct (List.filter (λ q, String.eqb (lower (path_suffix q)) ext) _)
      as [|y ys] eqn:E'; [done|].
    intros [= <-] Hp'. rewrite <- E' in Hp'.
    apply list_elem_of_In, filter_In in Hp' as [_ Heq].
    by apply String.eqb_eq in Heq.
Qed.

Lemma StronglySorted_filter {A} (R : relation A) (f : A → bool) l :
  StronglySorted R l → StronglySorted R (List.filter f l).
Proof.
  induction 1 as [|x l Hl IH Hx]; simpl; [constructor|].
  destruct (f x); [|done]. constructor; [done|].
  rewrite Forall_forall in Hx |- *. intros y Hy%list_elem_of_In%filter_In.
  apply Hx, list_elem_of_In, Hy.
Qed.

(** X13: every key of [get_files_by_extension] is a supported
    extension in lower case, and every group is sorted ascending and holds
    supported files with that extension only. *)
Theorem files_by_extension_groups (w : world) (directory_path ext : string) l :
  get_files_by_extension w directory_path !! ext = Some l →
  ext ∈ supported_image_formats ∪ supported_video_formats ∪ supported_audio_formats
  ∧ StronglySorted str_le l
  ∧ Forall (λ p, lower (path_suffix p) = ext ∧ is_supported_file p = true) l.
Proof.
  rewrite get_files_by_extension_lookup.
  destruct (List.filter _ _) as [|x xs] eqn:E; [done|]. intros [= <-].
  assert (Hall : Forall (λ p, lower (path_suffix p) = ext ∧ is_supported_file p = true)
                        (x :: xs)).
  { rewrite <- E. apply Forall_forall. intros p Hp%list_elem_of_In%filter_In.
    destruct Hp as [Hp Heq]. apply String.eqb_eq in Heq. split; [done|].
    apply list_elem_of_In in Hp. by apply elem_of_scan_directory in Hp as [Hs _]. }
  split; [|split; [|done]].
  - apply Forall_cons in Hall as [[<- Hs] _].
    unfold is_supported_file in Hs. by apply bool_decide_eq_true in Hs.
  - rewrite <- E. apply StronglySorted_filter.
    unfold scan_directory. destruct (negb _); [constructor|apply sorted_StronglySorted].
Qed.

Lemma files_by_extension_groups_witness :
  ".jpg"%string ∈ supported_image_formats ∪ supported_video_formats ∪ supported_audio_formats
  ∧ StronglySorted str_le ["photos/a.jpg"; "photos/b.jpg"; "photos/c.JPG"]%string
  ∧ Forall (λ p, lower (path_suffix p) = ".jpg"%string ∧ is_supported_file p = true)
           ["photos/a.jpg"; "photos/b.jpg"; "photos/c.JPG"]%string.
Proof.
  apply (files_by_extension_groups Demo.env "photos" ".jpg").
  by vm_compute.
Defined.

(** ** Further properties of the exporter *)

Section csv.
Context (w : world).

Lemma add_columns_keeps {K V} `{Countable K} prefix (show_key : K → string)
    (show : V → string) (d : option (gmap K V)) (row : gmap string string) col v :
  (∀ k, prefix +:+ k ≠ col) →
  row !! col = Some v →
  add_columns prefix show_key show d row !! col = Some v.
Proof.
  intros Hne. unfold add_columns. destruct d as [d|]; [|done].
  generalize (map_to_list d). intros items. revert row.
  induction items as [|[k x] items IH]; intros row Hrow; simpl; [done|].
  apply IH. rewrite lookup_insert_ne; [done|apply Hne].
Qed.

(** No metadata key can take the place of the path column. *)
Lemma flatten_file_path p md : flatten w p md !! "File Path"%string = Some p.
Proof.
  unfold flatten.
  repeat (apply add_columns_keeps; [by intros k|]).
  apply lookup_insert_eq.
Qed.

Lemma flattened_rows (data : list (string * metadata)) :
  omap (λ item : string * metadata,
          match error item.2 with
          | None => Some (flatten w item.1 item.2)
          | Some _ => None
          end) data
  = map (λ item, flatten w item.1 item.2) (csv_records data).
Proof.
  unfold csv_records. induction data as [|[p md] items IH]; [done|].
  cbn [omap list_omap List.filter fst snd]. rewrite IH.
  by destruct (error md).
Qed.

Lemma union_of_doms (rows : list (gmap string string)) (names : gset string) col :
  col ∈ foldl (λ names row, names ∪ dom row) names rows
  ↔ col ∈ names ∨ ∃ row, row ∈ rows ∧ col ∈ dom row.
Proof.
  revert names. induction rows as [|r rows IH]; intros names; simpl.
  - split; [by left|]. intros [?|(? & []%elem_of_nil & _)]. done.
  - rewrite IH, elem_of_union. split.
    + intros [[?|?]|(row & Hin & Hc)]; [by left|right|right].
      * exists r. split; [by left|done].
      * exists row. split; [by right|done].
    + intros [?|(row & [->|Hin]%elem_of_cons & Hc)]; [by left; left|by left; right|].
      right. by exists row.
Qed.

End csv.

(** [_export_csv] in terms of the Records it writes. *)
Lemma export_csv_unfold (w : world) (data : list (string * metadata))
    (output_path : string) (files : gmap string document) :
  csv_records data ≠ [] →
  _export_csv w data output_path files
  = match open_for_write w output_path with
    | Raise _ => (files, false)
    | Ok _ =>
        let flattened_data := map (λ item, flatten w item.1 item.2) (csv_records data) in
        let fieldnames :=
          sorted (elements (foldl (λ names row, names ∪ dom row)
                                  (∅ : gset string) flattened_data)) in
        write_document w output_path
          (CsvDoc fieldnames
             (map (λ row : gmap string string,
                     map (λ f, default EmptyString (row !! f)) fieldnames)
                  flattened_data)) files
    end.
Proof.
  intros Hne. unfold _export_csv. rewrite flattened_rows.
  by destruct (csv_records data).
Qed.

(** X14: when some Record has no ['error'] and the output can be
    opened, [_export_csv] hands the writer a header that is sorted and
    free of duplicates and has a [File Path] column, and one row per
    error-free Record, in the order in which the Records were inserted,
    each as wide as the header and holding the path of its Record in that
    column.  It returns [True], with this document in the file, exactly
    when no write raises; when one does it returns [False] and the file
    holds what was written until then. *)
Theorem export_csv_document (w : world) (data : list (string * metadata))
    (output_path : string) (files : gmap string document) :
  csv_records data ≠ [] → returns (open_for_write w output_path) →
  ∃ fieldnames rows column,
    StronglySorted str_le fieldnames ∧ NoDup fieldnames
    ∧ fieldnames !! column = Some "File Path"%string
    ∧ Forall (λ r, length r = length fieldnames) rows
    ∧ (λ r : list string, r !! column) <$> rows = (λ item, Some item.1) <$> csv_records data
    ∧ _export_csv w data output_path files
      = match write_interrupted w output_path (CsvDoc fieldnames rows) with
        | None => (<[output_path := CsvDoc fieldnames rows]> files, true)
        | Some (written, _) => (<[output_path := written]> files, false)
        end.
Proof.
  intros Hne [u Hopen]. rewrite export_csv_unfold, Hopen by done. cbv zeta.
  set (fieldnames := sorted (elements _)).
  assert (Hin : "File Path"%string ∈ fieldnames).
  { subst fieldnames. rewrite elem_of_sorted, elem_of_elements, union_of_doms. right.
    destruct (csv_records data) as [|[p md] items]; [done|].
    exists (flatten w p md). split; [by left|].
    apply elem_of_dom. rewrite flatten_file_path. by eexists. }
  apply list_elem_of_lookup in Hin as [column Hcol].
  eexists fieldnames, _, column.
  split; [apply sorted_StronglySorted|].
  split; [subst fieldnames; unfold sorted; rewrite merge_sort_Permutation;
          apply NoDup_elements|].
  split; [done|]. split; [|split; [|reflexivity]].
  - apply Forall_forall. intros r Hr%list_elem_of_fmap. destruct Hr as (row & -> & _).
    by rewrite length_map.
  - rewrite <- !list_fmap_compose. apply list_fmap_ext. intros i [q md'] _. simpl.
    rewrite list_lookup_fmap, Hcol. simpl. by rewrite flatten_file_path.
Qed.

Lemma export_csv_document_witness :
  let data : list (string * metadata) :=
    [("photos/gone.jpg"%string, error_record "File not found");
     ("photos/b.jpg"%string, set_exif_data {[TagName "ISO" := "200"%string]} empty_metadata);
     ("photos/a.jpg"%string, set_exif_data {[TagName "ISO" := "100"%string]} empty_metadata)] in
  ∃ fieldnames rows column,
    StronglySorted str_le fieldnames ∧ NoDup fieldnames
    ∧ fieldnames !! column = Some "File Path"%string
    ∧ Forall (λ r, length r = length fieldnames) rows
    ∧ (λ r : list string, r !! column) <$> rows = (λ item, Some item.1) <$> csv_records data
    ∧ _export_csv Demo.env data "out.csv" ∅
      = match write_interrupted Demo.env "out.csv" (CsvDoc fieldnames rows) with
        | None => (<["out.csv"%string := CsvDoc fieldnames rows]> ∅, true)
        | Some (written, _) => (<["out.csv"%string := written]> ∅, false)
        end.
Proof.
  intros data. apply (export_csv_document Demo.env data "out.csv" ∅).
  - by vm_compute.
  - by eexists.
Defined.

Section export_frame.
Context (w : world).

Lemma write_document_frame output_path doc files :
  let out := write_document w output_path doc files in
  (∀ q, q ≠ output_path → out.1 !! q = files !! q)
  ∧ (out.2 = true → is_Some (out.1 !! output_path)).
Proof.
  unfold write_document.
  destruct (write_interrupted w output_path doc) as [[written e]|]; simpl;
    (split; [intros q Hq; by rewrite lookup_insert_ne|]); [done|].
  intros _. rewrite lookup_insert_eq. by eexists.
Qed.

Lemma export_csv_frame data output_path files :
  let out := _export_csv w data output_path files in
  (∀ q, q ≠ output_path → out.1 !! q = files !! q)
  ∧ (out.2 = true → is_Some (out.1 !! output_path)).
Proof.
  unfold _export_csv.
  destruct (omap _ _); simpl; [done|].
  destruct (open_for_write w output_path); simpl; [|done].
  apply write_document_frame.
Qed.

Lemma export_json_frame data output_path files :
  let out := _export_json w data output_path files in
  (∀ q, q ≠ output_path → out.1 !! q = files !! q)
  ∧ (out.2 = true → is_Some (out.1 !! output_path)).
Proof.
  unfold _export_json.
  destruct (open_for_write w output_path); simpl; [|done].
  destruct (json_dump w data) as [text [e|]]; simpl;
    (split; [intros q Hq; by rewrite lookup_insert_ne|]); [done|].
  intros _. rewrite lookup_insert_eq. by eexists.
Qed.

Lemma export_txt_frame data output_path files :
  let out := _export_txt w data output_path files in
  (∀ q, q ≠ output_path → out.1 !! q = files !! q)
  ∧ (out.2 = true → is_Some (out.1 !! output_path)).
Proof.
  unfold _export_txt.
  destruct (open_for_write w output_path); simpl; [|done].
  apply write_document_frame.
Qed.

End export_frame.

(** X15: [export_data] writes no file other than the output path, and
    when it reports success a document is at the output path. *)
Theorem export_data_touches_only_output (w : world) (data : list (string * metadata))
    (output_path format_type : string) (files files' : gmap string document) (ok : bool) :
  export_data w data output_path format_type files = Ok (files', ok) →
  (∀ q, q ≠ output_path → files' !! q = files !! q)
  ∧ (ok = true → is_Some (files' !! output_path)).
Proof.
  unfold export_data. destruct (negb _); [done|].
  repeat (destruct (String.eqb _ _)); intros Heq.
  - pose proof (export_json_frame w data output_path files) as H.
    by replace (_export_json w data output_path files) with (files', ok) in H by congruence.
  - pose proof (export_csv_frame w data output_path files) as H.
    by replace (_export_csv w data output_path files) with (files', ok) in H by congruence.
  - pose proof (export_txt_frame w data output_path files) as H.
    by replace (_export_txt w data output_path files) with (files', ok) in H by congruence.
  - injection Heq as <- <-. done.
Qed.

Lemma export_data_touches_only_output_witness :
  (∀ q, q ≠ "out.json"%string →
        (<["out.json"%string := TextDoc "{}"]> {["kept.txt"%string := TextDoc "x"]}
           : gmap string document) !! q
        = ({["kept.txt"%string := TextDoc "x"]} : gmap string document) !! q)
  ∧ (true = true →
     is_Some ((<["out.json"%string := TextDoc "{}"]> {["kept.txt"%string := TextDoc "x"]}
                : gmap string document) !! "out.json"%string)).
Proof.
  apply (export_data_touches_only_output Demo.env [] "out.json" "JSON"
           {["kept.txt"%string := TextDoc "x"]}).
  reflexivity.
Defined.

(** X16: with a supported format, a failure to open the output file
    is caught: [export_data] returns [False], raises nothing and leaves
    every file as it was. *)
Theorem export_data_open_failure (w : world) (data : list (string * metadata))
    (output_path format_type : string) (files : gmap string document) e :
  lower format_type ∈ supported_formats →
  open_for_write w output_path = Raise e →
  export_data w data output_path format_type files = Ok (files, false).
Proof.
  intros Hf Hopen. unfold export_data. rewrite bool_decide_eq_true_2 by done. simpl.
  unfold _export_json, _export_csv, _export_txt. rewrite Hopen.
  repeat (destruct (String.eqb _ _)); try done.
  by destruct (omap _ _).
Qed.

Lemma export_data_open_failure_witness :
  export_data read_only_env [("photos/a.jpg"%string, iso_record)]
              "out/report.json" "JSON" ∅ = Ok (∅, false).
Proof.
  apply (export_data_open_failure read_only_env _ "out/report.json" "JSON" ∅
           (Exn OSError "Permission denied")).
  - by apply (bool_decide_unpack _).
  - reflexivity.
Defined.

Lemma pyval_tree_ind (P : pyval → Prop) :
  P VNone → (∀ s, P (VStr s)) → (∀ z, P (VInt z)) → (∀ f, P (VFloat f)) →
  (∀ n d, P (VRational n d)) →
  (∀ l, Forall P l → P (VTuple l)) →
  (∀ l, Forall P l → P (VList l)) →
  (∀ items, Forall (λ kv, P kv.2) items → P (VDict items)) →
  ∀ v, P v.
Proof.
  intros Hnone Hstr Hint Hfloat Hrat Htuple Hlist Hdict. fix IH 1.
  intros [| s | z | f | n d | l | l | items];
    [exact Hnone | apply Hstr | apply Hint | apply Hfloat | apply Hrat | ..].
  - apply Htuple. induction l as [|x l IHl]; constructor; [apply IH|done].
  - apply Hlist. induction l as [|x l IHl]; constructor; [apply IH|done].
  - apply Hdict. induction items as [|[k x] items IHl]; constructor; [apply IH|done].
Qed.

Lemma clean_for_json_result_jsonable (w : world) (data : pyval) :
  jsonable (_clean_for_json w data).
Proof.
  induction data as [| | | | | l IH | l IH | items IH] using pyval_tree_ind;
    simpl; try constructor.
  - apply Forall_forall. intros x (y & -> & Hy)%list_elem_of_fmap.
    rewrite Forall_forall in IH. by apply IH.
  - apply Forall_forall. intros x ([k y] & -> & Hy)%list_elem_of_fmap.
    rewrite Forall_forall in IH. by apply (IH (k, y)).
Qed.

(** X17: [_clean_for_json] returns a value made of [None], strings,
    numbers, lists and dictionaries only; a dictionary keeps its keys in
    their order and a list its length. *)
Theorem clean_for_json_jsonable (w : world) (data : pyval) :
  jsonable (_clean_for_json w data)
  ∧ (∀ items, data = VDict items →
       ∃ items', _clean_for_json w data = VDict items' ∧ items'.*1 = items.*1)
  ∧ (∀ l, data = VList l →
       ∃ l', _clean_for_json w data = VList l' ∧ length l' = length l).
Proof.
  split; [apply clean_for_json_result_jsonable|split].
  - intros items ->. simpl. eexists. split; [done|].
    rewrite <- list_fmap_compose. by apply list_fmap_ext.
  - intros l ->. simpl. eexists. split; [done|]. by rewrite length_map.
Qed.

(** X18: [_clean_for_json] leaves a value that is already serialisable
    as it is, so cleaning twice is cleaning once. *)
Theorem clean_for_json_idempotent (w : world) (data : pyval) :
  (jsonable data → _clean_for_json w data = data)
  ∧ _clean_for_json w (_clean_for_json w data) = _clean_for_json w data.
Proof.
  assert (Hfix : ∀ v, jsonable v → _clean_for_json w v = v).
  { intros v. induction v as [| | | | | l IH | l IH | items IH] using pyval_tree_ind;
      intros Hv; simpl; try done; try (by inversion Hv).
    - f_equal. inversion Hv as [| | | |? Hl|]; subst.
      rewrite Forall_forall in IH, Hl.
      rewrite <- (list_fmap_id l) at 2. apply list_fmap_ext. intros i x Hx.
      apply list_elem_of_lookup_2 in Hx. by apply IH; [|apply Hl].
    - f_equal. inversion Hv as [| | | | |? Hl]; subst.
      rewrite Forall_forall in IH, Hl.
      rewrite <- (list_fmap_id items) at 2. apply list_fmap_ext. intros i [k x] Hx.
      apply list_elem_of_lookup_2 in Hx. simpl. f_equal.
      by apply (IH (k, x)); [|apply (Hl (k, x))]. }
  split; [apply Hfix|]. apply Hfix, clean_for_json_result_jsonable.
Qed.

(** ** Properties of the helpers *)

Import Helpers.

Lemma replace_char_smap c r s :
  replace_char c r s = smap (λ a, if Ascii.eqb a c then r else a) s.
Proof. induction s as [|a s IH]; simpl; [done|]. by rewrite IH. Qed.

Lemma smap_ext f g s : (∀ a, f a = g a) → smap f s = smap g s.
Proof. intros H. induction s as [|a s IH]; simpl; [done|]. by rewrite H, IH. Qed.

Lemma smap_smap f g s : smap f (smap g s) = smap (λ a, f (g a)) s.
Proof. induction s as [|a s IH]; simpl; [done|]. by rewrite IH. Qed.

Lemma smap_id f s :
  (∀ a, a ∈ list_ascii_of_string s → f a = a) → smap f s = s.
Proof.
  induction s as [|a s IH]; simpl; [done|]. intros H.
  rewrite H by left. rewrite IH; [done|]. intros b Hb. apply H. by right.
Qed.

Lemma elem_of_smap f s c :
  c ∈ list_ascii_of_string (smap f s) → ∃ a, a ∈ list_ascii_of_string s ∧ c = f a.
Proof.
  induction s as [|a s IH]; simpl; [by intros ?%elem_of_nil|].
  intros [->|Hc]%elem_of_cons.
  - exists a. split; [by left|done].
  - destruct (IH Hc) as (b & Hb & ->). exists b. split; [by right|done].
Qed.

(** The replacement loop maps every listed character to the replacement. *)
Lemma replace_loop (chars : list ascii) (r : ascii) s :
  r ∉ chars →
  foldl (λ name char, replace_char char r name) s chars
  = smap (λ a, if bool_decide (a ∈ chars) then r else a) s.
Proof.
  revert s. induction chars as [|c chars IH]; intros s Hr; simpl.
  - rewrite smap_id; [done|]. intros a _.
    first [done | by rewrite bool_decide_eq_false_2 by apply not_elem_of_nil].
  - rewrite IH by (intros ?; apply Hr; by right).
    rewrite replace_char_smap, smap_smap. apply smap_ext. intros a.
    destruct (Ascii.eqb_spec a c) as [->|Hne].
    + rewrite (bool_decide_eq_true_2 (c ∈ c :: chars)) by left.
      rewrite bool_decide_eq_false_2; [done|]. intros ?. apply Hr. by right.
    + apply (f_equal (λ b : bool, if b then r else a)).
      apply bool_decide_ext. rewrite elem_of_cons. naive_solver.
Qed.

Lemma lstrip_chars cs s c :
  c ∈ list_ascii_of_string (lstrip cs s) → c ∈ list_ascii_of_string s.
Proof.
  induction s as [|a s IH]; simpl; [done|].
  case_bool_decide; [|done]. intros Hc. right. by apply IH.
Qed.

Lemma rstrip_chars cs s c :
  c ∈ list_ascii_of_string (rstrip cs s) → c ∈ list_ascii_of_string s.
Proof.
  induction s as [|a s IH]; simpl; [done|].
  destruct (rstrip cs s) as [|b t].
  - case_bool_decide; simpl; [by intros ?%elem_of_nil|].
    intros [->|[]%elem_of_nil]%elem_of_cons. by left.
  - simpl. intros [->|H]%elem_of_cons; [by left|]. right. by apply IH.
Qed.

Lemma lstrip_first cs s c : first_char (lstrip cs s) = Some c → c ∉ cs.
Proof.
  induction s as [|a s IH]; simpl; [done|].
  case_bool_decide; [done|]. simpl. by intros [= <-].
Qed.

Lemma rstrip_last cs s c : last_char (rstrip cs s) = Some c → c ∉ cs.
Proof.
  induction s as [|a s IH]; simpl; [done|].
  destruct (rstrip cs s) as [|b t].
  - case_bool_decide; simpl; [done|]. by intros [= <-].
  - done.
Qed.

Lemma lstrip_last cs s :
  lstrip cs s ≠ EmptyString → last_char (lstrip cs s) = last_char s.
Proof.
  induction s as [|a s IH]; simpl; [done|].
  case_bool_decide; [|done]. intros Hs. rewrite IH by done.
  destruct s; [by simpl in Hs|done].
Qed.

Lemma lstrip_id cs s :
  (∀ c, first_char s = Some c → c ∉ cs) → lstrip cs s = s.
Proof.
  destruct s as [|a s]; simpl; [done|]. intros H.
  rewrite bool_decide_eq_false_2; [done|]. by apply H.
Qed.

Lemma rstrip_id cs s :
  (∀ c, last_char s = Some c → c ∉ cs) → rstrip cs s = s.
Proof.
  induction s as [|a s IH]; simpl; [done|]. intros H.
  destruct s as [|b t].
  - simpl. rewrite bool_decide_eq_false_2; [done|]. by apply H.
  - rewrite IH by done. done.
Qed.

Lemma not_space_dot c : c ∉ [" "; "."]%char ↔ c ≠ " "%char ∧ c ≠ "."%char.
Proof. rewrite !not_elem_of_cons. split; [tauto|]. intros []. repeat split; [done..|apply not_elem_of_nil]. Qed.

Lemma safe_filename_fixed s : safe_filename s → sanitize_filename s = s.
Proof.
  intros (Hne & Hinv & Hfirst & Hlast). unfold sanitize_filename.
  rewrite replace_loop by (by apply (bool_decide_unpack _)).
  rewrite smap_id.
  - unfold strip. rewrite rstrip_id, lstrip_id.
    + destruct s; [done|]. done.
    + intros c Hc. apply not_space_dot. by apply Hfirst.
    + intros c Hc. apply not_space_dot. by apply Hlast.
  - intros a Ha. rewrite bool_decide_eq_false_2; [done|]. intros Hin. by apply (Hinv a).
Qed.

Lemma sanitize_filename_result_safe (filename : string) :
  safe_filename (sanitize_filename filename).
Proof.
  unfold sanitize_filename.
  rewrite replace_loop by (by apply (bool_decide_unpack _)).
  set (cleaned := smap _ filename).
  destruct (String.eqb_spec (strip [" "; "."]%char cleaned) "") as [Heq|Hne].
  - split; [done|]. split; [|split].
    + assert (HF : Forall (λ a, a ∉ invalid_chars) (list_ascii_of_string "unnamed_file"))
        by (by apply (bool_decide_unpack _)).
      rewrite Forall_forall in HF. intros c Hc Hin. by apply (HF c).
    + by intros c [= <-].
    + by intros c [= <-].
  - split; [done|]. split; [|split].
    + intros c Hc Hin. unfold strip in Hin.
      apply lstrip_chars, rstrip_chars in Hin. subst cleaned.
      apply elem_of_smap in Hin as (a & _ & ->).
      case_bool_decide as Ha; [|done]. revert Hc.
      by apply (bool_decide_unpack ("_"%char ∉ invalid_chars)).
    + intros c Hc. apply not_space_dot. by eapply lstrip_first.
    + intros c Hc. apply not_space_dot. unfold strip in Hc, Hne.
      rewrite lstrip_last in Hc by done. by eapply rstrip_last.
Qed.

(** X19: the result of [sanitize_filename] is never empty, contains
    none of the nine invalid characters and neither starts nor ends with a
    space or a dot; the names with these properties are exactly the ones the
    function returns unchanged, so sanitising twice is sanitising once. *)
Theorem sanitize_filename_normal_form (filename : string) :
  safe_filename (sanitize_filename filename)
  ∧ (sanitize_filename filename = filename ↔ safe_filename filename)
  ∧ sanitize_filename (sanitize_filename filename) = sanitize_filename filename.
Proof.
  split; [apply sanitize_filename_result_safe|]. split.
  - split; [|apply safe_filename_fixed].
    intros <-. apply sanitize_filename_result_safe.
  - apply safe_filename_fixed, sanitize_filename_result_safe.
Qed.

Lemma length_substring_0 n s :
  String.length (substring 0 n s) = Nat.min n (String.length s).
Proof.
  revert n. induction s as [|a s IH]; intros [|n]; simpl; try done. by rewrite IH.
Qed.

Lemma length_append s t :
  String.length (s +:+ t) = (String.length s + String.length t)%nat.
Proof. induction s as [|a s IH]; simpl; [done|]. by rewrite IH. Qed.

Lemma length_slice_to text k :
  Z.of_nat (String.length (slice_to text k))
  = if k <? 0 then Z.max 0 (Z.of_nat (String.length text) + k)
    else Z.min k (Z.of_nat (String.length text)).
Proof.
  unfold slice_to. rewrite length_substring_0.
  destruct (k <? 0) eqn:E; lia.
Qed.

(** X20: [truncate_text] returns a text that fits as it is; a longer
    text is cut to exactly [max_length] characters, the last three being the
    ellipsis, when [max_length] is at least 3; for a smaller [max_length]
    the result is longer than [max_length]. *)
Theorem truncate_text_length (text : string) (max_length : Z) :
  let len := Z.of_nat (String.length text) in
  let out := Z.of_nat (String.length (truncate_text text max_length)) in
  (len ≤ max_length → truncate_text text max_length = text)
  ∧ (max_length < len → 3 ≤ max_length →
     out = max_length
     ∧ truncate_text text max_length
       = substring 0 (Z.to_nat (max_length - 3)) text +:+ "...")
  ∧ (max_length < len → max_length < 3 → max_length < out).
Proof.
  intros len out. subst len out. unfold truncate_text.
  destruct (Z.leb_spec (Z.of_nat (String.length text)) max_length) as [Hle|Hgt].
  - split; [done|]. split; lia.
  - split; [lia|]. rewrite length_append, Nat2Z.inj_add, length_slice_to. simpl.
    split.
    + intros _ H3. split.
      * destruct (Z.ltb_spec (max_length - 3) 0); lia.
      * unfold slice_to. destruct (Z.ltb_spec (max_length - 3) 0); [lia|].
        by rewrite Z.min_l by lia.
    + intros _ H3. destruct (Z.ltb_spec (max_length - 3) 0); lia.
Qed.

Lemma truncate_text_length_witness :
  truncate_text "photograph.jpeg" 10 = "photogr..."%string
  ∧ (2 < Z.of_nat (String.length (truncate_text "photograph.jpeg" 2))).
Proof.
  destruct (truncate_text_length "photograph.jpeg" 10) as (_ & H & _).
  destruct (truncate_text_length "photograph.jpeg" 2) as (_ & _ & H').
  split.
  - apply H; simpl; lia.
  - apply H'; simpl; lia.
Defined.

Lemma supported_cases_ext ext :
  bool_decide (ext ∈ supported_image_formats ∪ supported_video_formats
                     ∪ supported_audio_formats) = true →
  ext ∈ supported_image_formats ∨ ext ∈ supported_video_formats
  ∨ ext ∈ supported_audio_formats.
Proof. intros H%bool_decide_eq_true. rewrite !elem_of_union in H. tauto. Qed.

(** X21: [get_file_extension_group] agrees with the extractor's format
    sets: it answers [Image] exactly for the extractor's image suffixes,
    [Video] and [Audio] for its video and audio suffixes, and never [Other]
    for a path that [is_supported_file] accepts. *)
Theorem extension_group_agrees (file_path : string) :
  let ext := lower (path_suffix file_path) in
  (ext ∈ EXIFExtractor.supported_image_formats
   ↔ get_file_extension_group file_path = "Image"%string)
  ∧ (ext ∈ EXIFExtractor.supported_video_formats →
     get_file_extension_group file_path = "Video"%string)
  ∧ (ext ∈ EXIFExtractor.supported_audio_formats →
     get_file_extension_group file_path = "Audio"%string)
  ∧ (is_supported_file file_path = true →
     get_file_extension_group file_path ≠ "Other"%string).
Proof.
  intros ext. unfold get_file_extension_group, is_supported_file. fold ext.
  generalize ext. clear. intros ext.
  assert (Himg : ({[ ".jpg"; ".jpeg"; ".png"; ".gif"; ".bmp"; ".tiff"; ".tif" ]} : gset string)
                 = supported_image_formats) by (by apply (bool_decide_unpack _)).
  rewrite Himg.
  assert (Hvid : ∀ e, e ∈ supported_video_formats →
            (e ∉ supported_image_formats)
            ∧ e ∈ ({[ ".mp4"; ".avi"; ".mov"; ".mkv"; ".wmv"; ".flv"; ".webm" ]} : gset string)).
  { intros e. unfold supported_video_formats, supported_image_formats.
    rewrite !elem_of_union, !elem_of_singleton.
    intros He. repeat destruct He as [He|He]; subst e; (split; [|tauto]);
      intros Hi; repeat destruct Hi as [Hi|Hi]; discriminate Hi. }
  assert (Haud : ∀ e, e ∈ supported_audio_formats →
            (e ∉ supported_image_formats)
            ∧ (e ∉ ({[ ".mp4"; ".avi"; ".mov"; ".mkv"; ".wmv"; ".flv"; ".webm" ]} : gset string))
            ∧ e ∈ ({[ ".mp3"; ".wav"; ".flac"; ".m4a"; ".aac"; ".ogg" ]} : gset string)).
  { intros e. unfold supported_audio_formats, supported_image_formats.
    rewrite !elem_of_union, !elem_of_singleton.
    intros He. repeat destruct He as [He|He]; subst e; (split; [|split; [|tauto]]);
      intros Hi; repeat destruct Hi as [Hi|Hi]; discriminate Hi. }
  split; [|split; [|split]].
  - repeat case_bool_decide; split; done.
  - intros (Hn & Hv)%Hvid.
    by rewrite (bool_decide_eq_false_2 _ Hn), (bool_decide_eq_true_2 _ Hv).
  - intros (Hn & Hnv & Ha)%Haud.
    by rewrite (bool_decide_eq_false_2 _ Hn), (bool_decide_eq_false_2 _ Hnv),
               (bool_decide_eq_true_2 _ Ha).
  - intros [Hi|[Hv|Ha]]%supported_cases_ext.
    + by rewrite (bool_decide_eq_true_2 _ Hi).
    + apply Hvid in Hv as (Hn & Hv).
      by rewrite (bool_decide_eq_false_2 _ Hn), (bool_decide_eq_true_2 _ Hv).
    + apply Haud in Ha as (Hn & Hnv & Ha).
      by rewrite (bool_decide_eq_false_2 _ Hn), (bool_decide_eq_false_2 _ Hnv),
                 (bool_decide_eq_true_2 _ Ha).
Qed.

Lemma chars_app s t c :
  c ∈ list_ascii_of_string (s +:+ t)
  ↔ c ∈ list_ascii_of_string s ∨ c ∈ list_ascii_of_string t.
Proof.
  induction s as [|a s IH]; simpl.
  - split; [by right|]. by intros [[]%elem_of_nil|?].
  - rewrite !elem_of_cons, IH. tauto.
Qed.

Lemma split_on_no_sep sep s :
  sep ∉ list_ascii_of_string s → split_on sep s = [s].
Proof.
  induction s as [|a s IH]; simpl; [done|].
  intros [Hne Hs]%not_elem_of_cons.
  destruct (Ascii.eqb_spec a sep) as [->|_]; [done|]. by rewrite IH.
Qed.

Lemma rfind_absent c s i : c ∉ list_ascii_of_string s → rfind c s i = None.
Proof.
  revert i. induction s as [|a s IH]; intros i; simpl; [done|].
  intros [Hne Hs]%not_elem_of_cons. rewrite IH by done.
  destruct (Ascii.eqb_spec a c) as [->|_]; done.
Qed.

Lemma rfind_last c s t i :
  c ∉ list_ascii_of_string t →
  rfind c (s +:+ String c t) i = Some (i + String.length s)%nat.
Proof.
  intros Ht. revert i. induction s as [|a s IH]; intros i; simpl.
  - rewrite rfind_absent by done. rewrite Ascii.eqb_refl. f_equal. lia.
  - rewrite IH. f_equal. lia.
Qed.

Lemma append_assoc (a b c : string) : (a +:+ b) +:+ c = a +:+ b +:+ c.
Proof.
  induction a as [|x a IH]; [done|].
  change (String x ((a +:+ b) +:+ c) = String x (a +:+ b +:+ c)). by rewrite IH.
Qed.

Lemma substring_all s : substring 0 (String.length s) s = s.
Proof. induction s as [|a s IH]; simpl; [done|]. by rewrite IH. Qed.

Lemma substring_drop s t :
  substring (String.length s) (String.length t) (s +:+ t) = t.
Proof. induction s as [|a s IH]; simpl; [apply substring_all|done]. Qed.

(** X22: the name [get_suggested_filename] proposes has the lower-cased
    format token as its suffix, for a token without a dot and a name
    without a slash. *)
Theorem suggested_filename_suffix (timestamp format_type prefix : string) :
  lower format_type ≠ EmptyString →
  "."%char ∉ list_ascii_of_string (lower format_type) →
  "/"%char ∉ list_ascii_of_string (get_suggested_filename timestamp format_type prefix) →
  path_suffix (get_suggested_filename timestamp format_type prefix)
  = "." +:+ lower format_type.
Proof.
  intros Hne Hdot Hslash. unfold get_suggested_filename in *.
  set (ext := lower format_type) in *.
  set (stem := prefix +:+ "_" +:+ timestamp).
  assert (Hname : prefix +:+ "_" +:+ timestamp +:+ "." +:+ ext
                  = stem +:+ String "." ext).
  { subst stem. rewrite (append_assoc prefix ("_" +:+ timestamp) (String "." ext)).
    done. }
  rewrite Hname in *.
  assert (Hlen : (0 < String.length stem)%nat).
  { subst stem. rewrite length_append. simpl. lia. }
  assert (Hext : (0 < String.length ext)%nat) by (destruct ext; [done|simpl; lia]).
  unfold path_suffix, path_name.
  rewrite split_on_no_sep by done.
  assert (Hkeep : (negb (String.eqb (stem +:+ String "." ext) "")
                  && negb (String.eqb (stem +:+ String "." ext) "."))%bool = true).
  { apply andb_true_iff. split; apply negb_true_iff, String.eqb_neq.
    - intros E. apply (f_equal String.length) in E. rewrite length_append in E.
      simpl in E. lia.
    - intros E. apply (f_equal String.length) in E. rewrite !length_append in E.
      simpl in E. lia. }
  cbn [List.filter]. rewrite Hkeep. cbn [List.last]. cbv zeta.
  rewrite rfind_last by done. rewrite Nat.add_0_l.
  rewrite length_append. cbn [String.length].
  rewrite (proj2 (Nat.ltb_lt 0 (String.length stem))) by done.
  rewrite (proj2 (Nat.ltb_lt _ _)) by lia. cbn [andb].
  replace (String.length stem + S (String.length ext) - String.length stem)%nat
    with (String.length (String "." ext)) by (simpl; lia).
  apply substring_drop.
Qed.

Lemma suggested_filename_suffix_witness :
  path_suffix (get_suggested_filename "20240101_100000" "CSV" "exif_export") = ".csv"%string.
Proof.
  apply (suggested_filename_suffix "20240101_100000" "CSV" "exif_export").
  - done.
  - by apply (bool_decide_unpack _).
  - by apply (bool_decide_unpack _).
Defined.

Lemma supported_is_listed p :
  is_supported_file p = true →
  bool_decide (lower (path_suffix p)
               ∈ (list_to_set get_supported_extensions : gset string)) = true.
Proof.
  unfold is_supported_file. intros H%bool_decide_eq_true. apply bool_decide_eq_true.
  revert H. generalize (lower (path_suffix p)). intros ext.
  assert (Hsub : supported_image_formats ∪ supported_video_formats ∪ supported_audio_formats
                 ⊆ (list_to_set get_supported_extensions : gset string))
    by (by apply (bool_decide_unpack _)).
  apply Hsub.
Qed.

Lemma filter_filter_implied {A} (f g : A → bool) l :
  (∀ x, f x = true → g x = true) →
  List.filter f (List.filter g l) = List.filter f l.
Proof.
  intros H. induction l as [|x l IH]; simpl; [done|].
  destruct (g x) eqn:Hg; simpl.
  - destruct (f x); by rewrite IH.
  - destruct (f x) eqn:Hf; [|done]. apply H in Hf. congruence.
Qed.

(** The early return on the empty list changes nothing. *)
Lemma process_files_body (w : world) sched file_paths cb :
  process_files w sched file_paths cb
  = let supported_files := List.filter is_supported_file file_paths in
    let final :=
      foldl (collect w (length supported_files) cb)
            (Progress ∅ 0 []) (as_completed sched supported_files) in
    (results final, calls final).
Proof. unfold process_files. by destruct file_paths. Qed.

(** What the helper lists: the extractor's formats and four more. *)
Lemma listed_cases ext :
  bool_decide (ext ∈ (list_to_set get_supported_extensions : gset string))
  = bool_decide (ext ∈ supported_image_formats ∪ supported_video_formats
                       ∪ supported_audio_formats)
    || bool_decide (ext ∈ helper_only_extensions).
Proof.
  assert (Hsets : (list_to_set get_supported_extensions : gset string)
                  = supported_image_formats ∪ supported_video_formats
                    ∪ supported_audio_formats ∪ list_to_set helper_only_extensions)
    by (by apply (bool_decide_unpack _)).
  rewrite Hsets. apply eq_true_iff_eq.
  rewrite orb_true_iff, !bool_decide_eq_true.
  rewrite (elem_of_union _ (list_to_set helper_only_extensions)), elem_of_list_to_set.
  done.
Qed.

Lemma helper_only_unsupported p :
  lower (path_suffix p) ∈ helper_only_extensions → is_supported_file p = false.
Proof.
  unfold is_supported_file. generalize (lower (path_suffix p)). intros ext Hin.
  apply bool_decide_eq_false. revert Hin.
  unfold helper_only_extensions. rewrite !elem_of_cons, elem_of_nil.
  intros [->|[->|[->|[->|[]]]]]; by apply (bool_decide_unpack _).
Qed.

(** X23: [filter_supported_files] keeps, in their order, the listed
    paths that [is_supported_file] accepts and those whose lower-cased
    suffix is one of four that the helper alone lists (.flv, .webm, .aac,
    .ogg) and [is_supported_file] rejects.  [process_files] drops the
    latter again, so passing a list through the helper first changes
    neither the Records nor the progress calls. *)
Theorem process_files_after_filter (w : world) sched file_paths cb :
  filter_supported_files file_paths
  = List.filter (λ p, is_supported_file p
                      || bool_decide (lower (path_suffix p) ∈ helper_only_extensions))
                file_paths
  ∧ (∀ p, lower (path_suffix p) ∈ helper_only_extensions →
       is_supported_file p = false ∧ filter_supported_files [p] = [p])
  ∧ List.filter is_supported_file (filter_supported_files file_paths)
    = List.filter is_supported_file file_paths
  ∧ process_files w sched (filter_supported_files file_paths) cb
    = process_files w sched file_paths cb.
Proof.
  split; [|split; [|split]].
  - unfold filter_supported_files. apply List.filter_ext. intros p.
    by rewrite listed_cases.
  - intros p Hp. split; [by apply helper_only_unsupported|].
    unfold filter_supported_files. cbn [List.filter].
    rewrite listed_cases, (bool_decide_eq_true_2 _ Hp). by rewrite orb_true_r.
  - unfold filter_supported_files.
    apply filter_filter_implied, supported_is_listed.
  - rewrite !process_files_body. unfold filter_supported_files.
    rewrite filter_filter_implied; [done|]. apply supported_is_listed.
Qed.

Lemma validate_in_range lat lon :
  validate_coordinates lat lon = in_range 90 lat && in_range 180 lon.
Proof. reflexivity. Qed.

Lemma in_range_opp_eq bound x : in_range bound (- x) = in_range bound x.
Proof.
  apply eq_true_iff_eq. split; [|apply in_range_opp].
  intros H%in_range_opp. revert H. unfold in_range.
  by rewrite !leb_spec, !opp_spec, SFopp_involutive.
Qed.

(** X24: [validate_coordinates] on the decimal coordinates that
    [_parse_gps_data] wrote gives the same answer as on the magnitudes
    converted from the two triples: the hemisphere references do not change
    validity. *)
Theorem validate_decoded_coordinates (w : world) gps_info (g : gmap tag_key pyval) lat lon :
  _parse_gps_data w gps_info = Ok g →
  g !! TagName "DecimalLatitude" = Some (VFloat lat) →
  g !! TagName "DecimalLongitude" = Some (VFloat lon) →
  ∃ items x y,
    gps_info = VDict items
    ∧ _convert_to_degrees w (default (VList []) (dict_get (TagId 2) items)) = Ok x
    ∧ _convert_to_degrees w (default (VList []) (dict_get (TagId 4) items)) = Ok y
    ∧ validate_coordinates lat lon = validate_coordinates x y.
Proof.
  intros Hp Hlat Hlon.
  destruct (parse_gps_decimals_inv w _ _ _ _ Hp Hlat Hlon)
    as (items & x & y & -> & Hx & Hy & [Nlat Plat] & [Nlon Plon]).
  exists items, x, y. repeat split; try done.
  rewrite !validate_in_range. f_equal.
  - destruct (py_eq_str (dict_get (TagId 1) items) "S") eqn:E.
    + apply py_eq_str_true in E. rewrite (Nlat E). apply in_range_opp_eq.
    + rewrite Plat; [done|]. intros E'%py_eq_str_true. congruence.
  - destruct (py_eq_str (dict_get (TagId 3) items) "W") eqn:E.
    + apply py_eq_str_true in E. rewrite (Nlon E). apply in_range_opp_eq.
    + rewrite Plon; [done|]. intros E'%py_eq_str_true. congruence.
Qed.

Lemma validate_decoded_coordinates_witness :
  ∃ items x y,
    Demo.pittsburgh = VDict items
    ∧ _convert_to_degrees Demo.env (default (VList []) (dict_get (TagId 2) items)) = Ok x
    ∧ _convert_to_degrees Demo.env (default (VList []) (dict_get (TagId 4) items)) = Ok y
    ∧ validate_coordinates 40.446111111111108 (-79.94861111111112)
      = validate_coordinates x y.
Proof.
  apply (validate_decoded_coordinates Demo.env Demo.pittsburgh
           (<[TagName "DecimalLongitude" := VFloat (-79.94861111111112)]>
              (<[TagName "DecimalLatitude" := VFloat 40.446111111111108]>
                 (decode_gps_items Demo.env Demo.pittsburgh_items ∅)))).
  - reflexivity.
  - reflexivity.
  - reflexivity.
Defined.

(** ** Properties of the viewer's filter *)

Import MetadataViewer.

Section filter_lemmas.
Context {K V : Type} `{Countable K}.
Implicit Types (lower_key : K → result string) (show : V → string).

Lemma filter_items_sound lower_key show term items (acc fc : gmap K V) k v :
  filter_items lower_key show term items acc = Ok fc →
  fc !! k = Some v → acc !! k = Some v ∨ (k, v) ∈ items.
Proof.
  revert acc. induction items as [|[key value] rest IH]; intros acc; simpl.
  - intros [= <-]. by left.
  - destruct (lower_key key) as [kl|]; simpl; [|done].
    intros Hfc Hk. destruct (IH _ Hfc Hk) as [Hacc|Hin]; [|right; by right].
    destruct (_ || _); [|by left].
    rewrite lookup_insert in Hacc. case_decide; [|by left].
    injection Hacc as <-. subst. right. by left.
Qed.

Lemma filter_items_raises lower_key show term items (acc : gmap K V) :
  (∃ e, filter_items lower_key show term items acc = Raise e)
  ↔ ∃ k v e, (k, v) ∈ items ∧ lower_key k = Raise e.
Proof.
  revert acc. induction items as [|[key value] rest IH]; intros acc; simpl.
  - split; [by intros [e [=]]|]. by intros (k & v & e & []%elem_of_nil & _).
  - destruct (lower_key key) as [kl|e0] eqn:E; simpl.
    + rewrite IH. split.
      * intros (k & v & e & Hin & Hk). exists k, v, e. split; [by right|done].
      * intros (k & v & e & [[= -> ->]|Hin]%elem_of_cons & Hk); [congruence|].
        by exists k, v, e.
    + split; [|by eexists]. intros _. exists key, value, e0. split; [by left|done].
Qed.

Lemma check_category_sound checked lower_key show term (d c : option (gmap K V)) :
  check_category checked lower_key show term d = Ok c → within c d.
Proof.
  unfold check_category, within. destruct d as [dd|]; [|by intros [= <-]].
  destruct (checked && _); [|intros [= <-]; apply map_empty_subseteq].
  destruct (negb _); [|by intros [= <-]].
  destruct (filter_items _ _ _ _ _) as [fc|] eqn:E; simpl; [|done].
  intros [= <-]. destruct (Nat.eqb _ _); simpl; [apply map_empty_subseteq|].
  apply map_subseteq_spec. intros k v Hk.
  destruct (filter_items_sound _ _ _ _ _ _ _ _ E Hk) as [Hk'|Hin].
  - by rewrite lookup_empty in Hk'.
  - by apply elem_of_map_to_list.
Qed.

Lemma check_category_raises checked lower_key show term (d : option (gmap K V)) :
  (∃ e, check_category checked lower_key show term d = Raise e)
  ↔ checked = true ∧ term ≠ EmptyString
    ∧ ∃ k e, k ∈ dom (sub_dict d) ∧ lower_key k = Raise e.
Proof.
  unfold check_category. destruct d as [dd|]; simpl.
  - destruct checked; simpl.
    + destruct (Nat.eqb (size dd) 0) eqn:Hsz; simpl.
      * apply Nat.eqb_eq, map_size_empty_iff in Hsz. subst dd.
        split; [by intros [e [=]]|]. intros (_ & _ & k & e & Hk & _).
        by rewrite dom_empty_L in Hk.
      * destruct (String.eqb_spec term "") as [->|Hne]; simpl.
        -- split; [by intros [e [=]]|]. by intros (_ & ? & _).
        -- split.
           ++ intros [e He].
              destruct (filter_items _ _ _ _ _) as [fc|e'] eqn:E; simpl in He; [done|].
              destruct (proj1 (filter_items_raises _ _ _ _ _) (ex_intro _ e' E))
                as (k & v & e'' & Hin & Hk).
              split; [done|]. split; [done|]. exists k, e''. split; [|done].
              apply elem_of_map_to_list in Hin. apply elem_of_dom. by eexists.
           ++ intros (_ & _ & k & e & [v Hk]%elem_of_dom & He).
              destruct (proj2 (filter_items_raises lower_key show term
                                 (map_to_list dd) ∅)) as [e' He'].
              { exists k, v, e. split; [by apply elem_of_map_to_list|done]. }
              exists e'. by rewrite He'.
    + split; [by intros [e [=]]|]. by intros ([=] & _).
  - split; [by intros [e [=]]|]. intros (_ & _ & k & e & Hk & _).
    by rewrite dom_empty_L in Hk.
Qed.

End filter_lemmas.

Lemma bind_raises {A B} (m : result A) (f : A → result B) :
  (∃ e, m ≫= f = Raise e)
  ↔ (∃ e, m = Raise e) ∨ ∃ a, m = Ok a ∧ ∃ e, f a = Raise e.
Proof.
  destruct m as [a|e]; simpl.
  - split; [intros He; right; by exists a|]. by intros [[? [=]]|(? & [= <-] & He)].
  - split; [intros _; left; by eexists|by eexists].
Qed.

Lemma key_lower_raises k : (∃ e, key_lower k = Raise e) ↔ ∃ n, k = TagId n.
Proof.
  destruct k as [s|n]; simpl.
  - split; [by intros [e [=]]|by intros [n [=]]].
  - split; [by eexists|by eexists].
Qed.

Section record_filter.
Context (w : world).

Lemma tag_category_raises {V} checked (show : V → string) term (d : option (gmap tag_key V)) :
  (∃ e, check_category checked key_lower show term d = Raise e)
  ↔ checked = true ∧ term ≠ EmptyString ∧ ∃ n, TagId n ∈ dom (sub_dict d).
Proof.
  rewrite check_category_raises. split.
  - intros (Hc & Ht & k & e & Hk & He). split; [done|]. split; [done|].
    destruct (proj1 (key_lower_raises k) (ex_intro _ e He)) as [n ->]. by exists n.
  - intros (Hc & Ht & n & Hn). split; [done|]. split; [done|].
    exists (TagId n). by eexists.
Qed.

Lemma filter_record_raises term category_filter md :
  (∃ e, filter_record w term category_filter md = Raise e)
  ↔ term ≠ EmptyString ∧ numeric_key_checked category_filter md.
Proof.
  unfold filter_record, numeric_key_checked.
  rewrite bind_raises, check_category_raises.
  split.
  - intros [(_ & _ & k & e & _ & [=])|(fi & _ & Hrest)].
    apply bind_raises in Hrest as [Hr|(cam & _ & Hrest)];
      [apply tag_category_raises in Hr as (Hc & Ht & n & Hn); split; [done|];
       exists n; tauto|].
    apply bind_raises in Hrest as [Hr|(img & _ & Hrest)];
      [apply tag_category_raises in Hr as (Hc & Ht & n & Hn); split; [done|];
       exists n; tauto|].
    apply bind_raises in Hrest as [Hr|(gps & _ & Hrest)];
      [apply tag_category_raises in Hr as (Hc & Ht & n & Hn); split; [done|];
       exists n; tauto|].
    apply bind_raises in Hrest as [Hr|(exif & _ & Hrest)];
      [apply tag_category_raises in Hr as (Hc & Ht & n & Hn); split; [done|];
       exists n; tauto|].
    destruct Hrest as [e He]. by destruct fi, cam, img, gps, exif.
  - intros (Ht & n & Hn). right.
    destruct (check_category (checks category_filter "file_info") _ id term (file_info md))
      as [fi|e] eqn:Efi.
    2:{ destruct (proj1 (check_category_raises _ _ _ _ _) (ex_intro _ e Efi))
          as (_ & _ & k & e' & _ & [=]). }
    exists fi. split; [done|].
    destruct (check_category _ key_lower id term (camera_info md)) as [cam|e] eqn:Ecam;
      [|by eexists]. simpl.
    destruct (check_category _ key_lower (py_str w) term (image_info md)) as [img|e] eqn:Eimg;
      [|by eexists]. simpl.
    destruct (check_category _ key_lower (py_str w) term (gps_data md)) as [gps|e] eqn:Egps;
      [|by eexists]. simpl.
    destruct (check_category _ key_lower id term (exif_data md)) as [exif|e] eqn:Eexif;
      [|by eexists]. simpl.
    exfalso.
    assert (Hno : ∀ {V} c (show : V → string) (d : option (gmap tag_key V)) r,
               check_category c key_lower show term d = Ok r →
               ¬ (c = true ∧ TagId n ∈ dom (sub_dict d))).
    { intros V c show d r Hr [Hc Hd].
      destruct (proj2 (tag_category_raises c show term d)) as [e He]; [|congruence].
      split; [done|]. split; [done|]. by exists n. }
    destruct Hn as [Hn|[Hn|[Hn|Hn]]];
      [by eapply (Hno _ _ _ _ _ Ecam)|by eapply (Hno _ _ _ _ _ Eimg)
      |by eapply (Hno _ _ _ _ _ Egps)|by eapply (Hno _ _ _ _ _ Eexif)].
Qed.

Lemma filter_record_sound term category_filter md md' :
  filter_record w term category_filter md = Ok (Some md') →
  within (file_info md') (file_info md)
  ∧ within (camera_info md') (camera_info md)
  ∧ within (image_info md') (image_info md)
  ∧ within (gps_data md') (gps_data md)
  ∧ within (exif_data md') (exif_data md)
  ∧ (is_Some (file_info md) → is_Some (file_info md'))
  ∧ video_info md' = None ∧ streams md' = None ∧ audio_info md' = None
  ∧ error md' = None.
Proof.
  unfold filter_record.
  destruct (check_category _ _ id term (file_info md)) as [fi|] eqn:Efi; simpl; [|done].
  destruct (check_category _ key_lower id term (camera_info md)) as [cam|] eqn:Ecam;
    simpl; [|done].
  destruct (check_category _ key_lower (py_str w) term (image_info md)) as [img|] eqn:Eimg;
    simpl; [|done].
  destruct (check_category _ key_lower (py_str w) term (gps_data md)) as [gps|] eqn:Egps;
    simpl; [|done].
  destruct (check_category _ key_lower id term (exif_data md)) as [exif|] eqn:Eexif;
    simpl; [|done].
  apply check_category_sound in Efi, Ecam, Eimg, Egps, Eexif.
  intros Hmd.
  assert (md' = Metadata (match fi with Some _ => fi | None => file_info md end)
                         exif gps cam img None None None None) as ->.
  { destruct fi, cam, img, gps, exif; simpl in Hmd; congruence. }
  simpl. split; [destruct fi; [exact Efi|by unfold within]|].
  repeat split; try done. intros Hfi. by destruct fi.
Qed.

Lemma filter_records_sound term category_filter items
    (acc out : gmap string metadata) p md' :
  filter_records w term category_filter items acc = Ok out →
  out !! p = Some md' →
  acc !! p = Some md'
  ∨ ∃ md, (p, md) ∈ items ∧ error md = None
      ∧ filter_record w term category_filter md = Ok (Some md').
Proof.
  revert acc. induction items as [|[q md] rest IH]; intros acc; simpl.
  - intros [= <-]. by left.
  - destruct (error md) eqn:Eerr.
    + intros Hout Hp. destruct (IH _ Hout Hp) as [?|(md0 & Hin & ?)]; [by left|].
      right. exists md0. split; [by right|done].
    + destruct (filter_record w term category_filter md) as [r|] eqn:Er; simpl; [|done].
      intros Hout Hp. destruct (IH _ Hout Hp) as [Hacc|(md0 & Hin & ?)].
      * destruct r as [fm|]; [|by left].
        rewrite lookup_insert in Hacc. case_decide; [|by left].
        injection Hacc as <-. subst q. right. exists md. split; [by left|done].
      * right. exists md0. split; [by right|done].
Qed.

Lemma filter_records_raises term category_filter items (acc : gmap string metadata) :
  (∃ e, filter_records w term category_filter items acc = Raise e)
  ↔ ∃ p md, (p, md) ∈ items ∧ error md = None
      ∧ ∃ e, filter_record w term category_filter md = Raise e.
Proof.
  revert acc. induction items as [|[q md] rest IH]; intros acc; simpl.
  - split; [by intros [e [=]]|]. by intros (p & md & []%elem_of_nil & _).
  - destruct (error md) eqn:Eerr.
    + rewrite IH. split.
      * intros (p & md0 & Hin & H0). exists p, md0. split; [by right|done].
      * intros (p & md0 & [[= -> ->]|Hin]%elem_of_cons & He & H0); [congruence|].
        by exists p, md0.
    + destruct (filter_record w term category_filter md) as [r|e0] eqn:Er; simpl.
      * rewrite IH. split.
        -- intros (p & md0 & Hin & H0). exists p, md0. split; [by right|done].
        -- intros (p & md0 & [[= -> ->]|Hin]%elem_of_cons & He & H0).
           ++ destruct H0 as [e H0]. congruence.
           ++ by exists p, md0.
      * split; [|by eexists]. intros _. exists q, md. split; [by left|].
        split; [done|by eexists].
Qed.

End record_filter.

(** X25: when a search text or a category is set, [filter_metadata]
    shows only Records of the current data without ['error'], each category
    shown holds entries of the same category of the original Record only,
    the file information is kept whenever the Record has it, and the video,
    stream and audio fields are never shown. *)
Theorem filter_metadata_sound (w : world) (search_text category_filter : string)
    (current_data filtered_data : gmap string metadata) p md' :
  ¬ (lower search_text = EmptyString ∧ category_filter = "All Categories"%string) →
  filter_metadata w search_text category_filter current_data = Ok filtered_data →
  filtered_data !! p = Some md' →
  ∃ md, current_data !! p = Some md ∧ error md = None
    ∧ within (file_info md') (file_info md)
    ∧ within (camera_info md') (camera_info md)
    ∧ within (image_info md') (image_info md)
    ∧ within (gps_data md') (gps_data md)
    ∧ within (exif_data md') (exif_data md)
    ∧ (is_Some (file_info md) → is_Some (file_info md'))
    ∧ video_info md' = None ∧ streams md' = None ∧ audio_info md' = None
    ∧ error md' = None.
Proof.
  intros Hactive. unfold filter_metadata.
  destruct (String.eqb_spec (lower search_text) "") as [Ht|Ht]; simpl.
  - destruct (String.eqb_spec category_filter "All Categories") as [Hc|Hc]; [tauto|].
    intros Hout Hp.
    destruct (filter_records_sound w _ _ _ _ _ _ _ Hout Hp) as [Hacc|(md & Hin & He & Hr)];
      [by rewrite lookup_empty in Hacc|].
    exists md. split; [by apply elem_of_map_to_list|]. split; [done|].
    by apply filter_record_sound in Hr.
  - intros Hout Hp.
    destruct (filter_records_sound w _ _ _ _ _ _ _ Hout Hp) as [Hacc|(md & Hin & He & Hr)];
      [by rewrite lookup_empty in Hacc|].
    exists md. split; [by apply elem_of_map_to_list|]. split; [done|].
    by apply filter_record_sound in Hr.
Qed.

Lemma filter_metadata_sound_witness :
  ∃ md, ({[ "photos/a.jpg"%string := iso_record ]} : gmap string metadata)
          !! "photos/a.jpg"%string = Some md ∧ error md = None
    ∧ within (file_info iso_record) (file_info md)
    ∧ within (camera_info iso_record) (camera_info md)
    ∧ within (image_info iso_record) (image_info md)
    ∧ within (gps_data iso_record) (gps_data md)
    ∧ within (exif_data iso_record) (exif_data md)
    ∧ (is_Some (file_info md) → is_Some (file_info iso_record))
    ∧ video_info iso_record = None ∧ streams iso_record = None
    ∧ audio_info iso_record = None ∧ error iso_record = None.
Proof.
  apply (filter_metadata_sound Demo.env "ISO" "All Categories"
           {[ "photos/a.jpg"%string := iso_record ]}
           {[ "photos/a.jpg"%string := iso_record ]} "photos/a.jpg" iso_record).
  - intros [Hs _]. discriminate Hs.
  - vm_compute. reflexivity.
  - reflexivity.
Defined.

(** X26: [filter_metadata] raises exactly when the search text is not
    empty and a Record without ['error'] has, in a category the filter looks
    at, a numeric key, which has no [lower] method. *)
Theorem filter_metadata_raises_iff (w : world) (search_text category_filter : string)
    (current_data : gmap string metadata) :
  (∃ e, filter_metadata w search_text category_filter current_data = Raise e)
  ↔ lower search_text ≠ EmptyString
    ∧ ∃ p md, current_data !! p = Some md ∧ error md = None
        ∧ numeric_key_checked category_filter md.
Proof.
  unfold filter_metadata.
  destruct (String.eqb_spec (lower search_text) "") as [Ht|Ht]; simpl.
  - destruct (String.eqb_spec category_filter "All Categories") as [Hc|Hc].
    + split; [by intros [e [=]]|]. by intros [? _].
    + rewrite filter_records_raises. split; [|by intros [? _]].
      intros (p & md & _ & _ & Hr). apply filter_record_raises in Hr as [Hr _].
      by rewrite Ht in Hr.
  - rewrite filter_records_raises. split.
    + intros (p & md & Hin & He & Hr). split; [done|].
      exists p, md. split; [by apply elem_of_map_to_list|]. split; [done|].
      by apply filter_record_raises in Hr as [_ Hr].
    + intros (_ & p & md & Hin & He & Hn). exists p, md.
      split; [by apply elem_of_map_to_list|]. split; [done|].
      apply filter_record_raises. by split.
Qed.
